(** * Flying Coconuts: a shallow embedding of the simulation core

    The development follows the Python sources of the game:
    - [core/memory_logger.py]  (module [MemoryLogger] below),
    - [core/profiles/profile_loader.py] (module [Profiles]),
    - [core/retail_agent.py], [core/monkey_agent.py],
    - [core/engine.py] (coconut physics, hit model, engine tick).

    Modelling conventions.
    - Python [int] is [Z]; Python [float] is an exact rational [Q], compared
      with [==].  The statements proved over [Q] say which operations the
      code applies and in which order, which does not depend on rounding.
      Where a rounding decides an outcome, the computation is modelled in
      IEEE binary64 as well, with the kernel's primitive floats: the juice
      split [1 - 0.7] (module [Binary64]), the hit of an attempt (module
      [GameEngine64]) and the ranking of a curation ([MemoryLogger64]).
    - [random.random()] and [datetime.now()] read from two streams carried
      by the state ([rng], [now]); every call consumes the head.
    - An exception is an explicit result [Raise e]; a method is a function
      from a world to a result and a new world.
    - [dict]s keyed by strike or by name are [gmap]s; a [dict] whose
      iteration order decides a result is an association list in insertion
      order.
    - [print] and the JSON persistence of memories are not modelled: the
      methods swallow their I/O errors and no claim reads the files. *)

From Stdlib Require Import ZArith QArith Qabs Qround Qminmax Lqa Lia.
From Stdlib Require Import Ascii String DecimalString.
From Stdlib Require Import Sorting.Permutation Sorting.Sorted.
From Stdlib Require PrimInt63 PrimFloat Floats.
From stdpp Require Import gmap strings list.

Local Open Scope Z_scope.
Local Open Scope Q_scope.

(** ** Exceptions and the method monad *)

Inductive PyErr : Type :=
| KeyError
| IndexError
| ValueError
| ZeroDivisionError
| TypeError
| OverflowError.

Inductive Res (A : Type) : Type :=
| Ok (a : A)
| Raise (e : PyErr).
Arguments Ok {A} a.
Arguments Raise {A} e.

Definition res_bind {A B} (r : Res A) (k : A -> Res B) : Res B :=
  match r with
  | Ok a => k a
  | Raise e => Raise e
  end.

(** The world a method runs in: the two streams and the object itself. *)
Record World (O : Type) : Type := mkWorld {
  rng : nat -> Q;     (* successive values of random.random() *)
  now : nat -> Q;     (* successive readings of datetime.now(), in seconds *)
  obj : O
}.
Arguments mkWorld {O} rng now obj.
Arguments rng {O} w n.
Arguments now {O} w n.
Arguments obj {O} w.

Definition M (O A : Type) : Type := World O -> Res (A * World O).

Definition ret {O A} (a : A) : M O A := fun w => Ok (a, w).

Definition bind {O A B} (m : M O A) (k : A -> M O B) : M O B :=
  fun w => match m w with
           | Ok (a, w') => k a w'
           | Raise e => Raise e
           end.

Definition raise {O A} (e : PyErr) : M O A := fun _ => Raise e.

Definition lift {O A} (r : Res A) : M O A :=
  fun w => match r with Ok a => Ok (a, w) | Raise e => Raise e end.

Definition get {O} : M O O := fun w => Ok (obj w, w).

Definition put {O} (o : O) : M O unit :=
  fun w => Ok (tt, mkWorld (rng w) (now w) o).

Definition modify {O} (f : O -> O) : M O unit :=
  fun w => Ok (tt, mkWorld (rng w) (now w) (f (obj w))).

(** Run a method of a sub-object (a field read by [proj], written by [upd])
    inside the method of its owner; the streams are shared. *)
Definition zoom {O I A} (proj : O -> I) (upd : I -> O -> O) (m : M I A) : M O A :=
  fun w => match m (mkWorld (rng w) (now w) (proj (obj w))) with
           | Ok (a, w') => Ok (a, mkWorld (rng w') (now w') (upd (obj w') (obj w)))
           | Raise e => Raise e
           end.

Declare Scope py_scope.
Delimit Scope py_scope with py.
Notation "x <- m ;; k" := (bind m (fun x => k))
  (at level 100, m at next level, right associativity) : py_scope.
Notation "m ;;; k" := (bind m (fun _ => k))
  (at level 100, right associativity) : py_scope.
Local Open Scope py_scope.

(** A [for] loop that builds a list, one method call per element. *)
Fixpoint mapM {O A B} (f : A -> M O B) (l : list A) : M O (list B) :=
  match l with
  | [] => ret []
  | x :: l' => y <- f x ;; ys <- mapM f l' ;; ret (y :: ys)
  end.

(** [random.random()]: the head of the stream, which then advances. *)
Definition random {O} : M O Q :=
  fun w => Ok (rng w 0%nat, mkWorld (fun n => rng w (S n)) (now w) (obj w)).

(** [datetime.now()], as seconds on some fixed time line. *)
Definition datetime_now {O} : M O Q :=
  fun w => Ok (now w 0%nat, mkWorld (rng w) (fun n => now w (S n)) (obj w)).

(** ** Python built-ins used by the sources *)

Module Py.

Definition Qltb (a b : Q) : bool := negb (Qle_bool b a).

(** [max(a, b)] keeps its first argument unless the second is greater;
    [min(a, b)] keeps it unless the second is smaller. *)
Definition max2 (a b : Q) : Q := if Qltb a b then b else a.
Definition min2 (a b : Q) : Q := if Qltb b a then b else a.

(** [a / b] on floats raises on a zero divisor. *)
Definition div (a b : Q) : Res Q :=
  if Qeq_bool b 0 then Raise ZeroDivisionError else Ok (a / b).

(** [int(x)] truncates toward zero. *)
Definition int (x : Q) : Z := Z.quot (Qnum x) (Zpos (Qden x)).

(** [str(n)] for an [int]. *)
Definition str_int (n : Z) : string := NilZero.string_of_int (Z.to_int n).

(** [min(l, key=f)] and [max(l, key=f)]: the first extremal element. *)
Fixpoint min_from {A} (key : A -> Q) (best : A) (l : list A) : A :=
  match l with
  | [] => best
  | x :: l' => min_from key (if Qltb (key x) (key best) then x else best) l'
  end.

Definition min_by {A} (key : A -> Q) (l : list A) : Res A :=
  match l with
  | [] => Raise ValueError
  | x :: l' => Ok (min_from key x l')
  end.

Fixpoint max_from {A} (key : A -> Q) (best : A) (l : list A) : A :=
  match l with
  | [] => best
  | x :: l' => max_from key (if Qltb (key best) (key x) then x else best) l'
  end.

Definition max_by {A} (key : A -> Q) (l : list A) : Res A :=
  match l with
  | [] => Raise ValueError
  | x :: l' => Ok (max_from key x l')
  end.

(** [sum(l)] over numbers. *)
Definition sum (l : list Q) : Q := fold_left Qplus l 0.

(** [l[i]] for any [int] [i]: a negative index counts from the end. *)
Definition index {A} (l : list A) (i : Z) : Res A :=
  let n := Z.of_nat (length l) in
  let j := if (i <? 0)%Z then (n + i)%Z else i in
  if (j <? 0)%Z then Raise IndexError
  else match nth_error l (Z.to_nat j) with
       | Some a => Ok a
       | None => Raise IndexError
       end.

(** [l[-n:]] for a positive literal [n], and [l[:n]] for any [int] [n]. *)
Definition last_n {A} (n : nat) (l : list A) : list A :=
  skipn (length l - n) l.

Definition slice_to {A} (n : Z) (l : list A) : list A :=
  if (0 <=? n)%Z then firstn (Z.to_nat n) l
  else firstn (length l - Z.to_nat (- n)) l.

(** [sorted(l, key=f, reverse=True)] and [sorted(l, key=f)]: both stable,
    elements with equal keys keep their input order. *)
Fixpoint insert_desc {A} (key : A -> Q) (x : A) (l : list A) : list A :=
  match l with
  | [] => [x]
  | y :: l' => if Qle_bool (key y) (key x) then x :: y :: l'
               else y :: insert_desc key x l'
  end.

Fixpoint sorted_desc {A} (key : A -> Q) (l : list A) : list A :=
  match l with
  | [] => []
  | x :: l' => insert_desc key x (sorted_desc key l')
  end.

Fixpoint insert_asc {A} (key : A -> Q) (x : A) (l : list A) : list A :=
  match l with
  | [] => [x]
  | y :: l' => if Qle_bool (key x) (key y) then x :: y :: l'
               else y :: insert_asc key x l'
  end.

Fixpoint sorted_asc {A} (key : A -> Q) (l : list A) : list A :=
  match l with
  | [] => []
  | x :: l' => insert_asc key x (sorted_asc key l')
  end.

(** [needle in hay] on strings, and [s.lower()] on ASCII text. *)
Fixpoint contains (needle hay : string) : bool :=
  String.prefix needle hay ||
  match hay with
  | EmptyString => false
  | String _ hay' => contains needle hay'
  end.

Definition lower_ascii (c : ascii) : ascii :=
  let n := nat_of_ascii c in
  if (65 <=? n)%nat && (n <=? 90)%nat then ascii_of_nat (n + 32) else c.

Fixpoint lower (s : string) : string :=
  match s with
  | EmptyString => EmptyString
  | String c s' => String (lower_ascii c) (lower s')
  end.

(** [random.uniform(a, b)] is [a + (b - a) * random()]. *)
Definition uniform {O} (a b : Q) : M O Q :=
  u <- random ;; ret (a + (b - a) * u).

(** [random.choice(seq)]: one draw decides the index; an empty sequence
    raises [IndexError]. *)
Definition choice {O A} (l : list A) : M O A :=
  match l with
  | [] => raise IndexError
  | x :: _ =>
      u <- random ;;
      ret (nth (Z.to_nat (Qfloor (u * inject_Z (Z.of_nat (length l))))) l x)
  end.

(** [round(x)] of a [float]: the nearest integer, a tie going to the even
    one. *)
Definition round (x : Q) : Z :=
  let f := Qfloor x in
  let r := x - inject_Z f in
  if Qltb r (1 # 2) then f
  else if Qltb (1 # 2) r then (f + 1)%Z
  else if Z.even f then f else (f + 1)%Z.

(** [list(range(lo, hi))]. *)
Definition range (lo hi : Z) : list Z :=
  map (fun i => (lo + Z.of_nat i)%Z) (seq 0 (Z.to_nat (hi - lo))).

End Py.

(** ** core/memory_logger.py *)

Module MemoryLogger.

Record Memory : Type := mkMemory {
  content : string;
  importance : Q;
  timestamp : Q;        (* the ISO timestamp, as seconds on the time line *)
  references : Z
}.

Record t : Type := mkLogger {
  agent_name : string;
  max_memories : Z;
  memories : list Memory
}.

Definition set_memories (ms : list Memory) (lg : t) : t :=
  mkLogger (agent_name lg) (max_memories lg) ms.

(** [Memory(content, importance)]: stamped with the clock, never referenced. *)
Definition new_memory (c : string) (imp : Q) : M t Memory :=
  ts <- datetime_now ;; ret (mkMemory c imp ts 0).

(** The score of one memory in [_curate_memories]; the clock is read once
    per memory, as in the loop. *)
Definition age_factor (age : Q) : Res Q := Py.div 1 (1 + age / 86400).

Definition score_memory (m : Memory) : M t (Memory * Q) :=
  t_now <- datetime_now ;;
  let age := t_now - timestamp m in
  f <- lift (age_factor age) ;;
  ret (m, importance m * (1 + inject_Z (references m) / 10) * f).

Definition _curate_memories : M t unit :=
  lg <- get ;;
  scored_memories <- mapM score_memory (memories lg) ;;
  let sorted := Py.sorted_desc snd scored_memories in
  modify (set_memories (map fst (Py.slice_to (max_memories lg) sorted))).

Definition add_memory (c : string) (imp : Q) : M t unit :=
  memory <- new_memory c imp ;;
  modify (fun lg => set_memories (memories lg ++ [memory]) lg) ;;;
  lg <- get ;;
  if (max_memories lg <? Z.of_nat (length (memories lg)))%Z
  then _curate_memories
  else ret tt.

(** The three keys [get_relevant_memories] reads from its context, the two
    prices already rendered by [str] (a missing key renders as ["None"]). *)
Record Context : Type := mkContext {
  strike_price : string;
  spot_price : string;
  recent_success : bool
}.

Definition match_bonus (ctx : Context) (m : Memory) : Q :=
  (if Py.contains (strike_price ctx) (content m) then 3 # 10 else 0)
  + (if Py.contains (spot_price ctx) (content m) then 2 # 10 else 0)
  + (if recent_success ctx && Py.contains "success" (Py.lower (content m))
     then 2 # 10
     else if negb (recent_success ctx) && Py.contains "fail" (Py.lower (content m))
     then 2 # 10
     else 0).

(** One iteration of the retrieval loop: the memory as it is left in the
    store, and its entry in [relevant_memories] when it gets one. *)
Definition consider (ctx : Context) (m : Memory) : M t (Memory * option (Memory * Q)) :=
  u <- random ;;
  let relevance := match_bonus ctx m + u * (1 # 10) in
  if Py.Qltb 0 relevance
  then
    let m' := mkMemory (content m) (importance m) (timestamp m) (references m + 1) in
    ret (m', Some (m', relevance))
  else ret (m, None).

Definition get_relevant_memories (ctx : Context) (limit : Z) : M t (list Memory) :=
  lg <- get ;;
  visited <- mapM (consider ctx) (memories lg) ;;
  modify (set_memories (map fst visited)) ;;;
  let relevant_memories := omap snd visited in
  let sorted := Py.sorted_desc snd relevant_memories in
  ret (map fst (Py.slice_to limit sorted)).

End MemoryLogger.

(** ** Dictionaries in insertion order *)

Module OD.

(** A [dict] with [int] keys whose iteration order is observed: entries in
    the order their keys were first inserted. *)
Definition t (V : Type) : Type := list (Z * V).

Fixpoint get {V} (k : Z) (d : t V) : option V :=
  match d with
  | [] => None
  | (k', v) :: d' => if (k' =? k)%Z then Some v else get k d'
  end.

(** [d[k] = v]: overwrite in place, or append a new entry. *)
Fixpoint set {V} (k : Z) (v : V) (d : t V) : t V :=
  match d with
  | [] => [(k, v)]
  | (k', v') :: d' => if (k' =? k)%Z then (k', v) :: d' else (k', v') :: set k v d'
  end.

(** [d[k] *= x], a [KeyError] when [k] is absent. *)
Definition scale (k : Z) (x : Q) (d : t Q) : Res (t Q) :=
  match get k d with
  | Some v => Ok (set k (v * x) d)
  | None => Raise KeyError
  end.

(** [{k: f(k) for k in keys}]. *)
Definition of_keys {V} (f : Z -> V) (keys : list Z) : t V :=
  fold_left (fun d k => set k (f k) d) keys [].

End OD.

(** ** The game-state snapshot handed to the agents *)

(** The dictionary built by [GameEngine.get_game_state]; the last four keys
    are the ones the agents add with [game_state.update]. *)
Record GameState : Type := mkGameState {
  gs_spot_price : Q;
  gs_strikes : list Z;
  gs_tree_hits : gmap Z Z;
  gs_retail_juice : gmap Z Q;
  gs_mm_juice : gmap Z Q;
  gs_frame : Z;
  gs_current_slingshot : string;
  gs_option_type : string;
  gs_recent_success_rate : option Q;
  gs_crowd_size : option Q;
  gs_recent_loss_rate : option Q;
  gs_retail_clustering : option Q
}.

(** ** core/profiles/profile_loader.py *)

Module Profiles.

(** [traits] holds numbers and booleans; a boolean is the number it equals
    in Python ([True == 1], [False == 0]). *)
Record AgentProfile : Type := mkProfile {
  name : string;
  goal : string;
  traits : gmap string Q;
  strategies : list string;
  biases : gmap string Q;
  behavior_weights : gmap string Q
}.

Record ProfileManager : Type := mkManager {
  loaded_profiles : gmap string (gmap string AgentProfile);
  active_profiles : gmap string string
}.

Definition get_active_profile (pm : ProfileManager) (agent_type : string)
  : Res (option AgentProfile) :=
  match loaded_profiles pm !! agent_type with
  | None => Ok None
  | Some by_file =>
      match active_profiles pm !! agent_type with
      | None => Raise KeyError
      | Some active_filename => Ok (by_file !! active_filename)
      end
  end.

(** [weights[k] *= 1 + biases[b]]. *)
Definition boost (k b : string) (biases weights : gmap string Q)
  : Res (gmap string Q) :=
  match weights !! k with
  | None => Raise KeyError
  | Some v =>
      match biases !! b with
      | None => Raise KeyError
      | Some x => Ok (<[k := v * (1 + x)]> weights)
      end
  end.

Definition boost_if (c : bool) (k b : string) (biases weights : gmap string Q)
  : Res (gmap string Q) :=
  if c then boost k b biases weights else Ok weights.

Definition metric (m : option Q) : Q := default 0 m.

Definition is_empty {V} (d : gmap string V) : bool :=
  match map_to_list d with [] => true | _ => false end.

Definition apply_profile_to_agent (pm : ProfileManager) (agent_type : string)
    (game_state : GameState) : Res (gmap string Q) :=
  res_bind (get_active_profile pm agent_type) (fun profile =>
  match profile with
  | None => Ok ∅
  | Some profile =>
      let weights := behavior_weights profile in
      res_bind
        (if String.eqb agent_type "retail" then
           res_bind (boost_if (Py.Qltb (1 # 2) (metric (gs_recent_success_rate game_state)))
                       "spot_distance" "overconfidence" (biases profile) weights)
             (boost_if (Py.Qltb 3 (metric (gs_crowd_size game_state)))
                "crowd_following" "herd_mentality" (biases profile))
         else if String.eqb agent_type "monkey" then
           res_bind (boost_if (Py.Qltb (3 # 10) (metric (gs_recent_loss_rate game_state)))
                       "spot_distance" "loss_aversion" (biases profile) weights)
             (boost_if (Py.Qltb (1 # 2) (metric (gs_retail_clustering game_state)))
                "retail_clustering" "recency" (biases profile))
         else Ok weights)
        (fun weights =>
           let total := Py.sum (snd <$> map_to_list weights) in
           Ok (if Py.Qltb 0 total then (fun v => v / total) <$> weights else weights))
  end).

Definition switch_profile (pm : ProfileManager) (agent_type profile_name : string)
  : bool * ProfileManager :=
  match loaded_profiles pm !! agent_type with
  | None => (false, pm)
  | Some by_file =>
      match by_file !! profile_name with
      | None => (false, pm)
      | Some _ =>
          (true, mkManager (loaded_profiles pm)
                   (<[agent_type := profile_name]> (active_profiles pm)))
      end
  end.

End Profiles.

(** ** Helpers shared by the two agents *)

(** [weights[k]]. *)
Definition weight (weights : gmap string Q) (k : string) : Res Q :=
  match weights !! k with
  | Some v => Ok v
  | None => Raise KeyError
  end.

(** The scoring loop [for strike in strikes: strike_scores[strike] = ...]. *)
Fixpoint score_all (f : Z -> Res Q) (strikes : list Z) (acc : OD.t Q) : Res (OD.t Q) :=
  match strikes with
  | [] => Ok acc
  | s :: rest => res_bind (f s) (fun v => score_all f rest (OD.set s v acc))
  end.

(** [sum(1 for x in l[-5:] if x) / len(l[-5:])], or [0] on an empty list. *)
Definition recent_rate (l : list bool) : Q :=
  match l with
  | [] => 0
  | _ :: _ =>
      let recent := Py.last_n 5 l in
      inject_Z (Z.of_nat (length (filter (fun b => b = true) recent)))
      / inject_Z (Z.of_nat (length recent))
  end.

(** [l.append(x)], then [l = l[-10:]] once [l] is longer than ten. *)
Definition push_bounded {A} (x : A) (l : list A) : list A :=
  let l' := l ++ [x] in
  if (10 <? length l')%nat then Py.last_n 10 l' else l'.

(** ** core/retail_agent.py *)

Module RetailAgent.

Record t : Type := mkAgent {
  name : string;
  last_target : option Z;
  target_history : list Z;
  recent_hits : list bool;
  crowd_size : gmap Z Z
}.

Definition init : t := mkAgent "RetailAgent" None [] [] ∅.

Definition default_weights : gmap string Q :=
  {[ "spot_distance" := 3 # 10; "success_history" := 2 # 10;
     "mm_defense" := 3 # 10; "crowd_following" := 2 # 10 ]}.

(** The crowd-size loop of [_update_game_state_metrics]. *)
Definition crowd_at (game_state : GameState) (strike : Z) : Z :=
  let hits := default 0%Z (gs_tree_hits game_state !! strike) in
  let retail_juice := default 0 (gs_retail_juice game_state !! strike) in
  Py.int ((inject_Z hits + retail_juice * 10) / 2).

Definition update_crowd (game_state : GameState) (crowd : gmap Z Z) : gmap Z Z :=
  fold_left (fun c strike => <[strike := crowd_at game_state strike]> c)
            (gs_strikes game_state) crowd.

(** [max(d.values()) if d else 0]. *)
Definition max_crowd (crowd : gmap Z Z) : Z :=
  match snd <$> map_to_list crowd with
  | [] => 0%Z
  | v :: vs => fold_left Z.max vs v
  end.

Definition with_metrics (game_state : GameState) (rate crowd : Q) : GameState :=
  mkGameState (gs_spot_price game_state) (gs_strikes game_state)
    (gs_tree_hits game_state) (gs_retail_juice game_state) (gs_mm_juice game_state)
    (gs_frame game_state) (gs_current_slingshot game_state) (gs_option_type game_state)
    (Some rate) (Some crowd)
    (gs_recent_loss_rate game_state) (gs_retail_clustering game_state).

Definition _update_game_state_metrics (game_state : GameState) : M t GameState :=
  a <- get ;;
  let recent_success_rate := recent_rate (recent_hits a) in
  let crowd := update_crowd game_state (crowd_size a) in
  put (mkAgent (name a) (last_target a) (target_history a) (recent_hits a) crowd) ;;;
  ret (with_metrics game_state recent_success_rate (inject_Z (max_crowd crowd))).

Definition crowd_of (a : t) (strike : Z) : Z := default 0%Z (crowd_size a !! strike).

(** The body of the scoring loop for one strike. *)
Definition strike_score (a : t) (weights : gmap string Q) (game_state : GameState)
    (strike : Z) : Res Q :=
  let distance := Qabs (inject_Z strike - gs_spot_price game_state) in
  let distance_score := 1 / (1 + distance / 5) in
  res_bind (weight weights "spot_distance") (fun w_distance =>
  let history_score :=
    if existsb (Z.eqb strike) (Py.last_n 5 (target_history a)) then 1 else 0 in
  res_bind (weight weights "success_history") (fun w_history =>
  let mm_score := 1 - default 0 (gs_mm_juice game_state !! strike) in
  res_bind (weight weights "mm_defense") (fun w_mm =>
  let crowd_score := Py.min2 1 (inject_Z (crowd_of a strike) / 5) in
  res_bind (weight weights "crowd_following") (fun w_crowd =>
  Ok (0 + distance_score * w_distance + history_score * w_history
      + mm_score * w_mm + crowd_score * w_crowd))))).

(** The FOMO boost: only with a profile, and only when the draw falls under
    the profile's threshold. *)
Definition fomo (pm : Profiles.ProfileManager) (strikes : list Z)
    (strike_scores : OD.t Q) : M t (OD.t Q) :=
  profile <- lift (Profiles.get_active_profile pm "retail") ;;
  match profile with
  | None => ret strike_scores
  | Some profile =>
      u <- random ;;
      if Py.Qltb u (default 0 (Profiles.traits profile !! "fomo_threshold"))
      then
        a <- get ;;
        max_crowd_strike <- lift (Py.max_by (fun s => inject_Z (crowd_of a s)) strikes) ;;
        lift (OD.scale max_crowd_strike (3 # 2) strike_scores)
      else ret strike_scores
  end.

Definition select_target (pm : Profiles.ProfileManager) (game_state : GameState)
  : M t (Z * Q) :=
  game_state <- _update_game_state_metrics game_state ;;
  weights <- lift (Profiles.apply_profile_to_agent pm "retail" game_state) ;;
  let weights := if Profiles.is_empty weights then default_weights else weights in
  let spot_price := gs_spot_price game_state in
  let strikes := gs_strikes game_state in
  a <- get ;;
  strike_scores <- lift (score_all (strike_score a weights game_state) strikes []) ;;
  choice <-
    match strike_scores with
    | _ :: _ =>
        strike_scores <- fomo pm strikes strike_scores ;;
        best <- lift (Py.max_by snd strike_scores) ;;
        let target := fst best in
        match OD.get target strike_scores with
        | Some confidence => ret (target, confidence)
        | None => raise KeyError
        end
    | [] =>
        target <- Py.choice strikes ;;
        ret (target, 1 # 2)
    end ;;
  let target := fst choice in
  let confidence := snd choice in
  modify (fun a => mkAgent (name a) (Some target)
                     (push_bounded target (target_history a))
                     (recent_hits a) (crowd_size a)) ;;;
  ret (target, Py.min2 confidence 1).

Definition record_hit (hit : bool) : M t unit :=
  modify (fun a => mkAgent (name a) (last_target a) (target_history a)
                     (push_bounded hit (recent_hits a)) (crowd_size a)).

End RetailAgent.

(** ** core/monkey_agent.py *)

Module MonkeyAgent.

Record t : Type := mkAgent {
  name : string;
  defense_history : list Z;
  last_defense : option Z;
  recent_losses : list bool;       (* True = loss, False = successful defense *)
  retail_clusters : OD.t Q
}.

Definition init : t := mkAgent "MonkeyAgent" [] None [] [].

Definition default_weights : gmap string Q :=
  {[ "spot_distance" := 3 # 10; "hit_history" := 2 # 10;
     "juice_collection" := 3 # 10; "retail_clustering" := 2 # 10 ]}.

Definition total_hits (game_state : GameState) : Z :=
  fold_left Z.add (snd <$> map_to_list (gs_tree_hits game_state)) 0%Z.

Definition total_juice (game_state : GameState) : Q :=
  Py.sum (snd <$> map_to_list (gs_retail_juice game_state)).

(** The clustering of one strike, [max(0.01, (hits_ratio + juice_ratio) / 2)]. *)
Definition cluster_at (game_state : GameState) (strike : Z) : Res Q :=
  res_bind (Py.div (inject_Z (default 0%Z (gs_tree_hits game_state !! strike)))
                   (inject_Z (total_hits game_state + 1))) (fun hits_ratio =>
  res_bind (Py.div (default 0 (gs_retail_juice game_state !! strike))
                   (total_juice game_state + 1)) (fun juice_ratio =>
  Ok (Py.max2 (1 # 100) ((hits_ratio + juice_ratio) / 2)))).

Definition clusters (game_state : GameState) : Res (OD.t Q) :=
  let initial := OD.of_keys (fun _ => 1 # 100) (gs_strikes game_state) in
  if (0 <? total_hits game_state)%Z || Py.Qltb 0 (total_juice game_state)
  then score_all (cluster_at game_state) (gs_strikes game_state) initial
  else Ok initial.

Definition with_metrics (game_state : GameState) (rate clustering : Q) : GameState :=
  mkGameState (gs_spot_price game_state) (gs_strikes game_state)
    (gs_tree_hits game_state) (gs_retail_juice game_state) (gs_mm_juice game_state)
    (gs_frame game_state) (gs_current_slingshot game_state) (gs_option_type game_state)
    (gs_recent_success_rate game_state) (gs_crowd_size game_state)
    (Some rate) (Some clustering).

Definition _update_game_state_metrics (game_state : GameState) : M t GameState :=
  a <- get ;;
  let recent_loss_rate := recent_rate (recent_losses a) in
  retail_clusters <- lift (clusters game_state) ;;
  put (mkAgent (name a) (defense_history a) (last_defense a) (recent_losses a)
         retail_clusters) ;;;
  top <- lift (Py.max_by id (map snd retail_clusters)) ;;
  ret (with_metrics game_state recent_loss_rate top).

Definition strike_score (a : t) (weights : gmap string Q) (game_state : GameState)
    (strike : Z) : Res Q :=
  let distance := Qabs (inject_Z strike - gs_spot_price game_state) in
  let distance_score := 1 / (1 + distance / 5) in
  res_bind (weight weights "spot_distance") (fun w_distance =>
  let hits := default 0%Z (gs_tree_hits game_state !! strike) in
  let hit_score := Py.min2 1 (inject_Z hits / 10) in
  res_bind (weight weights "hit_history") (fun w_hits =>
  let retail_juice := default 0 (gs_retail_juice game_state !! strike) in
  let juice_score := Py.min2 1 retail_juice in
  res_bind (weight weights "juice_collection") (fun w_juice =>
  let cluster_score := default (1 # 100) (OD.get strike (retail_clusters a)) in
  res_bind (weight weights "retail_clustering") (fun w_cluster =>
  Ok (0 + distance_score * w_distance + hit_score * w_hits
      + juice_score * w_juice + cluster_score * w_cluster))))).

(** [for strike in strikes: if strike in recent: strike_scores[strike] *= 1.2]. *)
Fixpoint boost_recent (recent strikes : list Z) (strike_scores : OD.t Q)
  : Res (OD.t Q) :=
  match strikes with
  | [] => Ok strike_scores
  | s :: rest =>
      if existsb (Z.eqb s) recent
      then res_bind (OD.scale s (12 # 10) strike_scores) (boost_recent recent rest)
      else boost_recent recent rest strike_scores
  end.

(** The two modifiers applied when a profile is active. *)
Definition apply_modifiers (a : t) (profile : Profiles.AgentProfile)
    (game_state : GameState) (strike_scores : OD.t Q) : Res (OD.t Q) :=
  res_bind
    (if Py.Qltb (default 0 (Profiles.traits profile !! "risk_aversion"))
               (Profiles.metric (gs_recent_loss_rate game_state))
     then boost_recent (Py.last_n 3 (defense_history a)) (gs_strikes game_state)
            strike_scores
     else Ok strike_scores)
    (fun strike_scores =>
       if Qeq_bool (default 0 (Profiles.traits profile !! "reflexivity_awareness")) 0
       then Ok strike_scores
       else
         res_bind (Py.max_by snd (retail_clusters a)) (fun max_cluster =>
         OD.scale (fst max_cluster) (13 # 10) strike_scores)).

Definition predict_targets (pm : Profiles.ProfileManager) (game_state : GameState)
  : M t (list (Z * Q)) :=
  game_state <- _update_game_state_metrics game_state ;;
  weights <- lift (Profiles.apply_profile_to_agent pm "monkey" game_state) ;;
  let weights := if Profiles.is_empty weights then default_weights else weights in
  let spot_price := gs_spot_price game_state in
  let strikes := gs_strikes game_state in
  a <- get ;;
  strike_scores <- lift (score_all (strike_score a weights game_state) strikes []) ;;
  profile <- lift (Profiles.get_active_profile pm "monkey") ;;
  strike_scores <-
    match profile with
    | Some profile => lift (apply_modifiers a profile game_state strike_scores)
    | None => ret strike_scores
    end ;;
  let sorted_strikes := Py.sorted_desc snd strike_scores in
  let top := Py.slice_to 3 sorted_strikes in
  let total_score := Py.sum (map snd top) in
  let predictions :=
    if Py.Qltb 0 total_score
    then map (fun e => (fst e, snd e / total_score)) top
    else
      let nearby_strikes :=
        Py.slice_to 3 (Py.sorted_asc (fun s => Qabs (inject_Z s - spot_price)) strikes) in
      map (fun s => (s, 1 / 3)) nearby_strikes in
  match predictions with
  | [] => raise IndexError
  | first :: _ =>
      modify (fun a => mkAgent (name a) (push_bounded (fst first) (defense_history a))
                         (Some (fst first)) (recent_losses a) (retail_clusters a)) ;;;
      ret predictions
  end.

Definition record_defense_result (success : bool) : M t unit :=
  modify (fun a => mkAgent (name a) (defense_history a) (last_defense a)
                     (push_bounded (negb success) (recent_losses a))
                     (retail_clusters a)).

End MonkeyAgent.

(** ** core/engine.py: equipment, configuration, coconuts *)

(** A slingshot of the catalog; [color], [size] and [strike_bias] are read
    by the renderer and the market loader only. *)
Record Slingshot : Type := mkSlingshot {
  sl_name : string;
  power : Q;
  accuracy : Q;
  dte : Z;
  option_type : string
}.

(** [GameConfig] after [__post_init__], which always fills the gamma
    profile in. *)
Record GameConfig : Type := mkConfig {
  WIDTH : Z;
  HEIGHT : Z;
  SPOT_PRICE : Q;
  STRIKES : list Z;
  GAMMA_STRENGTH : gmap Z Q;
  IMPLIED_VOL : Q;
  TRIALS : Z;
  SLINGSHOTS : gmap string Slingshot;
  DEFAULT_SLINGSHOT : string
}.

Module Coconut.

Record t : Type := mkCoconut {
  strike : Z;
  x : Q;
  y : Q;
  target_x : Q;
  target_y : Q;
  slingshot : Slingshot;
  t_ : Q;                       (* the field [t] *)
  speed : Q;
  hit : bool;
  retail_juice : Q;
  mm_juice : Q;
  source_agent : string;
  alive : bool;
  frames_remaining : Z;
  c_option_type : string
}.

(** The constructor as [launch_coconut] calls it, with [__post_init__]. *)
Definition new (strike : Z) (x y target_x target_y speed : Q) (hit : bool)
    (retail_juice mm_juice : Q) (source_agent : string) (slingshot : Slingshot) : t :=
  mkCoconut strike x y target_x target_y slingshot 0 speed hit retail_juice
    mm_juice source_agent true (dte slingshot * 60) (option_type slingshot).

Definition set_dead (c : t) (frames : Z) (t' : Q) : t :=
  mkCoconut (strike c) (x c) (y c) (target_x c) (target_y c) (slingshot c) t'
    (speed c) (hit c) (retail_juice c) (mm_juice c) (source_agent c) false
    frames (c_option_type c).

Definition set_flight (c : t) (frames : Z) (t' x' y' : Q) : t :=
  mkCoconut (strike c) x' y' (target_x c) (target_y c) (slingshot c) t'
    (speed c) (hit c) (retail_juice c) (mm_juice c) (source_agent c) (alive c)
    frames (c_option_type c).

Definition update : M t unit :=
  c <- get ;;
  let frames := (frames_remaining c - 1)%Z in
  if (frames <=? 0)%Z then put (set_dead c frames (t_ c))
  else
    let t' := t_ c + speed c * power (slingshot c) in
    if Qle_bool 1 t' then put (set_dead c frames t')
    else
      accuracy_factor <- Py.uniform (1 - (1 - accuracy (slingshot c)))
                                     (1 + (1 - accuracy (slingshot c))) ;;
      let base_x := (1 - t') * x c + t' * target_x c in
      let base_y := (1 - t') * y c + t' * target_y c in
      let arc_height := 100 * power (slingshot c) in
      let arc_offset := arc_height * t' * (1 - t') in
      put (set_flight c frames t' (base_x * accuracy_factor) (base_y - arc_offset)).

End Coconut.

(** ** The juice split, in any arithmetic *)

Section JuiceSplit.
Variable num : Type.
Variables (zero one seven_tenths : num).
Variable sub : num -> num -> num.

(** [mm_juice = 0.7 if hit else 0; retail_juice = 1 - mm_juice if hit else 0],
    returned as [(retail_juice, mm_juice)]. *)
Definition juice_split (hit : bool) : num * num :=
  let mm_juice := if hit then seven_tenths else zero in
  let retail_juice := if hit then sub one mm_juice else zero in
  (retail_juice, mm_juice).
End JuiceSplit.

(** The split over exact rationals, as the engine model uses it. *)
Definition juice_split_Q : bool -> Q * Q := juice_split Q 0 1 (7 # 10) Qminus.

(** The split over IEEE binary64, as CPython evaluates it.  A decimal
    literal denotes the double nearest to it, which is what the correctly
    rounded quotient of the two integers returns. *)
Module Binary64.
Import PrimInt63 PrimFloat SpecFloat FloatOps.

Definition lit (n d : int) : float := div (of_uint63 n) (of_uint63 d).

Definition seven_tenths : float := lit 7%uint63 10%uint63.
Definition three_tenths : float := lit 3%uint63 10%uint63.

Definition juice_split : bool -> float * float :=
  juice_split float zero one seven_tenths sub.

(** [float(z)] for an [int] [z]: the double nearest to it, a tie going to
    the even one; [inf] stands for a result out of range. *)
Definition of_Z (z : Z) : float := SF2Prim (binary_normalize prec emax z 0 false).

(** The double nearest to the quotient of two integers, the divisor not 0,
    a tie going to the even one; [0 / b] has the sign of [b]. *)
Definition quotient (a b : Z) : float :=
  match a with
  | Z0 => if (b <? 0)%Z then neg_zero else zero
  | _ =>
      let '(q, e, l) := SFdiv_core_binary prec emax (Z.abs a) 0 (Z.abs b) 0 in
      SF2Prim (binary_round_aux prec emax (xorb (a <? 0)%Z (b <? 0)%Z) q e l)
  end.

(** The double nearest to a rational, as [timedelta.total_seconds()]
    returns it for a difference of that many seconds. *)
Definition of_Q (q : Q) : float :=
  let r := Qred q in quotient (Qnum r) (Zpos (Qden r)).

(** An [int] that meets a [float] in an operation is converted, and
    [a / b] on two [int]s is their quotient; out of range both raise. *)
Definition in_range (f : float) : Res float :=
  if is_infinity f then Raise OverflowError else Ok f.

Definition int_to_float (z : Z) : Res float := in_range (of_Z z).

Definition int_truediv (a b : Z) : Res float :=
  if (b =? 0)%Z then Raise ZeroDivisionError else in_range (quotient a b).

(** [x / y] on floats raises on a zero divisor. *)
Definition truediv (x y : float) : Res float :=
  if is_zero y then Raise ZeroDivisionError else Ok (x / y)%float.

(** [max(a, b)] keeps its first argument unless the second is greater;
    [min(a, b)] keeps it unless the second is smaller. *)
Definition max2 (a b : float) : float := if (a <? b)%float then b else a.
Definition min2 (a b : float) : float := if (b <? a)%float then b else a.

(** A [float] compared with an [int]: Python compares the two numbers
    exactly, without converting the [int]. *)
Definition compare_int (x : float) (z : Z) : option comparison :=
  match Prim2SF x with
  | S754_nan => None
  | S754_infinity s => Some (if s then Lt else Gt)
  | S754_zero _ => Some (0 ?= z)%Z
  | S754_finite s m e =>
      let n := if s then Zneg m else Zpos m in
      Some (if (0 <=? e)%Z then (n * 2 ^ e ?= z)%Z else (n ?= z * 2 ^ (- e))%Z)
  end.

Definition gt_int (x : float) (z : Z) : bool :=
  match compare_int x z with Some Gt => true | _ => false end.

Definition lt_int (x : float) (z : Z) : bool :=
  match compare_int x z with Some Lt => true | _ => false end.

(** [sorted(l, key=f, reverse=True)] for keys that are not NaN: stable,
    elements whose keys are equal keep their input order. *)
Fixpoint insert_desc {A} (key : A -> float) (x : A) (l : list A) : list A :=
  match l with
  | [] => [x]
  | y :: l' => if (key x <? key y)%float then y :: insert_desc key x l'
               else x :: y :: l'
  end.

Fixpoint sorted_desc {A} (key : A -> float) (l : list A) : list A :=
  match l with
  | [] => []
  | x :: l' => insert_desc key x (sorted_desc key l')
  end.

(** The doubles that are not NaN, in their order: triples of integers,
    compared lexicographically. *)
Definition rank (x : spec_float) : Z * Z * Z :=
  match x with
  | S754_nan => (0, 0, 0)%Z
  | S754_zero _ => (0, 0, 0)%Z
  | S754_infinity true => (-2, 0, 0)%Z
  | S754_infinity false => (2, 0, 0)%Z
  | S754_finite true m e => (-1, - e, Zneg m)%Z
  | S754_finite false m e => (1, e, Zpos m)%Z
  end.

Definition lex_lt (a b : Z * Z * Z) : Prop :=
  (fst (fst a) < fst (fst b) \/
   (fst (fst a) = fst (fst b) /\
    (snd (fst a) < snd (fst b) \/
     (snd (fst a) = snd (fst b) /\ snd a < snd b))))%Z.

End Binary64.

(** ** core/engine.py: the engine *)

Module GameEngine.

Record t : Type := mkEngine {
  config : GameConfig;
  retail_agent : RetailAgent.t;
  monkey_agent : MonkeyAgent.t;
  retail_memory : MemoryLogger.t;
  monkey_memory : MemoryLogger.t;
  valid_strikes : list Z;
  tree_hits : gmap Z Z;
  retail_juice : gmap Z Q;
  mm_juice : gmap Z Q;
  coconuts : list Coconut.t;
  frame : Z;
  paused : bool;
  ai_retail : bool;               (* ai_enabled["retail"] *)
  ai_monkey : bool;               (* ai_enabled["monkey"] *)
  TREE_X : gmap Z Q;
  TREE_Y : Z;
  retail_profiles : list string;
  monkey_profiles : list string;
  current_slingshot : Slingshot;
  profile_manager : Profiles.ProfileManager   (* the module-level singleton *)
}.

(** Field updates. *)
Definition set_retail_agent (a : RetailAgent.t) (e : t) : t :=
  mkEngine (config e) a (monkey_agent e) (retail_memory e) (monkey_memory e)
    (valid_strikes e) (tree_hits e) (retail_juice e) (mm_juice e) (coconuts e)
    (frame e) (paused e) (ai_retail e) (ai_monkey e) (TREE_X e) (TREE_Y e)
    (retail_profiles e) (monkey_profiles e) (current_slingshot e) (profile_manager e).

Definition set_monkey_agent (a : MonkeyAgent.t) (e : t) : t :=
  mkEngine (config e) (retail_agent e) a (retail_memory e) (monkey_memory e)
    (valid_strikes e) (tree_hits e) (retail_juice e) (mm_juice e) (coconuts e)
    (frame e) (paused e) (ai_retail e) (ai_monkey e) (TREE_X e) (TREE_Y e)
    (retail_profiles e) (monkey_profiles e) (current_slingshot e) (profile_manager e).

Definition set_retail_memory (m : MemoryLogger.t) (e : t) : t :=
  mkEngine (config e) (retail_agent e) (monkey_agent e) m (monkey_memory e)
    (valid_strikes e) (tree_hits e) (retail_juice e) (mm_juice e) (coconuts e)
    (frame e) (paused e) (ai_retail e) (ai_monkey e) (TREE_X e) (TREE_Y e)
    (retail_profiles e) (monkey_profiles e) (current_slingshot e) (profile_manager e).

Definition set_monkey_memory (m : MemoryLogger.t) (e : t) : t :=
  mkEngine (config e) (retail_agent e) (monkey_agent e) (retail_memory e) m
    (valid_strikes e) (tree_hits e) (retail_juice e) (mm_juice e) (coconuts e)
    (frame e) (paused e) (ai_retail e) (ai_monkey e) (TREE_X e) (TREE_Y e)
    (retail_profiles e) (monkey_profiles e) (current_slingshot e) (profile_manager e).

Definition set_stats (hits : gmap Z Z) (retail mm : gmap Z Q) (e : t) : t :=
  mkEngine (config e) (retail_agent e) (monkey_agent e) (retail_memory e)
    (monkey_memory e) (valid_strikes e) hits retail mm (coconuts e)
    (frame e) (paused e) (ai_retail e) (ai_monkey e) (TREE_X e) (TREE_Y e)
    (retail_profiles e) (monkey_profiles e) (current_slingshot e) (profile_manager e).

Definition set_coconuts (cs : list Coconut.t) (e : t) : t :=
  mkEngine (config e) (retail_agent e) (monkey_agent e) (retail_memory e)
    (monkey_memory e) (valid_strikes e) (tree_hits e) (retail_juice e) (mm_juice e)
    cs (frame e) (paused e) (ai_retail e) (ai_monkey e) (TREE_X e) (TREE_Y e)
    (retail_profiles e) (monkey_profiles e) (current_slingshot e) (profile_manager e).

Definition set_frame (f : Z) (e : t) : t :=
  mkEngine (config e) (retail_agent e) (monkey_agent e) (retail_memory e)
    (monkey_memory e) (valid_strikes e) (tree_hits e) (retail_juice e) (mm_juice e)
    (coconuts e) f (paused e) (ai_retail e) (ai_monkey e) (TREE_X e) (TREE_Y e)
    (retail_profiles e) (monkey_profiles e) (current_slingshot e) (profile_manager e).

Definition set_flags (p r m : bool) (e : t) : t :=
  mkEngine (config e) (retail_agent e) (monkey_agent e) (retail_memory e)
    (monkey_memory e) (valid_strikes e) (tree_hits e) (retail_juice e) (mm_juice e)
    (coconuts e) (frame e) p r m (TREE_X e) (TREE_Y e)
    (retail_profiles e) (monkey_profiles e) (current_slingshot e) (profile_manager e).

Definition set_current_slingshot (s : Slingshot) (e : t) : t :=
  mkEngine (config e) (retail_agent e) (monkey_agent e) (retail_memory e)
    (monkey_memory e) (valid_strikes e) (tree_hits e) (retail_juice e) (mm_juice e)
    (coconuts e) (frame e) (paused e) (ai_retail e) (ai_monkey e) (TREE_X e) (TREE_Y e)
    (retail_profiles e) (monkey_profiles e) s (profile_manager e).

Definition set_profile_manager (pm : Profiles.ProfileManager) (e : t) : t :=
  mkEngine (config e) (retail_agent e) (monkey_agent e) (retail_memory e)
    (monkey_memory e) (valid_strikes e) (tree_hits e) (retail_juice e) (mm_juice e)
    (coconuts e) (frame e) (paused e) (ai_retail e) (ai_monkey e) (TREE_X e) (TREE_Y e)
    (retail_profiles e) (monkey_profiles e) (current_slingshot e) pm.

Definition set_config (c : GameConfig) (e : t) : t :=
  mkEngine c (retail_agent e) (monkey_agent e) (retail_memory e)
    (monkey_memory e) (valid_strikes e) (tree_hits e) (retail_juice e) (mm_juice e)
    (coconuts e) (frame e) (paused e) (ai_retail e) (ai_monkey e) (TREE_X e) (TREE_Y e)
    (retail_profiles e) (monkey_profiles e) (current_slingshot e) (profile_manager e).

(** [{s: v for s in strikes}] and [{strike: start_x + i * spacing ...}]. *)
Definition const_map {V} (v : V) (strikes : list Z) : gmap Z V :=
  fold_left (fun m s => <[s := v]> m) strikes ∅.

Fixpoint tree_positions (start_x spacing : Q) (i : Z) (strikes : list Z)
    (acc : gmap Z Q) : gmap Z Q :=
  match strikes with
  | [] => acc
  | s :: rest =>
      tree_positions start_x spacing (i + 1) rest
        (<[s := start_x + inject_Z i * spacing]> acc)
  end.

(** [GameEngine.__init__]; the two memory lists are what the loggers load
    from their files.  An empty strike list and an unknown default
    slingshot raise. *)
Definition init (config : GameConfig) (pm : Profiles.ProfileManager)
    (retail_loaded monkey_loaded : list MemoryLogger.Memory) : Res t :=
  let valid_strikes := Py.sorted_asc inject_Z (STRIKES config) in
  match valid_strikes with
  | [] => Raise ValueError
  | _ :: _ =>
      let spacing :=
        Py.min2 30 (inject_Z (WIDTH config - 100)
                    / inject_Z (Z.of_nat (length valid_strikes) + 1)) in
      match SLINGSHOTS config !! DEFAULT_SLINGSHOT config with
      | None => Raise KeyError
      | Some sling =>
          Ok (mkEngine config RetailAgent.init MonkeyAgent.init
                (MemoryLogger.mkLogger "retail" 100 retail_loaded)
                (MemoryLogger.mkLogger "monkey" 100 monkey_loaded)
                valid_strikes
                (const_map 0%Z valid_strikes)
                (const_map 0 valid_strikes)
                (const_map 0 valid_strikes)
                [] 0%Z false true true
                (tree_positions 50 spacing 0 valid_strikes ∅)
                (HEIGHT config - 120)
                (map fst (map_to_list
                   (default ∅ (Profiles.loaded_profiles pm !! "retail"))))
                (map fst (map_to_list
                   (default ∅ (Profiles.loaded_profiles pm !! "monkey"))))
                sling pm)
      end
  end.

(** [_get_valid_strike]: the strike itself when the universe holds it (the
    entry it equals, as [628.0 == 628]), else the first nearest entry. *)
Definition _get_valid_strike (valid_strikes : list Z) (strike : Q) : Res Z :=
  match find (fun v => Qeq_bool (inject_Z v) strike) valid_strikes with
  | Some v => Ok v
  | None => Py.min_by (fun v => Qabs (inject_Z v - strike)) valid_strikes
  end.

Definition _get_tree_position (strike : Z) : M t (Q * Z) :=
  e <- get ;;
  strike <- lift (_get_valid_strike (valid_strikes e) (inject_Z strike)) ;;
  match TREE_X e !! strike with
  | Some tx => ret (tx, TREE_Y e)
  | None => raise KeyError
  end.

(** [d[k] += v] on the aggregate maps. *)
Definition bump {V} (add : V -> V) (k : Z) (d : gmap Z V) : Res (gmap Z V) :=
  match d !! k with
  | Some v => Ok (<[k := add v]> d)
  | None => Raise KeyError
  end.

Definition _update_game_state (strike : Z) (hit : bool) (retail mm : Q) : M t unit :=
  e <- get ;;
  valid_strike <- lift (_get_valid_strike (valid_strikes e) (inject_Z strike)) ;;
  if hit then
    hits <- lift (bump (fun n => (n + 1)%Z) valid_strike (tree_hits e)) ;;
    rj <- lift (bump (fun v => v + retail) valid_strike (retail_juice e)) ;;
    mj <- lift (bump (fun v => v + mm) valid_strike (mm_juice e)) ;;
    put (set_stats hits rj mj e)
  else ret tt.

Definition get_game_state (e : t) : GameState :=
  mkGameState (SPOT_PRICE (config e)) (valid_strikes e) (tree_hits e)
    (retail_juice e) (mm_juice e) (frame e) (sl_name (current_slingshot e))
    (option_type (current_slingshot e)) None None None None.


Section Tick.

(** [str(x)] of a [float], which only shapes the text of a memory. *)
Variable str_float : Q -> string.

(** [market_data.get_slingshot_targets(name, spot)]: the strike and the
    attractiveness of each target, most attractive first.  The loader
    derives them from price and option files outside the repository. *)
Variable get_slingshot_targets : string -> Q -> list (Z * Q).

(** Run the method of a coconut of the live list on the shared streams. *)
Definition on_coconut (c : Coconut.t) (m : M Coconut.t unit) : M t Coconut.t :=
  fun w => match m (mkWorld (rng w) (now w) c) with
           | Ok (_, wc) => Ok (obj wc, mkWorld (rng wc) (now wc) (obj w))
           | Raise err => Raise err
           end.

(** The monkey's part of [simulate_slingshot_hit]: the base chance after
    the defense, with the defense result recorded and remembered. *)
Definition monkey_defense (strike_price : Z) (base_hit_chance : Q) : M t Q :=
  e <- get ;;
  if ai_monkey e then
    predictions <- zoom monkey_agent set_monkey_agent
                     (MonkeyAgent.predict_targets (profile_manager e) (get_game_state e)) ;;
    let defense_strikes := map fst predictions in
    if existsb (Z.eqb strike_price) defense_strikes then
      let base_hit_chance := base_hit_chance * (1 # 2) in
      u <- random ;;
      let defense_success := Py.Qltb base_hit_chance u in
      zoom monkey_agent set_monkey_agent
        (MonkeyAgent.record_defense_result defense_success) ;;;
      zoom monkey_memory set_monkey_memory
        (if defense_success
         then MemoryLogger.add_memory
                ("Successfully defended " ++ option_type (current_slingshot e)
                 ++ " strike " ++ Py.str_int strike_price) (8 # 10)
         else MemoryLogger.add_memory
                ("Failed to defend " ++ option_type (current_slingshot e)
                 ++ " strike " ++ Py.str_int strike_price) (6 # 10)) ;;;
      ret base_hit_chance
    else ret base_hit_chance
  else ret base_hit_chance.

(** The modifiers and the clamp of [simulate_slingshot_hit]. *)
Definition final_hit_chance (cfg : GameConfig) (sling : Slingshot)
    (spot_price : Q) (strike_price : Z) (gamma base_hit_chance : Q) : Q :=
  let wind_penalty := IMPLIED_VOL cfg / 100 in
  let gamma_penalty := gamma / 10 in
  let decay_penalty := Py.max2 (1 # 10) (inject_Z (dte sling) / 30) in
  let accuracy_bonus := accuracy sling * (2 # 10) in
  let power_factor := power sling * (1 # 10) in
  let option_mod :=
    if String.eqb (option_type sling) "call"
    then (if Py.Qltb (inject_Z strike_price) spot_price then 11 # 10 else 9 # 10)
    else (if Py.Qltb spot_price (inject_Z strike_price) then 11 # 10 else 9 # 10) in
  let final_hit_chance :=
    base_hit_chance * (1 - wind_penalty) * (1 - gamma_penalty) * (1 / decay_penalty)
    * (1 + accuracy_bonus) * (1 + power_factor) * option_mod in
  Py.max2 0 (Py.min2 final_hit_chance 1).

Definition simulate_slingshot_hit (spot_price : Q) (strike_price : Z)
  : M t (bool * Q * Q) :=
  e <- get ;;
  strike_price <-
    (if existsb (Z.eqb strike_price) (valid_strikes e) then ret strike_price
     else lift (_get_valid_strike (valid_strikes e) (inject_Z strike_price))) ;;
  let delta_distance := Qabs (spot_price - inject_Z strike_price) in
  let base_hit_chance := 1 / (1 + delta_distance) in
  base_hit_chance <- monkey_defense strike_price base_hit_chance ;;
  e <- get ;;
  gamma <- lift (match GAMMA_STRENGTH (config e) !! strike_price with
                 | Some g => Ok g
                 | None => Raise KeyError
                 end) ;;
  let final_hit_chance :=
    final_hit_chance (config e) (current_slingshot e) spot_price strike_price
      gamma base_hit_chance in
  u <- random ;;
  let hit := Py.Qltb u final_hit_chance in
  let retail_juice := fst (juice_split_Q hit) in
  let mm_juice := snd (juice_split_Q hit) in
  zoom retail_agent set_retail_agent (RetailAgent.record_hit hit) ;;;
  zoom retail_memory set_retail_memory
    (if hit
     then MemoryLogger.add_memory
            ("Hit " ++ option_type (current_slingshot e) ++ " strike "
             ++ Py.str_int strike_price ++ " at spot " ++ str_float spot_price) (7 # 10)
     else MemoryLogger.add_memory
            ("Missed " ++ option_type (current_slingshot e) ++ " strike "
             ++ Py.str_int strike_price) (5 # 10)) ;;;
  ret (hit, retail_juice, mm_juice).

(** The target of a launch.  Every source yields a number, so the test
    [target is None] of the source never fires. *)
Definition choose_target : M t Z :=
  e <- get ;;
  if ai_retail e then
    match get_slingshot_targets (sl_name (current_slingshot e)) (SPOT_PRICE (config e)) with
    | target_data :: _ => ret (fst target_data)
    | [] =>
        selected <- zoom retail_agent set_retail_agent
                      (RetailAgent.select_target (profile_manager e) (get_game_state e)) ;;
        lift (_get_valid_strike (valid_strikes e) (inject_Z (fst selected)))
    end
  else Py.choice (valid_strikes e).

Definition launch_coconut : M t (option Coconut.t) :=
  e <- get ;;
  if (TRIALS (config e) <=? frame e)%Z then ret None
  else
    target <- choose_target ;;
    outcome <- simulate_slingshot_hit (SPOT_PRICE (config e)) target ;;
    tree <- _get_tree_position target ;;
    speed <- Py.uniform (1 # 100) (3 # 100) ;;
    e <- get ;;
    ret (Some (Coconut.new target (inject_Z (WIDTH (config e) / 2)) 0
                 (fst tree + 10) (inject_Z (snd tree)) speed
                 (fst (fst outcome)) (snd (fst outcome)) (snd outcome)
                 (if ai_retail e then "retail" else "random")
                 (current_slingshot e))).

Definition switch_slingshot (slingshot_name : string) : M t bool :=
  e <- get ;;
  match SLINGSHOTS (config e) !! slingshot_name with
  | Some sling => put (set_current_slingshot sling e) ;;; ret true
  | None => ret false
  end.

(** The loop over [self.coconuts[:]]: every coconut is advanced in list
    order; a dead one is folded into the aggregates and leaves the list. *)
Fixpoint advance_all (cs : list Coconut.t) : M t (list Coconut.t) :=
  match cs with
  | [] => ret []
  | c :: rest =>
      c' <- on_coconut c Coconut.update ;;
      if Coconut.alive c' then
        rest' <- advance_all rest ;; ret (c' :: rest')
      else
        _update_game_state (Coconut.strike c') (Coconut.hit c')
          (Coconut.retail_juice c') (Coconut.mm_juice c') ;;;
        advance_all rest
  end.

Definition update : M t unit :=
  e <- get ;;
  if paused e then ret tt
  else
    coconut <- launch_coconut ;;
    match coconut with
    | Some c =>
        modify (fun e => set_frame (frame e + 1) (set_coconuts (coconuts e ++ [c]) e))
    | None => ret tt
    end ;;;
    e <- get ;;
    survivors <- advance_all (coconuts e) ;;
    modify (set_coconuts survivors).

Definition toggle_pause : M t unit :=
  modify (fun e => set_flags (negb (paused e)) (ai_retail e) (ai_monkey e) e).

Definition toggle_ai (agent_type : string) : M t unit :=
  modify (fun e =>
    if String.eqb agent_type "retail"
    then set_flags (paused e) (negb (ai_retail e)) (ai_monkey e) e
    else if String.eqb agent_type "monkey"
    then set_flags (paused e) (ai_retail e) (negb (ai_monkey e)) e
    else e).

Definition switch_to (agent_type : string) (names : list string) (profile_idx : Z)
  : M t bool :=
  e <- get ;;
  profile_name <- lift (Py.index names profile_idx) ;;
  let switched := Profiles.switch_profile (profile_manager e) agent_type profile_name in
  put (set_profile_manager (snd switched) e) ;;;
  ret (fst switched).

Definition switch_profile (agent_type : string) (profile_idx : Z) : M t bool :=
  e <- get ;;
  if String.eqb agent_type "retail"
     && (profile_idx <? Z.of_nat (length (retail_profiles e)))%Z
  then switch_to "retail" (retail_profiles e) profile_idx
  else if String.eqb agent_type "monkey"
          && (profile_idx <? Z.of_nat (length (monkey_profiles e)))%Z
  then switch_to "monkey" (monkey_profiles e) profile_idx
  else ret false.

Definition reset : M t unit :=
  modify (fun e =>
    set_frame 0 (set_coconuts []
      (set_stats (const_map 0%Z (valid_strikes e)) (const_map 0 (valid_strikes e))
                 (const_map 0 (valid_strikes e)) e))).

End Tick.

End GameEngine.

(** ** core/engine.py in binary64: the outcome of an attempt *)

Module GameEngine64.
Import PrimInt63 PrimFloat.

(** The keys of a slingshot and of the configuration that
    [simulate_slingshot_hit] reads. *)
Record Slingshot : Type := mkSlingshot {
  power : float;
  accuracy : float;
  dte : Z;
  option_type : string
}.

Record Market : Type := mkMarket {
  valid_strikes : list Z;
  GAMMA_STRENGTH : gmap Z float;
  IMPLIED_VOL : float
}.

(** The monkey's part: [defense] holds the strikes [predict_targets]
    returned, and is [None] when the monkey AI is off.  A predicted strike
    halves the base chance and costs one draw, the one that decides
    [defense_success]. *)
Definition monkey_defense (defense : option (list Z)) (strike_price : Z)
    (base_hit_chance : float) (draws : nat -> float) : float * (nat -> float) :=
  match defense with
  | Some defense_strikes =>
      if existsb (Z.eqb strike_price) defense_strikes
      then ((base_hit_chance * Binary64.lit 5 10)%float, fun n => draws (S n))
      else (base_hit_chance, draws)
  | None => (base_hit_chance, draws)
  end.

(** The modifiers and the clamp. *)
Definition final_hit_chance (mk : Market) (sl : Slingshot) (spot_price : float)
    (strike_price : Z) (base_hit_chance : float) : Res float :=
  let wind_penalty := (IMPLIED_VOL mk / of_uint63 100)%float in
  res_bind (match GAMMA_STRENGTH mk !! strike_price with
            | Some g => Ok g
            | None => Raise KeyError
            end) (fun gamma =>
  let gamma_penalty := (gamma / of_uint63 10)%float in
  res_bind (Binary64.int_truediv (dte sl) 30) (fun days =>
  let decay_penalty := Binary64.max2 (Binary64.lit 1 10) days in
  let accuracy_bonus := (accuracy sl * Binary64.lit 2 10)%float in
  let power_factor := (power sl * Binary64.lit 1 10)%float in
  let option_mod :=
    if String.eqb (option_type sl) "call"
    then (if Binary64.gt_int spot_price strike_price
          then Binary64.lit 11 10 else Binary64.lit 9 10)
    else (if Binary64.lt_int spot_price strike_price
          then Binary64.lit 11 10 else Binary64.lit 9 10) in
  res_bind (Binary64.truediv one decay_penalty) (fun decay_factor =>
  let final_hit_chance :=
    (base_hit_chance * (one - wind_penalty) * (one - gamma_penalty) * decay_factor
     * (one + accuracy_bonus) * (one + power_factor) * option_mod)%float in
  Ok (Binary64.max2 zero (Binary64.min2 final_hit_chance one))))).

(** [simulate_slingshot_hit]: the outcome, and the draws that are left.
    The calls on the agents and on the memory loggers are those of
    [GameEngine.simulate_slingshot_hit]; they read no other draw. *)
Definition simulate_slingshot_hit (mk : Market) (sl : Slingshot)
    (defense : option (list Z)) (draws : nat -> float)
    (spot_price : float) (strike_price : Z)
  : Res (bool * float * float * (nat -> float)) :=
  res_bind (if existsb (Z.eqb strike_price) (valid_strikes mk) then Ok strike_price
            else GameEngine._get_valid_strike (valid_strikes mk) (inject_Z strike_price))
    (fun strike_price =>
  res_bind (Binary64.int_to_float strike_price) (fun strike_float =>
  let delta_distance := abs (spot_price - strike_float)%float in
  res_bind (Binary64.truediv one (one + delta_distance)%float) (fun base_hit_chance =>
  let '(base_hit_chance, draws) :=
    monkey_defense defense strike_price base_hit_chance draws in
  res_bind (final_hit_chance mk sl spot_price strike_price base_hit_chance)
    (fun final_hit_chance =>
  let hit := (draws 0%nat <? final_hit_chance)%float in
  let mm_juice := snd (Binary64.juice_split hit) in
  let retail_juice := fst (Binary64.juice_split hit) in
  Ok (hit, retail_juice, mm_juice, fun n => draws (S n)))))).

End GameEngine64.

(** ** core/memory_logger.py in binary64: the curation *)

Module MemoryLogger64.
Import PrimInt63 PrimFloat.

(** What [datetime.fromisoformat] makes of a timestamp: a naive or an
    offset-aware time, in seconds on the time line of [datetime.now()];
    text it refuses; or a value that is not text. *)
Inductive Stamp : Type :=
| Naive (seconds : Q)
| Aware (seconds : Q)
| Malformed
| NotText.

Record Memory : Type := mkMemory {
  content : string;
  importance : float;
  timestamp : Stamp;
  references : Z
}.

Record t : Type := mkLogger {
  agent_name : string;
  max_memories : Z;
  memories : list Memory
}.

Definition set_memories (ms : list Memory) (lg : t) : t :=
  mkLogger (agent_name lg) (max_memories lg) ms.

(** [Memory(content, importance)]: stamped with the clock, never referenced. *)
Definition new_memory (c : string) (imp : float) : M t Memory :=
  ts <- datetime_now ;; ret (mkMemory c imp (Naive ts) 0).

(** [(datetime.now() - datetime.fromisoformat(ts)).total_seconds()], the
    clock having been read: a naive time cannot be subtracted from an
    aware one. *)
Definition age_seconds (t_now : Q) (ts : Stamp) : Res float :=
  match ts with
  | Naive seconds => Ok (Binary64.of_Q (t_now - seconds))
  | Aware _ => Raise TypeError
  | Malformed => Raise ValueError
  | NotText => Raise TypeError
  end.

(** The body of the scoring loop; the clock is read once per memory. *)
Definition score_memory (m : Memory) : M t (Memory * float) :=
  t_now <- datetime_now ;;
  age <- lift (age_seconds t_now (timestamp m)) ;;
  age_factor <- lift (Binary64.truediv one (one + age / of_uint63 86400)%float) ;;
  tenths <- lift (Binary64.int_truediv (references m) 10) ;;
  ret (m, (importance m * (one + tenths) * age_factor)%float).

Definition _curate_memories : M t unit :=
  lg <- get ;;
  scored_memories <- mapM score_memory (memories lg) ;;
  let sorted := Binary64.sorted_desc snd scored_memories in
  modify (set_memories (map fst (Py.slice_to (max_memories lg) sorted))).

Definition add_memory (c : string) (imp : float) : M t unit :=
  memory <- new_memory c imp ;;
  modify (fun lg => set_memories (memories lg ++ [memory]) lg) ;;;
  lg <- get ;;
  if (max_memories lg <? Z.of_nat (length (memories lg)))%Z
  then _curate_memories
  else ret tt.

End MemoryLogger64.

(** ** core/market_data_loader.py *)

Module MarketDataLoader.

(** An entry of [settings["slingshots"]], with the keys the loader reads. *)
Record SlingshotSetting : Type := mkSetting {
  name : string;
  option_type : string;
  dte : Z;
  strike_bias : Q
}.

(** What the loader keeps of its two files: the slingshots of the portfolio
    settings, which the fallback settings do not have, and of the historical
    data the strike bounds and the gamma profile, each present or not. *)
Record t : Type := mkLoader {
  slingshots : option (list SlingshotSetting);
  min_strike : option Z;
  max_strike : option Z;
  gamma_profile : option (gmap Z Q)
}.

Definition _generate_strikes (ld : t) (spot_price : Q) : list Z :=
  let bounds :=
    match min_strike ld, max_strike ld with
    | Some lo, Some hi => (lo, hi)
    | _, _ => let base := Py.round spot_price in ((base - 15)%Z, (base + 15)%Z)
    end in
  let bounds :=
    if (snd bounds - fst bounds <? 10)%Z then
      let center := inject_Z (fst bounds + snd bounds) / 2 in
      (Py.int (center - 10), Py.int (center + 10))
    else bounds in
  Py.range (fst bounds) (snd bounds + 1).

(** [self.historical_data.get("gamma_profile", {}).get(strike, 0.1)]. *)
Definition gamma_at (ld : t) (strike : Z) : Q :=
  default (1 # 10) (default ∅ (gamma_profile ld) !! strike).

Record Target : Type := mkTarget {
  strike : Z;
  attractiveness : Q;
  t_option_type : string;
  t_dte : Z
}.

(** The dictionary [{s["name"]: s for s in ...}] read at a name: of several
    entries with one name the last one is kept. *)
Definition by_name (slingshot_name : string) (l : list SlingshotSetting)
  : option SlingshotSetting :=
  find (fun s => String.eqb (name s) slingshot_name) (rev l).

(** The body of the loop over the strikes. *)
Definition target_at (ld : t) (slingshot : SlingshotSetting) (base_strike strike : Z)
  : option Target :=
  let bias := strike_bias slingshot in
  let attractiveness :=
    if String.eqb (option_type slingshot) "call"
    then 1 / (1 + Qabs (inject_Z strike - (inject_Z base_strike + bias)))
    else 1 / (1 + Qabs (inject_Z strike - (inject_Z base_strike + bias))) in
  let attractiveness := attractiveness * (1 + gamma_at ld strike) in
  if Py.Qltb (3 # 10) attractiveness
  then Some (mkTarget strike attractiveness (option_type slingshot) (dte slingshot))
  else None.

Definition get_slingshot_targets (ld : t) (slingshot_name : string) (spot_price : Q)
  : Res (list Target) :=
  match slingshots ld with
  | None => Raise KeyError
  | Some l =>
      match by_name slingshot_name l with
      | None => Ok []
      | Some slingshot =>
          let strikes := _generate_strikes ld spot_price in
          let base_strike := Py.round spot_price in
          let targets := omap (target_at ld slingshot base_strike) strikes in
          Ok (Py.sorted_desc attractiveness targets)
      end
  end.

End MarketDataLoader.

(** ** core/memory_logger.py: memories as dictionaries, and the digest *)

Module MemoryDict.

(** A dictionary of a memory file: each of the four keys is there or not;
    the value under ["timestamp"] is an ISO string, or a value that counts
    as false ([None], the empty string). *)
Record t : Type := mkDict {
  content : option string;
  importance : option Q;
  timestamp : option (option Q);
  references : option Z
}.

Definition to_dict (m : MemoryLogger.Memory) : t :=
  mkDict (Some (MemoryLogger.content m)) (Some (MemoryLogger.importance m))
    (Some (Some (MemoryLogger.timestamp m))) (Some (MemoryLogger.references m)).

(** [data[key]]. *)
Definition item {O A} (entry : option A) : M O A :=
  match entry with
  | Some a => ret a
  | None => raise KeyError
  end.

(** [Memory.from_dict]: the three keys are read, then the constructor
    stamps the memory with the clock when the timestamp counts as false,
    then the reference count is read, 0 when it is missing. *)
Definition from_dict {O} (data : t) : M O MemoryLogger.Memory :=
  c <- item (content data) ;;
  imp <- item (importance data) ;;
  ts <- item (timestamp data) ;;
  ts <- match ts with
        | Some iso => ret iso
        | None => datetime_now
        end ;;
  ret (MemoryLogger.mkMemory c imp ts (default 0%Z (references data))).

(** The list written by [_save_memories] and the list read back by
    [_load_memories] from what [json.load] yields. *)
Definition dump (ms : list MemoryLogger.Memory) : list t := map to_dict ms.

Definition load {O} (data : list t) : M O (list MemoryLogger.Memory) :=
  mapM from_dict data.

End MemoryDict.

Module Insights.

Definition newline : string := String (ascii_of_nat 10) EmptyString.

Definition is_high (m : MemoryLogger.Memory) : bool :=
  Qle_bool (8 # 10) (MemoryLogger.importance m).

Definition is_medium (m : MemoryLogger.Memory) : bool :=
  negb (is_high m) && Qle_bool (5 # 10) (MemoryLogger.importance m).

(** [sorted(group, key=lambda m: m.references, reverse=True)[:3]]. *)
Definition top3 (group : list MemoryLogger.Memory) : list MemoryLogger.Memory :=
  Py.slice_to 3 (Py.sorted_desc (fun m => inject_Z (MemoryLogger.references m)) group).

Definition key_learning (m : MemoryLogger.Memory) : string :=
  ("- " ++ MemoryLogger.content m ++ " (referenced "
   ++ Py.str_int (MemoryLogger.references m) ++ " times)")%string.

Definition useful_pattern (m : MemoryLogger.Memory) : string :=
  ("- " ++ MemoryLogger.content m)%string.

(** The list [summary] of [summarize_insights], for a store that is not
    empty. *)
Definition summary (lg : MemoryLogger.t) : list string :=
  let high_importance := List.filter is_high (MemoryLogger.memories lg) in
  let medium_importance := List.filter is_medium (MemoryLogger.memories lg) in
  [("Agent " ++ MemoryLogger.agent_name lg ++ " Insights:")%string]
  ++ match high_importance with
     | [] => []
     | _ :: _ =>
         (newline ++ "Key Learnings:")%string :: map key_learning (top3 high_importance)
     end
  ++ match medium_importance with
     | [] => []
     | _ :: _ =>
         (newline ++ "Useful Patterns:")%string
         :: map useful_pattern (top3 medium_importance)
     end.

Definition summarize_insights (lg : MemoryLogger.t) : string :=
  match MemoryLogger.memories lg with
  | [] => "No memories collected yet."
  | _ :: _ => String.concat newline (summary lg)
  end.

End Insights.

(** ** core/save_manager.py: the recorder and the statistics *)

Module SaveManager.

Section Recorder.

(** A captured frame, an array of pixels. *)
Variable Frame : Type.

Record t : Type := mkSaveManager {
  recording : bool;
  frames : list Frame;
  max_frames : Z
}.

Definition init (max_frames : Z) : t := mkSaveManager false [] max_frames.

Definition start_recording (sm : t) : t := mkSaveManager true [] (max_frames sm).

Definition stop_recording (sm : t) : t :=
  mkSaveManager false (frames sm) (max_frames sm).

(** [capture_frame]: [screen] is the array the surface converts to, or
    nothing when the conversion raises, which the method swallows. *)
Definition capture_frame (screen : option Frame) (sm : t) : t :=
  if recording sm && (Z.of_nat (length (frames sm)) <? max_frames sm)%Z then
    match screen with
    | Some frame =>
        let sm := mkSaveManager (recording sm) (frames sm ++ [frame]) (max_frames sm) in
        let frames_left := (max_frames sm - Z.of_nat (length (frames sm)))%Z in
        if (frames_left =? 0)%Z then stop_recording sm else sm
    | None => sm
    end
  else sm.

Definition set_max_frames (n : Z) (sm : t) : t :=
  mkSaveManager (recording sm) (frames sm) n.

End Recorder.

Arguments mkSaveManager {Frame}.
Arguments recording {Frame}.
Arguments frames {Frame}.
Arguments max_frames {Frame}.
Arguments init {Frame}.
Arguments start_recording {Frame}.
Arguments stop_recording {Frame}.
Arguments capture_frame {Frame}.
Arguments set_max_frames {Frame}.

(** A row of the statistics table. *)
Record Row : Type := mkRow {
  strike : Z;
  hits : Z;
  retail_juice : Q;
  mm_juice : Q;
  gamma : Q
}.

(** [d[k]]. *)
Definition item {V} (d : gmap Z V) (k : Z) : Res V :=
  match d !! k with
  | Some v => Ok v
  | None => Raise KeyError
  end.

(** The rows [_save_statistics] builds before it writes them. *)
Fixpoint statistics (e : GameEngine.t) (strikes : list Z) : Res (list Row) :=
  match strikes with
  | [] => Ok []
  | strike :: rest =>
      res_bind (item (GameEngine.tree_hits e) strike) (fun hits =>
      res_bind (item (GameEngine.retail_juice e) strike) (fun retail_juice =>
      res_bind (item (GameEngine.mm_juice e) strike) (fun mm_juice =>
      let gamma := default 0 (GAMMA_STRENGTH (GameEngine.config e) !! strike) in
      res_bind (statistics e rest) (fun rows =>
      Ok (mkRow strike hits retail_juice mm_juice gamma :: rows)))))
  end.

Definition _save_statistics (e : GameEngine.t) : Res (list Row) :=
  statistics e (GameEngine.valid_strikes e).

End SaveManager.

(** ** core/engine.py: the gamma profile of a configuration *)

Module GammaProfile.

(** [max(d.values())] of a dictionary that is not empty. *)
Definition max_value (d : gmap Z Q) : Res Q := Py.max_by id (snd <$> map_to_list d).

(** [if gamma_profile:] fails on the empty dictionary only. *)
Definition is_empty (d : gmap Z Q) : bool :=
  match map_to_list d with [] => true | _ => false end.

(** The loop of a dictionary comprehension whose values may raise. *)
Fixpoint comprehension (f : Z -> Res Q) (strikes : list Z) (acc : gmap Z Q)
  : Res (gmap Z Q) :=
  match strikes with
  | [] => Ok acc
  | s :: rest => res_bind (f s) (fun v => comprehension f rest (<[s := v]> acc))
  end.

(** The gamma strengths [GameConfig.__post_init__] fills in when none are
    given: the profile of the market state scaled by its greatest value, or
    a synthetic profile that grows with the distance from the spot. *)
Definition post_init (gamma_profile : gmap Z Q) (spot_price : Q) (strikes : list Z)
  : Res (gmap Z Q) :=
  if is_empty gamma_profile then
    comprehension
      (fun s => Ok ((2 # 10) + (2 # 100) * Qabs (inject_Z s - spot_price))) strikes ∅
  else
    res_bind (max_value gamma_profile) (fun max_gamma =>
    comprehension (fun s => Py.div (default 0 (gamma_profile !! s)) max_gamma) strikes ∅).

End GammaProfile.

(** ** core/ui.py: the events *)

Module GameUI.

(** The key codes of pygame 2 that [handle_events] compares with. *)
Definition K_SPACE : Z := 32.
Definition K_1 : Z := 49.
Definition K_2 : Z := 50.
Definition K_3 : Z := 51.
Definition K_h : Z := 104.
Definition K_m : Z := 109.
Definition K_p : Z := 112.
Definition K_r : Z := 114.
Definition K_s : Z := 115.
Definition K_F1 : Z := 1073741882.
Definition K_F2 : Z := 1073741883.
Definition K_F3 : Z := 1073741884.
Definition K_F5 : Z := 1073741886.
Definition K_F6 : Z := 1073741887.
Definition K_F7 : Z := 1073741888.

Inductive Event : Type :=
| QUIT
| KEYDOWN (key : Z)
| MOUSEMOTION (x y : Z)
| OTHER.

(** The interface, with the engine it drives. *)
Record t : Type := mkUI {
  engine : GameEngine.t;
  hover_strike : option Z;
  show_instructions : bool;
  show_profiles : bool;
  show_memories : bool;
  show_slingshots : bool
}.

Definition init (e : GameEngine.t) : t := mkUI e None true false false false.

Definition set_engine (e : GameEngine.t) (ui : t) : t :=
  mkUI e (hover_strike ui) (show_instructions ui) (show_profiles ui)
    (show_memories ui) (show_slingshots ui).

Definition set_hover (h : option Z) (ui : t) : t :=
  mkUI (engine ui) h (show_instructions ui) (show_profiles ui)
    (show_memories ui) (show_slingshots ui).

Definition set_shown (i p m s : bool) (ui : t) : t :=
  mkUI (engine ui) (hover_strike ui) i p m s.

(** [key in keys]. *)
Definition key_in (key : Z) (keys : list Z) : bool := existsb (Z.eqb key) keys.

(** The tree, else the coconut, under the mouse.  The trees are visited in
    the order of [TREE_X], which the constructor filled strike by strike in
    the order of the universe. *)
Definition hover_at (e : GameEngine.t) (x y : Z) : option Z :=
  match find (fun strike =>
                match GameEngine.TREE_X e !! strike with
                | Some tree_x =>
                    Py.Qltb (Qabs (inject_Z x - tree_x)) 10
                    && (Z.abs (y - GameEngine.TREE_Y e) <? 40)%Z
                | None => false
                end) (GameEngine.valid_strikes e) with
  | Some strike => Some strike
  | None =>
      match find (fun c => Py.Qltb (Qabs (inject_Z x - Coconut.x c)) 10
                           && Py.Qltb (Qabs (inject_Z y - Coconut.y c)) 10)
                 (GameEngine.coconuts e) with
      | Some coconut => Some (Coconut.strike coconut)
      | None => None
      end
  end.

Definition update_hover (x y : Z) : M t unit :=
  modify (fun ui => set_hover (hover_at (engine ui) x y) ui).

Section Events.

(** [list(config.SLINGSHOTS.keys())]: the names of the catalog in the order
    of the portfolio file. *)
Variable slingshot_names : GameConfig -> list string.

Definition on_engine {A} (m : M GameEngine.t A) : M t A := zoom engine set_engine m.

(** The chain of tests on [event.key], in the order of the source. *)
Definition key_down (key : Z) : M t unit :=
  if (key =? K_SPACE)%Z then on_engine GameEngine.toggle_pause
  else if (key =? K_1)%Z then on_engine (GameEngine.toggle_ai "retail")
  else if (key =? K_2)%Z then on_engine (GameEngine.toggle_ai "monkey")
  else if (key =? K_r)%Z then on_engine GameEngine.reset
  else if (key =? K_h)%Z then
    modify (fun ui => set_shown (negb (show_instructions ui)) (show_profiles ui)
                        (show_memories ui) (show_slingshots ui) ui)
  else if (key =? K_p)%Z then
    modify (fun ui => set_shown (show_instructions ui) (negb (show_profiles ui))
                        (show_memories ui) (show_slingshots ui) ui)
  else if (key =? K_m)%Z then
    modify (fun ui => set_shown (show_instructions ui) (show_profiles ui)
                        (negb (show_memories ui)) (show_slingshots ui) ui)
  else if (key =? K_s)%Z then
    modify (fun ui => set_shown (show_instructions ui) (show_profiles ui)
                        (show_memories ui) (negb (show_slingshots ui)) ui)
  else if key_in key [K_F1; K_F2; K_F3] then
    let profile_idx := (key - K_F1)%Z in
    on_engine (GameEngine.switch_profile "retail" profile_idx) ;;; ret tt
  else if key_in key [K_F5; K_F6; K_F7] then
    let profile_idx := (key - K_F5)%Z in
    on_engine (GameEngine.switch_profile "monkey" profile_idx) ;;; ret tt
  else if key_in key [K_1; K_2; K_3] then
    ui <- get ;;
    let names := slingshot_names (GameEngine.config (engine ui)) in
    let idx := (key - K_1)%Z in
    if (idx <? Z.of_nat (length names))%Z then
      name <- lift (Py.index names idx) ;;
      on_engine (GameEngine.switch_slingshot name) ;;; ret tt
    else ret tt
  else ret tt.

(** [handle_events] on the events [pygame.event.get()] returns. *)
Fixpoint handle_events (events : list Event) : M t bool :=
  match events with
  | [] => ret true
  | QUIT :: _ => ret false
  | KEYDOWN key :: rest => key_down key ;;; handle_events rest
  | MOUSEMOTION x y :: rest => update_hover x y ;;; handle_events rest
  | OTHER :: rest => handle_events rest
  end.

End Events.

End GameUI.

(** ** Definitions the statements below are written with *)


(** The clamp to [[0, 1]], over the rationals. *)
Definition clamp01 (p : Q) : Q :=
  if Qlt_le_dec p 0 then 0 else if Qlt_le_dec 1 p then 1 else p.

(** What the callers of the engine do to it between two frames: the
    controls of the UI, and the market refresh of [core/main.py]. *)
Inductive Op : Type :=
| OpUpdate
| OpTogglePause
| OpToggleAi (agent_type : string)
| OpSwitchProfile (agent_type : string) (profile_idx : Z)
| OpSwitchSlingshot (slingshot_name : string)
| OpReset
| OpRefreshMarket (price implied_vol : Q).

Definition refresh_market (price implied_vol : Q) : M GameEngine.t unit :=
  modify (fun e =>
    let c := GameEngine.config e in
    GameEngine.set_config
      (mkConfig (WIDTH c) (HEIGHT c) price (STRIKES c) (GAMMA_STRENGTH c)
         implied_vol (TRIALS c) (SLINGSHOTS c) (DEFAULT_SLINGSHOT c)) e).

Section Reach.
Variable str_float : Q -> string.
Variable get_slingshot_targets : string -> Q -> list (Z * Q).

Definition run_op (op : Op) : M GameEngine.t unit :=
  match op with
  | OpUpdate => GameEngine.update str_float get_slingshot_targets
  | OpTogglePause => GameEngine.toggle_pause
  | OpToggleAi a => GameEngine.toggle_ai a
  | OpSwitchProfile a i => GameEngine.switch_profile a i ;;; ret tt
  | OpSwitchSlingshot n => GameEngine.switch_slingshot n ;;; ret tt
  | OpReset => GameEngine.reset
  | OpRefreshMarket p v => refresh_market p v
  end.

(** The worlds reachable from a freshly constructed engine. *)
Inductive reachable (config : GameConfig) : World GameEngine.t -> Prop :=
| reach_init pm retail_loaded monkey_loaded rng now e :
    GameEngine.init config pm retail_loaded monkey_loaded = Ok e ->
    reachable config (mkWorld rng now e)
| reach_step op w w' :
    reachable config w ->
    run_op op w = Ok (tt, w') ->
    reachable config w'.

(** [n] successive frames. *)
Fixpoint updates (n : nat) : M GameEngine.t unit :=
  match n with
  | O => ret tt
  | S n' => GameEngine.update str_float get_slingshot_targets ;;; updates n'
  end.
End Reach.

(** Everything of the engine but its two agents and their memories. *)
Definition core (e : GameEngine.t) :=
  (GameEngine.config e, GameEngine.valid_strikes e, GameEngine.tree_hits e,
   GameEngine.retail_juice e, GameEngine.mm_juice e, GameEngine.coconuts e,
   GameEngine.frame e, GameEngine.paused e, GameEngine.ai_retail e,
   GameEngine.ai_monkey e, GameEngine.TREE_X e, GameEngine.TREE_Y e,
   GameEngine.retail_profiles e, GameEngine.monkey_profiles e,
   GameEngine.current_slingshot e, GameEngine.profile_manager e).

(** Everything of the engine but the three aggregate maps. *)
Definition but_stats (e : GameEngine.t) :=
  (GameEngine.config e, GameEngine.retail_agent e, GameEngine.monkey_agent e,
   GameEngine.retail_memory e, GameEngine.monkey_memory e,
   GameEngine.valid_strikes e, GameEngine.coconuts e,
   GameEngine.frame e, GameEngine.paused e, GameEngine.ai_retail e,
   GameEngine.ai_monkey e, GameEngine.TREE_X e, GameEngine.TREE_Y e,
   GameEngine.retail_profiles e, GameEngine.monkey_profiles e,
   GameEngine.current_slingshot e, GameEngine.profile_manager e).

(** Two objects agree on a projection. *)
Definition same {O P} (proj : O -> P) (o o' : O) : Prop := proj o = proj o'.

Definition same_core : GameEngine.t -> GameEngine.t -> Prop := same core.

Definition same_but_stats : GameEngine.t -> GameEngine.t -> Prop := same but_stats.

(** A method keeps a relation [R] between the object before and after. *)
Definition keeps {O A} (R : O -> O -> Prop) (m : M O A) : Prop :=
  forall w a w', m w = Ok (a, w') -> R (obj w) (obj w').

(** A method is quiet when it draws no random number. *)
Definition quiet {O A} (m : M O A) : Prop :=
  forall w a w', m w = Ok (a, w') -> rng w' = rng w.


(** [a] may stand before [b] in a list sorted by decreasing key. *)
Definition before {A} (key : A -> Q) (a b : A) : Prop := key b <= key a.

(** The retail agent once [_update_game_state_metrics] has refreshed its
    crowd sizes for a game state. *)
Definition with_crowd (game_state : GameState) (a : RetailAgent.t) : RetailAgent.t :=
  RetailAgent.mkAgent (RetailAgent.name a) (RetailAgent.last_target a)
    (RetailAgent.target_history a) (RetailAgent.recent_hits a)
    (RetailAgent.update_crowd game_state (RetailAgent.crowd_size a)).

(** The score of a strike under the default weights. *)
Definition default_score (game_state : GameState) (a : RetailAgent.t) (strike : Z) : Res Q :=
  RetailAgent.strike_score (with_crowd game_state a) RetailAgent.default_weights
    game_state strike.

(** The default-weight score of a strike, written out: closeness to the
    spot, a recently targeted strike, little market-maker juice, and the
    crowd, weighted 0.3, 0.2, 0.3 and 0.2. *)
Definition spec_default_score (game_state : GameState) (a : RetailAgent.t) (strike : Z) : Q :=
  (3 # 10) * (1 / (1 + Qabs (inject_Z strike - gs_spot_price game_state) / 5))
  + (2 # 10) * (if existsb (Z.eqb strike) (Py.last_n 5 (RetailAgent.target_history a))
                then 1 else 0)
  + (3 # 10) * (1 - default 0 (gs_mm_juice game_state !! strike))
  + (2 # 10) * Qmin 1 (inject_Z (RetailAgent.crowd_of (with_crowd game_state a) strike) / 5).

(** Entries of an ordered dictionary filled by a scoring loop: no key
    twice, and every value is the score of its key. *)
Definition scored_by (f : Z -> Res Q) (d : OD.t Q) : Prop :=
  NoDup (map fst d) /\ forall e, In e d -> f (fst e) = Ok (snd e).

(** The end-to-end scenario of the specification: strikes 625, 630 and
    635, spot 628, one gamma for every strike, a single trial. *)
Definition scenario (config : GameConfig) : Prop :=
  STRIKES config = [625; 630; 635]%Z /\
  SPOT_PRICE config = 628 /\
  (exists g, forall s, In s [625; 630; 635]%Z -> GAMMA_STRENGTH config !! s = Some g) /\
  TRIALS config = 1%Z.

(** The three aggregate maps. *)
Definition stats (e : GameEngine.t) : gmap Z Z * gmap Z Q * gmap Z Q :=
  (GameEngine.tree_hits e, GameEngine.retail_juice e, GameEngine.mm_juice e).

(** The aggregate maps of [e0] with one hit counted at strike [k]. *)
Definition one_hit (e0 : GameEngine.t) (k : Z) : gmap Z Z * gmap Z Q * gmap Z Q :=
  (<[k := (0 + 1)%Z]> (GameEngine.tree_hits e0),
   <[k := 0 + (1 - (7 # 10))]> (GameEngine.retail_juice e0),
   <[k := 0 + (7 # 10)]> (GameEngine.mm_juice e0)).

(** The scenario [n] frames after the frame that launched coconut [c] from
    the fresh engine [e0].  Either the coconut is in flight: it is the only
    one, carries its strike and its outcome, has lost one frame of its
    budget per frame, and the aggregate maps are those of [e0]. *)
Definition in_flight (e0 : GameEngine.t) (c : Coconut.t) (n : nat) (e : GameEngine.t)
  : Prop :=
  exists c', GameEngine.coconuts e = [c'] /\
             Coconut.alive c' = true /\
             Coconut.strike c' = Coconut.strike c /\
             Coconut.hit c' = Coconut.hit c /\
             Coconut.retail_juice c' = Coconut.retail_juice c /\
             Coconut.mm_juice c' = Coconut.mm_juice c /\
             Coconut.frames_remaining c'
             = (Coconut.frames_remaining c - 1 - Z.of_nat n)%Z /\
             (0 < Coconut.frames_remaining c')%Z /\
             stats e = stats e0.

(** Or it is gone: no coconut is left, and the maps are those of [e0]
    after a miss, and count one hit, at the valid strike [k] nearest to the
    strike of the coconut, after a hit. *)
Definition landed (e0 : GameEngine.t) (c : Coconut.t) (k : Z) (e : GameEngine.t) : Prop :=
  GameEngine.coconuts e = [] /\
  stats e = if Coconut.hit c then one_hit e0 k else stats e0.

(** What every frame after the launch keeps in the scenario. *)
Definition at_cap (config : GameConfig) (e : GameEngine.t) : Prop :=
  GameEngine.frame e = 1%Z /\ GameEngine.paused e = false /\
  GameEngine.config e = config /\
  GameEngine.valid_strikes e = [625; 630; 635]%Z.

(** The curation score as the specification words it. *)
Definition age_decay (age_seconds : Q) : Q := 1 / (1 + age_seconds / 86400).

Definition spec_score (m : MemoryLogger.Memory) (t_now : Q) : Q :=
  MemoryLogger.importance m
  * (1 + inject_Z (MemoryLogger.references m) / 10)
  * age_decay (t_now - MemoryLogger.timestamp m).

(** The memories paired with their scores, the [i]-th one scored at the
    [i]-th reading of the clock. *)
Fixpoint scores_at (clock : nat -> Q) (ms : list MemoryLogger.Memory)
  : list (MemoryLogger.Memory * Q) :=
  match ms with
  | [] => []
  | m :: rest => (m, spec_score m (clock 0%nat)) :: scores_at (fun n => clock (S n)) rest
  end.

(** A memory after one more access. *)
Definition referenced (m : MemoryLogger.Memory) : MemoryLogger.Memory :=
  MemoryLogger.mkMemory (MemoryLogger.content m) (MemoryLogger.importance m)
    (MemoryLogger.timestamp m) (MemoryLogger.references m + 1).

(** The relevance of a memory for a context and an exploration draw. *)
Definition relevance (ctx : MemoryLogger.Context) (m : MemoryLogger.Memory) (u : Q) : Q :=
  MemoryLogger.match_bonus ctx m + u * (1 # 10).

(** What the retrieval loop leaves of a memory, and of a store whose
    [i]-th memory meets the [i]-th draw. *)
Definition visited (ctx : MemoryLogger.Context) (m : MemoryLogger.Memory) (u : Q)
  : MemoryLogger.Memory :=
  if Py.Qltb 0 (relevance ctx m u) then referenced m else m.

Fixpoint visit_all (draws : nat -> Q) (ctx : MemoryLogger.Context)
    (ms : list MemoryLogger.Memory) : list MemoryLogger.Memory :=
  match ms with
  | [] => []
  | m :: rest => visited ctx m (draws 0%nat) :: visit_all (fun n => draws (S n)) ctx rest
  end.

(** The jitter factor of a coconut for a draw [u]. *)
Definition jitter (acc u : Q) : Q := (1 - (1 - acc)) + ((1 + (1 - acc)) - (1 - (1 - acc))) * u.

(** [n] successive updates of one coconut. *)
Fixpoint coconut_updates (n : nat) : M Coconut.t unit :=
  match n with
  | O => ret tt
  | S n' => Coconut.update ;;; coconut_updates n'
  end.

(** What an update never touches in a coconut: its strike, its target,
    its equipment and speed, and the outcome decided at launch. *)
Definition cargo (c : Coconut.t) :=
  (Coconut.strike c, Coconut.target_x c, Coconut.target_y c, Coconut.slingshot c,
   Coconut.speed c, Coconut.hit c, Coconut.retail_juice c, Coconut.mm_juice c,
   Coconut.source_agent c, Coconut.c_option_type c).

(** [l2] is what is left of [l1] after dropping some elements in front. *)
Definition tail_of {A} (l2 l1 : list A) : Prop := exists front, l1 = front ++ l2.

(** The books of an engine balance: the universe is not empty, the hit
    counts are kept for exactly its strikes, no count is negative, and at
    every strike the two juice totals are there, the retail total between
    0 and the market-maker total, both 0 where no hit was counted and
    positive where one was.  (Sums of the two shares of [juice_split] keep
    these facts however each addition is rounded.) *)
Definition balanced (e : GameEngine.t) : Prop :=
  GameEngine.valid_strikes e <> [] /\
  (forall k, In k (GameEngine.valid_strikes e) ->
             exists n, GameEngine.tree_hits e !! k = Some n) /\
  (forall k n, GameEngine.tree_hits e !! k = Some n ->
     In k (GameEngine.valid_strikes e) /\ (0 <= n)%Z /\
     exists rj mj,
       GameEngine.retail_juice e !! k = Some rj /\
       GameEngine.mm_juice e !! k = Some mj /\
       0 <= rj /\ rj <= mj /\
       (n = 0%Z -> mj == 0) /\
       ((0 < n)%Z -> 0 < rj)).

(** A coconut carries the split of its own outcome. *)
Definition carries_split (c : Coconut.t) : Prop :=
  (Coconut.retail_juice c, Coconut.mm_juice c) = juice_split_Q (Coconut.hit c).

Definition ledger_ok (e : GameEngine.t) : Prop :=
  balanced e /\ Forall carries_split (GameEngine.coconuts e).

(** The profile loaded for an agent type under a file name. *)
Definition loaded_profile (pm : Profiles.ProfileManager) (agent_type profile_name : string)
  : option Profiles.AgentProfile :=
  match Profiles.loaded_profiles pm !! agent_type with
  | Some by_file => by_file !! profile_name
  | None => None
  end.

(** The distance between two neighbouring trees on a screen of a given
    width that shows [n] strikes. *)
Definition tree_spacing (width : Z) (n : nat) : Q :=
  Py.min2 30 (inject_Z (width - 100) / inject_Z (Z.of_nat n + 1)).

(** Every strike of the universe has a tree. *)
Definition layout_ok (e : GameEngine.t) : Prop :=
  GameEngine.valid_strikes e <> [] /\
  forall k, In k (GameEngine.valid_strikes e) -> is_Some (GameEngine.TREE_X e !! k).

(** The attractiveness of a strike for a slingshot whose bias is [bias],
    seen from the rounded spot [base_strike]. *)
Definition spec_attractiveness (ld : MarketDataLoader.t) (bias : Q) (base_strike strike : Z)
  : Q :=
  (1 + MarketDataLoader.gamma_at ld strike)
  / (1 + Qabs (inject_Z strike - (inject_Z base_strike + bias))).

(** A target as the engine reads it: its strike and its attractiveness. *)
Definition as_pair (t : MarketDataLoader.Target) : Z * Q :=
  (MarketDataLoader.strike t, MarketDataLoader.attractiveness t).

(** The recorder after one call of [capture_frame] per screen. *)
Definition captures {Frame} (screens : list (option Frame)) (sm : SaveManager.t Frame)
  : SaveManager.t Frame :=
  fold_left (fun sm screen => SaveManager.capture_frame screen sm) screens sm.

(** The statements about the binary64 models are written with these. *)
Module Spec64.
Import PrimInt63 PrimFloat.

(** The hit probability as the specification words it, evaluated in
    binary64: a product of modifiers, clamped to [[0, 1]].  A product above
    1 becomes 1, one that is not above 0 becomes 0. *)
Definition clamp01 (p : float) : float :=
  if (one <? p)%float then one else if (zero <? p)%float then p else zero.

Definition option_mod (sl : GameEngine64.Slingshot) (spot : float) (strike : Z) : float :=
  if (String.eqb (GameEngine64.option_type sl) "call" && Binary64.gt_int spot strike)
     || (String.eqb (GameEngine64.option_type sl) "put" && Binary64.lt_int spot strike)
  then Binary64.lit 11 10 else Binary64.lit 9 10.

(** [base = 1 / (1 + |spot - strike|)], halved on a defended strike. *)
Definition base_chance (spot : float) (strike : Z) (defended : bool) : float :=
  let base := (one / (one + abs (spot - Binary64.of_Z strike)))%float in
  if defended then (base * Binary64.lit 5 10)%float else base.

Definition hit_probability (implied_vol gamma_at_strike : float)
    (sl : GameEngine64.Slingshot) (spot : float) (strike : Z) (defended : bool) : float :=
  clamp01 (base_chance spot strike defended
           * (one - implied_vol / of_uint63 100)
           * (one - gamma_at_strike / of_uint63 10)
           * (one / Binary64.max2 (Binary64.lit 1 10)
                      (Binary64.quotient (GameEngine64.dte sl) 30))
           * (one + GameEngine64.accuracy sl * Binary64.lit 2 10)
           * (one + GameEngine64.power sl * Binary64.lit 1 10)
           * option_mod sl spot strike)%float.

(** The strike is among the strikes the monkey agent predicted. *)
Definition defended (defense : option (list Z)) (strike : Z) : bool :=
  match defense with
  | Some defense_strikes => existsb (Z.eqb strike) defense_strikes
  | None => false
  end.

(** The curation score as the specification words it. *)
Definition age_decay (age_seconds : float) : float :=
  (one / (one + age_seconds / of_uint63 86400))%float.

Definition score (m : MemoryLogger64.Memory) (age_seconds : float) : float :=
  (MemoryLogger64.importance m
   * (one + Binary64.quotient (MemoryLogger64.references m) 10)
   * age_decay age_seconds)%float.

(** The age in seconds, at a reading of the clock, of a memory whose
    timestamp is a time. *)
Definition age_at (t_now : Q) (m : MemoryLogger64.Memory) : float :=
  match MemoryLogger64.timestamp m with
  | MemoryLogger64.Naive seconds | MemoryLogger64.Aware seconds =>
      Binary64.of_Q (t_now - seconds)
  | _ => nan
  end.

(** The memories of a store with their scores, the [i]-th memory scored at
    the [i]-th reading of the clock. *)
Fixpoint scores_at (clock : nat -> Q) (ms : list MemoryLogger64.Memory)
  : list (MemoryLogger64.Memory * float) :=
  match ms with
  | [] => []
  | m :: rest =>
      (m, score m (age_at (clock 0%nat) m)) :: scores_at (fun n => clock (S n)) rest
  end.

(** A sequence of [add_memory] calls. *)
Fixpoint add_all (calls : list (string * float)) : M MemoryLogger64.t unit :=
  match calls with
  | [] => ret tt
  | (c, imp) :: rest => MemoryLogger64.add_memory c imp ;;; add_all rest
  end.

(** [a] may stand before [b] in a list sorted by decreasing key: its key
    is not less. *)
Definition not_below {A} (key : A -> float) (a b : A) : Prop :=
  (key a <? key b)%float = false.

(** The divisor of the age factor of a memory stamped [seconds], at a
    reading of the clock. *)
Definition decay_divisor (t_now seconds : Q) : float :=
  (one + Binary64.of_Q (t_now - seconds) / of_uint63 86400)%float.

(** A memory can be scored at a reading of the clock: its timestamp is a
    naive time, the divisor of its age factor is not zero, and a tenth of
    its reference count is in the range of a [float]. *)
Definition scoreable (t_now : Q) (m : MemoryLogger64.Memory) : Prop :=
  exists seconds,
    MemoryLogger64.timestamp m = MemoryLogger64.Naive seconds /\
    is_zero (decay_divisor t_now seconds) = false /\
    is_infinity (Binary64.quotient (MemoryLogger64.references m) 10) = false.

(** The exception scoring raises for a memory that cannot be scored. *)
Definition refused (t_now : Q) (m : MemoryLogger64.Memory) (err : PyErr) : Prop :=
  match MemoryLogger64.timestamp m with
  | MemoryLogger64.Naive seconds =>
      (err = ZeroDivisionError /\ is_zero (decay_divisor t_now seconds) = true) \/
      (err = OverflowError /\ is_zero (decay_divisor t_now seconds) = false /\
       is_infinity (Binary64.quotient (MemoryLogger64.references m) 10) = true)
  | MemoryLogger64.Aware _ => err = TypeError
  | MemoryLogger64.Malformed => err = ValueError
  | MemoryLogger64.NotText => err = TypeError
  end.

End Spec64.

(** ** A concrete game, used to exercise the statements *)

Module Demo.

Definition basic : Slingshot := mkSlingshot "basic" 1 (8 # 10) 5 "call".

Definition sniper : Slingshot := mkSlingshot "sniper" (12 # 10) 1 3 "put".

(** A profile manager that found no profile file. *)
Definition no_profiles : Profiles.ProfileManager :=
  Profiles.mkManager
    {[ "monkey" := ∅; "retail" := ∅ ]}
    {[ "monkey" := "monkey_profile.json"; "retail" := "retail_profile.json" ]}.

(** The scenario of the specification: three strikes, spot 628, the same
    gamma at every strike, one trial. *)
Definition config : GameConfig :=
  mkConfig 1280 720 628 [625; 630; 635]%Z
    {[ 625%Z := 1 # 2; 630%Z := 1 # 2; 635%Z := 1 # 2 ]}
    (137 # 10) 1 {[ "basic" := basic; "sniper" := sniper ]} "basic".

Definition str_float (q : Q) : string := "628.0".

Definition no_targets (name : string) (spot : Q) : list (Z * Q) := [].

Definition engine : GameEngine.t :=
  match GameEngine.init config no_profiles [] [] with
  | Ok e => e
  | Raise _ =>
      GameEngine.mkEngine config RetailAgent.init MonkeyAgent.init
        (MemoryLogger.mkLogger "retail" 100 []) (MemoryLogger.mkLogger "monkey" 100 [])
        [] ∅ ∅ ∅ [] 0%Z false true true ∅ 0%Z [] [] basic no_profiles
  end.

(** Every draw is one half; the clock ticks once per reading. *)
Definition world : World GameEngine.t :=
  mkWorld (fun _ => 1 # 2) (fun n => inject_Z (Z.of_nat n)) engine.

Definition game_state : GameState := GameEngine.get_game_state engine.

Definition no_strikes : GameState :=
  mkGameState 628 [] ∅ ∅ ∅ 0%Z "basic" "call" None None None None.

(** A coconut launched from the middle of the screen. *)
Definition coconut : Coconut.t :=
  Coconut.new 630%Z 640 0 110 600 (2 # 100) true (3 # 10) (7 # 10) "retail" sniper.

Definition logger : MemoryLogger.t :=
  MemoryLogger.mkLogger "retail" 3
    [ MemoryLogger.mkMemory "Hit call strike 630 at spot 628.0" (7 # 10) 0 0;
      MemoryLogger.mkMemory "Missed call strike 635" (5 # 10) 10 2;
      MemoryLogger.mkMemory "Hit call strike 625 at spot 628.0" (7 # 10) 20 0 ].

(** The world after resolving a launch at strike 630 in [world]. *)
Definition after_simulate : World GameEngine.t :=
  match GameEngine.simulate_slingshot_hit str_float 628 630%Z world with
  | Ok (_, w) => w
  | Raise _ => world
  end.

(** The first two frames of [coconut]'s flight. *)
Definition flight0 : World Coconut.t :=
  mkWorld (fun _ => 1 # 2) (fun n => inject_Z (Z.of_nat n)) coconut.

Definition flight1 : World Coconut.t :=
  match Coconut.update flight0 with Ok (_, w) => w | Raise _ => flight0 end.

Definition flight2 : World Coconut.t :=
  match Coconut.update flight1 with Ok (_, w) => w | Raise _ => flight1 end.

(** A retrieval whose context matches nothing, with every draw zero. *)
Definition no_match : MemoryLogger.Context := MemoryLogger.mkContext "None" "None" false.

Definition zero_draws : World MemoryLogger.t :=
  mkWorld (fun _ => 0) (fun n => 100 + inject_Z (Z.of_nat n)) logger.

Definition half_draws : World MemoryLogger.t :=
  mkWorld (fun _ => 1 # 2) (fun n => 100 + inject_Z (Z.of_nat n)) logger.

Definition after_add : World MemoryLogger.t :=
  match MemoryLogger.add_memory "Missed call strike 630" (5 # 10) half_draws with
  | Ok (_, w) => w
  | Raise _ => half_draws
  end.

Definition after_retrieval : World MemoryLogger.t :=
  match MemoryLogger.get_relevant_memories no_match 5 zero_draws with
  | Ok (_, w) => w
  | Raise _ => zero_draws
  end.

(** A retail agent that has not played yet. *)
Definition fresh_retail : World RetailAgent.t :=
  mkWorld (fun _ => 1 # 2) (fun n => inject_Z (Z.of_nat n)) RetailAgent.init.

Definition after_select : World RetailAgent.t :=
  match RetailAgent.select_target no_profiles game_state fresh_retail with
  | Ok (_, w) => w
  | Raise _ => fresh_retail
  end.

(** The world after the first frame of the scenario, and after the second. *)
Definition after_update : World GameEngine.t :=
  match GameEngine.update str_float no_targets world with
  | Ok (_, w) => w
  | Raise _ => world
  end.

Definition after_second_update : World GameEngine.t :=
  match GameEngine.update str_float no_targets after_update with
  | Ok (_, w) => w
  | Raise _ => after_update
  end.

(** A monkey agent that has not played yet, and its first predictions. *)
Definition fresh_monkey : World MonkeyAgent.t :=
  mkWorld (fun _ => 1 # 2) (fun n => inject_Z (Z.of_nat n)) MonkeyAgent.init.

Definition predicted : list (Z * Q) * World MonkeyAgent.t :=
  match MonkeyAgent.predict_targets no_profiles game_state fresh_monkey with
  | Ok r => r
  | Raise _ => ([], fresh_monkey)
  end.

(** A profile manager with one monkey profile, which is the active one. *)
Definition cautious : Profiles.AgentProfile :=
  Profiles.mkProfile "Cautious Monkey" "defend"
    {[ "risk_aversion" := 7 # 10 ]} ["wait"]
    {[ "loss_aversion" := 1 # 2; "recency" := 3 # 10 ]}
    {[ "spot_distance" := 4 # 10; "hit_history" := 3 # 10;
       "juice_collection" := 4 # 10; "retail_clustering" := 1 # 10 ]}.

Definition one_profile : Profiles.ProfileManager :=
  Profiles.mkManager
    {[ "monkey" := {[ "monkey_profile.json" := cautious ]}; "retail" := ∅ ]}
    {[ "monkey" := "monkey_profile.json"; "retail" := "retail_profile.json" ]}.

Definition cautious_weights : gmap string Q :=
  match Profiles.apply_profile_to_agent one_profile "monkey" game_state with
  | Ok weights => weights
  | Raise _ => ∅
  end.

(** A loader with two slingshots, strike bounds and no gamma profile. *)
Definition loader : MarketDataLoader.t :=
  MarketDataLoader.mkLoader
    (Some [ MarketDataLoader.mkSetting "basic" "call" 5 2;
            MarketDataLoader.mkSetting "sniper" "put" 3 (- (1)) ])
    (Some 613%Z) (Some 643%Z) None.

(** The targets of the loader, as the engine reads them. *)
Definition loader_targets (slingshot_name : string) (spot_price : Q) : list (Z * Q) :=
  match MarketDataLoader.get_slingshot_targets loader slingshot_name spot_price with
  | Ok targets => map as_pair targets
  | Raise _ => []
  end.

End Demo.

(** Concrete inputs of the binary64 models. *)
Module Demo64.
Import PrimInt63 PrimFloat.

(** A call with 24 days to expiry, accuracy 1.25 and no power, on a calm
    market without gamma. *)
Definition sling : GameEngine64.Slingshot :=
  GameEngine64.mkSlingshot zero (Binary64.lit 125 100) 24 "call".

Definition market : GameEngine64.Market :=
  GameEngine64.mkMarket [625; 627; 630]%Z
    {[ 625%Z := zero; 627%Z := zero; 630%Z := zero ]} zero.

(** Every draw is 0.859375. *)
Definition draws : nat -> float := fun _ => Binary64.lit 859375 1000000.

(** An attempt at strike 627 from spot 628, the monkey AI off. *)
Definition outcome : bool * float * float * (nat -> float) :=
  match GameEngine64.simulate_slingshot_hit market sling None draws
          (Binary64.of_Z 628) 627 with
  | Ok r => r
  | Raise _ => (false, zero, zero, draws)
  end.

(** Two memories of one age, 0.7 * (1 + 5/10) against 0.5 * (1 + 11/10),
    in a store that keeps one. *)
Definition store : World MemoryLogger64.t :=
  mkWorld (fun _ => 1 # 2) (fun _ => 100)
    (MemoryLogger64.mkLogger "retail" 1
       [ MemoryLogger64.mkMemory "Hit call strike 630 at spot 628.0"
           (Binary64.lit 7 10) (MemoryLogger64.Naive 50) 5;
         MemoryLogger64.mkMemory "Missed call strike 635"
           (Binary64.lit 5 10) (MemoryLogger64.Naive 50) 11 ]).

Definition after_curation : World MemoryLogger64.t :=
  match MemoryLogger64._curate_memories store with
  | Ok (_, w) => w
  | Raise _ => store
  end.

Definition half : float := Binary64.lit 5 10.

Definition after_add : World MemoryLogger64.t :=
  match MemoryLogger64.add_memory "Missed call strike 630" half store with
  | Ok (_, w) => w
  | Raise _ => store
  end.

(** A store whose second memory is stamped one day ahead of the second
    reading of the clock. *)
Definition day_ahead : World MemoryLogger64.t :=
  mkWorld (fun _ => 1 # 2) (fun n => inject_Z (Z.of_nat n))
    (MemoryLogger64.mkLogger "retail" 1
       [ MemoryLogger64.mkMemory "Missed call strike 635"
           (Binary64.lit 5 10) (MemoryLogger64.Naive 0) 0;
         MemoryLogger64.mkMemory "Hit call strike 630 at spot 628.0"
           (Binary64.lit 7 10) (MemoryLogger64.Naive 86401) 0 ]).

End Demo64.

(** * Part II: properties

    ** Facts about the built-ins *)

Lemma Qltb_lt (a b : Q) : Py.Qltb a b = true <-> a < b.
Proof.
  unfold Py.Qltb. rewrite negb_true_iff.
  destruct (Qle_bool b a) eqn:E.
  - apply Qle_bool_iff in E. split; [discriminate | intros H; lra].
  - split; [intros _ | reflexivity].
    destruct (Qlt_le_dec a b) as [H | H]; [exact H |].
    apply Qle_bool_iff in H. congruence.
Qed.

Lemma Qltb_ge (a b : Q) : Py.Qltb a b = false <-> b <= a.
Proof.
  unfold Py.Qltb. rewrite negb_false_iff. apply Qle_bool_iff.
Qed.

Lemma min_from_spec {A} (key : A -> Q) (l : list A) (best : A) :
  In (Py.min_from key best l) (best :: l) /\
  forall x, In x (best :: l) -> key (Py.min_from key best l) <= key x.
Proof.
  revert best. induction l as [| y l IH]; intros best; simpl.
  - split; [left; reflexivity |]. intros x [<- | []]. lra.
  - destruct (IH (if Py.Qltb (key y) (key best) then y else best)) as [Hin Hmin].
    split.
    + destruct Hin as [Hin | Hin]; [| right; right; exact Hin].
      destruct (Py.Qltb (key y) (key best)); [right; left | left]; exact Hin.
    + intros x Hx.
      destruct (Py.Qltb (key y) (key best)) eqn:E.
      * apply Qltb_lt in E.
        destruct Hx as [<- | [<- | Hx]].
        -- specialize (Hmin y (or_introl eq_refl)). lra.
        -- apply Hmin. left; reflexivity.
        -- apply Hmin. right; exact Hx.
      * apply Qltb_ge in E.
        destruct Hx as [<- | [<- | Hx]].
        -- apply Hmin. left; reflexivity.
        -- specialize (Hmin best (or_introl eq_refl)). lra.
        -- apply Hmin. right; exact Hx.
Qed.

Lemma inject_Z_eqb (a b : Z) : Qeq_bool (inject_Z a) (inject_Z b) = true -> a = b.
Proof.
  intros H. apply Qeq_bool_iff in H. unfold Qeq in H. simpl in H. lia.
Qed.

Lemma find_member (valid : list Z) (z : Z) :
  In z valid ->
  find (fun v => Qeq_bool (inject_Z v) (inject_Z z)) valid = Some z.
Proof.
  induction valid as [| v valid IH]; simpl; [intros [] |].
  intros [-> | Hin].
  - rewrite (proj2 (Qeq_bool_iff _ _) (Qeq_refl _)). reflexivity.
  - destruct (Qeq_bool (inject_Z v) (inject_Z z)) eqn:E.
    + f_equal. apply inject_Z_eqb. exact E.
    + apply IH. exact Hin.
Qed.

(** Snapping lands in the universe, at minimal distance from the input. *)
Lemma snap_nearest (valid_strikes : list Z) (strike : Q) :
  valid_strikes <> [] ->
  exists v,
    GameEngine._get_valid_strike valid_strikes strike = Ok v /\
    In v valid_strikes /\
    forall v', In v' valid_strikes ->
               Qabs (inject_Z v - strike) <= Qabs (inject_Z v' - strike).
Proof.
  intros Hne. unfold GameEngine._get_valid_strike.
  destruct (find _ valid_strikes) as [v |] eqn:Hfind.
  - exists v. split; [reflexivity |].
    apply find_some in Hfind. destruct Hfind as [Hin Heq].
    split; [exact Hin |].
    intros v' _. apply Qeq_bool_iff in Heq.
    assert (Hz : inject_Z v - strike == 0) by lra.
    rewrite Hz. apply Qabs_nonneg.
  - destruct valid_strikes as [| x l]; [congruence |]. simpl.
    exists (Py.min_from (fun v => Qabs (inject_Z v - strike)) x l).
    split; [reflexivity |].
    apply (min_from_spec (fun v => Qabs (inject_Z v - strike))).
Qed.

(** A strike of the universe snaps to itself. *)
Lemma snap_member (valid_strikes : list Z) (z : Z) :
  In z valid_strikes -> GameEngine._get_valid_strike valid_strikes (inject_Z z) = Ok z.
Proof.
  intros Hin. unfold GameEngine._get_valid_strike.
  rewrite (find_member valid_strikes z Hin). reflexivity.
Qed.



(** ** Reasoning about methods *)

Lemma bind_ok {O A B} (m : M O A) (k : A -> M O B) w b w' :
  bind m k w = Ok (b, w') ->
  exists a w1, m w = Ok (a, w1) /\ k a w1 = Ok (b, w').
Proof.
  unfold bind. destruct (m w) as [[a w1] | e]; [| discriminate].
  intros H. exists a, w1. split; [reflexivity | exact H].
Qed.

Lemma lift_ok {O A} (r : Res A) (w : World O) a w' :
  lift r w = Ok (a, w') -> r = Ok a /\ w' = w.
Proof.
  unfold lift. destruct r; [| discriminate]. intros H. injection H as -> ->. auto.
Qed.

Lemma zoom_ok {O I A} (proj : O -> I) (upd : I -> O -> O) (m : M I A) w a w' :
  zoom proj upd m w = Ok (a, w') ->
  exists wi, m (mkWorld (rng w) (now w) (proj (obj w))) = Ok (a, wi) /\
             w' = mkWorld (rng wi) (now wi) (upd (obj wi) (obj w)).
Proof.
  unfold zoom. destruct (m _) as [[a' wi] | e]; [| discriminate].
  intros H. injection H as -> <-. exists wi. auto.
Qed.

Section Keeps.
Context {O : Type} (R : O -> O -> Prop) `{!PreOrder R}.

Lemma keeps_ret {A} (a : A) : keeps R (ret a).
Proof. intros w a' w' H. injection H as _ <-. reflexivity. Qed.

Lemma keeps_get : keeps R get.
Proof. intros w a' w' H. injection H as _ <-. reflexivity. Qed.

Lemma keeps_raise {A} e : keeps R (@raise O A e).
Proof. intros w a' w' H. discriminate. Qed.

Lemma keeps_lift {A} (r : Res A) : keeps R (lift r).
Proof. intros w a w' H. apply lift_ok in H as [_ ->]. reflexivity. Qed.

Lemma keeps_random : keeps R random.
Proof. intros w a w' H. injection H as _ <-. reflexivity. Qed.

Lemma keeps_now : keeps R datetime_now.
Proof. intros w a w' H. injection H as _ <-. reflexivity. Qed.

Lemma keeps_bind {A B} (m : M O A) (k : A -> M O B) :
  keeps R m -> (forall a, keeps R (k a)) -> keeps R (bind m k).
Proof.
  intros Hm Hk w b w' H. apply bind_ok in H as (a & w1 & H1 & H2).
  transitivity (obj w1); [eapply Hm | eapply Hk]; eassumption.
Qed.

Lemma keeps_modify (f : O -> O) : (forall o, R o (f o)) -> keeps R (modify f).
Proof. intros Hf w a w' H. injection H as _ <-. apply Hf. Qed.

Lemma keeps_zoom {I A} (proj : O -> I) (upd : I -> O -> O) (m : M I A) :
  (forall i o, R o (upd i o)) -> keeps R (zoom proj upd m).
Proof.
  intros Hu w a w' H. apply zoom_ok in H as (wi & _ & ->). apply Hu.
Qed.

Lemma keeps_uniform a b : keeps R (Py.uniform a b).
Proof. apply keeps_bind; [apply keeps_random | intros; apply keeps_ret]. Qed.

Lemma keeps_choice {A} (l : list A) : keeps R (Py.choice l).
Proof.
  destruct l; [apply keeps_raise |].
  apply keeps_bind; [apply keeps_random | intros; apply keeps_ret].
Qed.
End Keeps.

Section Quiet.
Context {O : Type}.

Lemma quiet_ret {A} (a : A) : quiet (@ret O A a).
Proof. intros w a' w' H. injection H as _ <-. reflexivity. Qed.

Lemma quiet_get : quiet (@get O).
Proof. intros w a' w' H. injection H as _ <-. reflexivity. Qed.

Lemma quiet_raise {A} e : quiet (@raise O A e).
Proof. intros w a' w' H. discriminate. Qed.

Lemma quiet_lift {A} (r : Res A) : quiet (@lift O A r).
Proof. intros w a w' H. apply lift_ok in H as [_ ->]. reflexivity. Qed.

Lemma quiet_now : quiet (@datetime_now O).
Proof. intros w a w' H. injection H as _ <-. reflexivity. Qed.

Lemma quiet_put o : quiet (@put O o).
Proof. intros w a w' H. injection H as _ <-. reflexivity. Qed.

Lemma quiet_modify f : quiet (@modify O f).
Proof. intros w a w' H. injection H as _ <-. reflexivity. Qed.

Lemma quiet_bind {A B} (m : M O A) (k : A -> M O B) :
  quiet m -> (forall a, quiet (k a)) -> quiet (bind m k).
Proof.
  intros Hm Hk w b w' H. apply bind_ok in H as (a & w1 & H1 & H2).
  rewrite (Hk _ _ _ _ H2). eapply Hm; eassumption.
Qed.

Lemma quiet_zoom {I A} (proj : O -> I) (upd : I -> O -> O) (m : M I A) :
  quiet m -> quiet (zoom proj upd m).
Proof.
  intros Hm w a w' H. apply zoom_ok in H as (wi & H & ->). simpl.
  apply (Hm _ _ _ H).
Qed.

Lemma quiet_mapM {A B} (f : A -> M O B) (l : list A) :
  (forall a, quiet (f a)) -> quiet (mapM f l).
Proof.
  intros Hf. induction l as [| x l IH]; simpl.
  - apply quiet_ret.
  - apply quiet_bind; [apply Hf |]. intros y.
    apply quiet_bind; [apply IH |]. intros ys. apply quiet_ret.
Qed.
End Quiet.

(** Split a goal about a composite method along its structure. *)
Ltac quiet_step :=
  first
    [ apply quiet_ret | apply quiet_get | apply quiet_raise | apply quiet_lift
    | apply quiet_now | apply quiet_put | apply quiet_modify
    | apply quiet_mapM; intros
    | apply quiet_zoom
    | apply quiet_bind; [| intros]
    | match goal with
      | |- quiet (if ?c then _ else _) => destruct c
      | |- quiet (match ?x with _ => _ end) => destruct x
      end ].

Ltac quiet_tac := repeat quiet_step.

Lemma add_memory_quiet c imp : quiet (MemoryLogger.add_memory c imp).
Proof.
  unfold MemoryLogger.add_memory, MemoryLogger.new_memory,
    MemoryLogger._curate_memories, MemoryLogger.score_memory.
  quiet_tac.
Qed.

Lemma predict_targets_quiet pm gs : quiet (MonkeyAgent.predict_targets pm gs).
Proof.
  unfold MonkeyAgent.predict_targets, MonkeyAgent._update_game_state_metrics.
  quiet_tac.
Qed.

Lemma record_defense_quiet b : quiet (MonkeyAgent.record_defense_result b).
Proof. unfold MonkeyAgent.record_defense_result. quiet_tac. Qed.

Lemma record_hit_quiet b : quiet (RetailAgent.record_hit b).
Proof. unfold RetailAgent.record_hit. quiet_tac. Qed.

(** ** Switching the slingshot *)

(** C10.  [switch_slingshot(name)] returns [True] and makes the catalog
    entry of [name] the current slingshot when [name] is a key of the
    catalog; for any other name it returns [False] and leaves the whole
    world as it was; it returns [True] exactly for the keys. *)
Theorem switch_slingshot_spec (slingshot_name : string) (w : World GameEngine.t) :
  (forall sling,
      SLINGSHOTS (GameEngine.config (obj w)) !! slingshot_name = Some sling ->
      GameEngine.switch_slingshot slingshot_name w
      = Ok (true, mkWorld (rng w) (now w)
                    (GameEngine.set_current_slingshot sling (obj w)))) /\
  (SLINGSHOTS (GameEngine.config (obj w)) !! slingshot_name = None ->
   GameEngine.switch_slingshot slingshot_name w = Ok (false, w)) /\
  (exists b w',
      GameEngine.switch_slingshot slingshot_name w = Ok (b, w') /\
      (b = true <-> is_Some (SLINGSHOTS (GameEngine.config (obj w)) !! slingshot_name))).
Proof.
  unfold GameEngine.switch_slingshot, bind, get, put, ret. simpl.
  destruct (SLINGSHOTS (GameEngine.config (obj w)) !! slingshot_name) as [sling |] eqn:E.
  - split; [| split].
    + intros s [= <-]. reflexivity.
    + discriminate.
    + eexists _, _. split; [reflexivity |]. split; [eauto | reflexivity].
  - split; [| split].
    + discriminate.
    + reflexivity.
    + eexists _, _. split; [reflexivity |].
      split; [discriminate | intros [x Hx]; discriminate].
Qed.

Lemma switch_slingshot_spec_witness :
  GameEngine.switch_slingshot "sniper" Demo.world
  = Ok (true, mkWorld (rng Demo.world) (now Demo.world)
                (GameEngine.set_current_slingshot Demo.sniper (obj Demo.world)))
  /\ GameEngine.switch_slingshot "bazooka" Demo.world = Ok (false, Demo.world).
Proof.
  split.
  - apply (proj1 (switch_slingshot_spec "sniper" Demo.world)). reflexivity.
  - apply (proj1 (proj2 (switch_slingshot_spec "bazooka" Demo.world))). reflexivity.
Defined.


(** ** The juice split *)

Lemma simulate_returns_split str_float spot strike w hit retail mm w' :
  GameEngine.simulate_slingshot_hit str_float spot strike w = Ok ((hit, retail, mm), w') ->
  (retail, mm) = juice_split_Q hit.
Proof.
  unfold GameEngine.simulate_slingshot_hit. intros H.
  repeat (apply bind_ok in H as (? & ? & _ & H)).
  injection H as <- <- <- _. reflexivity.
Qed.

(** C2, as amended.  A resolved attempt returns the shares of
    [juice_split]: on a hit the market-maker share is 0.7 and the retail
    share is [1 - 0.7], and they sum to 1; on a miss both are 0.  In
    binary64 the retail share is the difference [1 - 0.7] as well, and the
    sum of the two shares is exactly 1. *)
Theorem juice_shares str_float spot strike w hit retail mm w' :
  GameEngine.simulate_slingshot_hit str_float spot strike w = Ok ((hit, retail, mm), w') ->
  (retail, mm) = juice_split_Q hit /\
  (hit = true -> mm == 7 # 10 /\ retail == 1 - (7 # 10) /\ retail + mm == 1) /\
  (hit = false -> retail == 0 /\ mm == 0) /\
  Binary64.juice_split true
  = (PrimFloat.sub PrimFloat.one Binary64.seven_tenths, Binary64.seven_tenths) /\
  PrimFloat.add (fst (Binary64.juice_split true)) (snd (Binary64.juice_split true))
  = PrimFloat.one /\
  Binary64.juice_split false = (PrimFloat.zero, PrimFloat.zero).
Proof.
  intros H. apply simulate_returns_split in H.
  split; [exact H |].
  split; [| split].
  - intros ->. injection H as -> ->. repeat split; reflexivity.
  - intros ->. injection H as -> ->. split; reflexivity.
  - repeat split; reflexivity.
Qed.

(** The doubles involved, in the notation of Python's [float.hex]. *)
Module Binary64Facts.
Import PrimFloat.

Lemma seven_tenths_bits : Binary64.seven_tenths = 0x1.6666666666666p-1%float.
Proof. reflexivity. Qed.

Lemma three_tenths_bits : Binary64.three_tenths = 0x1.3333333333333p-2%float.
Proof. reflexivity. Qed.

Lemma retail_share_bits :
  fst (Binary64.juice_split true) = 0x1.3333333333334p-2%float.
Proof. reflexivity. Qed.

End Binary64Facts.

(** C2, as stated, fails in the arithmetic of the program: the retail share
    [1 - 0.7] is not the double [0.3]. *)
Lemma binary64_retail_share_is_not_three_tenths :
  ~ (Binary64.juice_split true = (Binary64.three_tenths, Binary64.seven_tenths)).
Proof.
  intros H.
  assert (E : PrimFloat.eqb (fst (Binary64.juice_split true)) Binary64.three_tenths = false)
    by reflexivity.
  rewrite H in E. vm_compute in E. discriminate.
Qed.


Lemma juice_shares_witness :
  (3 # 10, 7 # 10) = juice_split_Q true /\
  (true = true -> (7 # 10) == 7 # 10 /\ (3 # 10) == 1 - (7 # 10) /\ (3 # 10) + (7 # 10) == 1) /\
  (true = false -> (3 # 10) == 0 /\ (7 # 10) == 0) /\
  Binary64.juice_split true
  = (PrimFloat.sub PrimFloat.one Binary64.seven_tenths, Binary64.seven_tenths) /\
  PrimFloat.add (fst (Binary64.juice_split true)) (snd (Binary64.juice_split true))
  = PrimFloat.one /\
  Binary64.juice_split false = (PrimFloat.zero, PrimFloat.zero).
Proof.
  apply (juice_shares Demo.str_float 628 630%Z Demo.world true (3 # 10) (7 # 10)
           Demo.after_simulate).
  vm_compute. reflexivity.
Defined.

(** ** What a launch leaves alone *)

#[global] Instance same_preorder {O P} (proj : O -> P) : PreOrder (same proj).
Proof.
  split.
  - intros o. reflexivity.
  - intros a b c Hab Hbc. unfold same in *. congruence.
Qed.

#[global] Instance same_core_preorder : PreOrder same_core.
Proof. unfold same_core. apply same_preorder. Qed.

#[global] Instance same_but_stats_preorder : PreOrder same_but_stats.
Proof. unfold same_but_stats. apply same_preorder. Qed.

Create HintDb keeps_core_db.

Ltac instance := try (solve [typeclasses eauto]).

Ltac keeps_core_step :=
  first
    [ solve [auto 1 with keeps_core_db nocore]
    | apply keeps_ret; instance
    | apply keeps_get; instance
    | apply keeps_raise
    | apply keeps_lift; instance
    | apply keeps_random; instance
    | apply keeps_now; instance
    | apply keeps_uniform; instance
    | apply keeps_choice; instance
    | apply keeps_zoom; intros; hnf; reflexivity
    | apply keeps_bind; instance; [| intros]
    | match goal with
      | |- keeps _ (if ?c then _ else _) => destruct c
      | |- keeps _ (match ?x with _ => _ end) => destruct x
      end ].

Ltac keeps_core := repeat keeps_core_step.

Lemma monkey_defense_core strike base :
  keeps same_core (GameEngine.monkey_defense strike base).
Proof. unfold GameEngine.monkey_defense. keeps_core. Qed.

#[local] Hint Resolve monkey_defense_core : keeps_core_db.

Lemma simulate_core str_float spot strike :
  keeps same_core (GameEngine.simulate_slingshot_hit str_float spot strike).
Proof. unfold GameEngine.simulate_slingshot_hit. keeps_core. Qed.

#[local] Hint Resolve simulate_core : keeps_core_db.

Lemma choose_target_core targets : keeps same_core (GameEngine.choose_target targets).
Proof. unfold GameEngine.choose_target. keeps_core. Qed.

Lemma tree_position_core strike : keeps same_core (GameEngine._get_tree_position strike).
Proof. unfold GameEngine._get_tree_position. keeps_core. Qed.

#[local] Hint Resolve choose_target_core tree_position_core : keeps_core_db.

Lemma launch_coconut_core str_float targets :
  keeps same_core (GameEngine.launch_coconut str_float targets).
Proof. unfold GameEngine.launch_coconut. keeps_core. Qed.


(** ** The hit-probability model *)

Lemma Qltb_compat (a b b' : Q) : b == b' -> Py.Qltb a b = Py.Qltb a b'.
Proof.
  intros E. destruct (Py.Qltb a b') eqn:H.
  - apply Qltb_lt. apply Qltb_lt in H. lra.
  - apply Qltb_ge. apply Qltb_ge in H. lra.
Qed.

Lemma max2_Qmax (a b : Q) : Py.max2 a b == Qmax a b.
Proof.
  unfold Py.max2. destruct (Py.Qltb a b) eqn:H.
  - apply Qltb_lt in H. symmetry. apply Q.max_r. lra.
  - apply Qltb_ge in H. symmetry. apply Q.max_l. exact H.
Qed.

Lemma clamp01_compat (x y : Q) : x == y -> clamp01 x == clamp01 y.
Proof.
  intros E. unfold clamp01.
  destruct (Qlt_le_dec x 0), (Qlt_le_dec y 0); try lra;
    destruct (Qlt_le_dec 1 x), (Qlt_le_dec 1 y); lra.
Qed.

Lemma clamp_code (x : Q) : Py.max2 0 (Py.min2 x 1) == clamp01 x.
Proof.
  unfold Py.max2, Py.min2, clamp01.
  destruct (Py.Qltb 1 x) eqn:H1.
  - apply Qltb_lt in H1.
    destruct (Py.Qltb 0 1) eqn:H0; [| apply Qltb_ge in H0; lra].
    destruct (Qlt_le_dec x 0); [lra |]. destruct (Qlt_le_dec 1 x); lra.
  - apply Qltb_ge in H1.
    destruct (Py.Qltb 0 x) eqn:H0.
    + apply Qltb_lt in H0.
      destruct (Qlt_le_dec x 0); [lra |]. destruct (Qlt_le_dec 1 x); lra.
    + apply Qltb_ge in H0.
      destruct (Qlt_le_dec x 0); [lra |]. destruct (Qlt_le_dec 1 x); lra.
Qed.

Lemma existsb_In (z : Z) (l : list Z) : existsb (Z.eqb z) l = true -> In z l.
Proof.
  intros H. apply existsb_exists in H as (x & Hin & E).
  apply Z.eqb_eq in E. subst. exact Hin.
Qed.

(** ** The hit-probability model in binary64 *)

Module HitFacts.
Import PrimInt63 PrimFloat.

Lemma clamp_code64 (x : PrimFloat.float) :
  Binary64.max2 PrimFloat.zero (Binary64.min2 x PrimFloat.one) = Spec64.clamp01 x.
Proof.
  unfold Binary64.max2, Binary64.min2, Spec64.clamp01.
  destruct (PrimFloat.ltb PrimFloat.one x); reflexivity.
Qed.

Lemma option_mod_code64 sl spot strike :
  GameEngine64.option_type sl = "call" \/ GameEngine64.option_type sl = "put" ->
  (if String.eqb (GameEngine64.option_type sl) "call"
   then (if Binary64.gt_int spot strike then Binary64.lit 11 10 else Binary64.lit 9 10)
   else (if Binary64.lt_int spot strike then Binary64.lit 11 10 else Binary64.lit 9 10))
  = Spec64.option_mod sl spot strike.
Proof.
  unfold Spec64.option_mod. intros [-> | ->]; simpl.
  - destruct (Binary64.gt_int spot strike); reflexivity.
  - destruct (Binary64.lt_int spot strike); reflexivity.
Qed.

(** The modifiers and the clamp of the code are those of the
    specification. *)
Lemma final_hit_chance64 mk sl spot strike base p :
  GameEngine64.option_type sl = "call" \/ GameEngine64.option_type sl = "put" ->
  GameEngine64.final_hit_chance mk sl spot strike base = Ok p ->
  exists gamma,
    GameEngine64.GAMMA_STRENGTH mk !! strike = Some gamma /\
    p = Spec64.clamp01
          (PrimFloat.mul (PrimFloat.mul (PrimFloat.mul (PrimFloat.mul (PrimFloat.mul
             (PrimFloat.mul base
                (PrimFloat.sub PrimFloat.one
                   (PrimFloat.div (GameEngine64.IMPLIED_VOL mk) (PrimFloat.of_uint63 100))))
                (PrimFloat.sub PrimFloat.one
                   (PrimFloat.div gamma (PrimFloat.of_uint63 10))))
                (PrimFloat.div PrimFloat.one
                   (Binary64.max2 (Binary64.lit 1 10)
                      (Binary64.quotient (GameEngine64.dte sl) 30))))
                (PrimFloat.add PrimFloat.one
                   (PrimFloat.mul (GameEngine64.accuracy sl) (Binary64.lit 2 10))))
                (PrimFloat.add PrimFloat.one
                   (PrimFloat.mul (GameEngine64.power sl) (Binary64.lit 1 10))))
             (Spec64.option_mod sl spot strike)).
Proof.
  intros Hopt. unfold GameEngine64.final_hit_chance.
  destruct (GameEngine64.GAMMA_STRENGTH mk !! strike) as [gamma |]; [| discriminate].
  cbn [res_bind].
  unfold Binary64.int_truediv, Binary64.in_range. cbn [Z.eqb].
  destruct (PrimFloat.is_infinity (Binary64.quotient (GameEngine64.dte sl) 30));
    [discriminate |].
  cbn [res_bind]. unfold Binary64.truediv.
  destruct (PrimFloat.is_zero _); [discriminate |].
  cbn [res_bind]. rewrite (option_mod_code64 sl spot strike Hopt), clamp_code64.
  intros H. injection H as <-. exists gamma. split; reflexivity.
Qed.

End HitFacts.

(** C1.  For a slingshot that is a call or a put, a resolved attempt has
    snapped the strike into the universe and computed, in binary64, the
    clamp to [[0, 1]] of the product of the specification at that strike,
    with the base chance halved exactly when the strike is among the
    strikes the monkey agent predicted; the hit is the next draw of the
    random source compared, strictly, with that probability. *)
Theorem hit_probability_formula (mk : GameEngine64.Market) (sl : GameEngine64.Slingshot)
    (defense : option (list Z)) (draws : nat -> PrimFloat.float)
    (spot : PrimFloat.float) (strike : Z) hit retail mm rest :
  GameEngine64.option_type sl = "call" \/ GameEngine64.option_type sl = "put" ->
  GameEngine64.simulate_slingshot_hit mk sl defense draws spot strike
  = Ok (hit, retail, mm, rest) ->
  exists snapped gamma,
    GameEngine._get_valid_strike (GameEngine64.valid_strikes mk) (inject_Z strike)
    = Ok snapped /\
    In snapped (GameEngine64.valid_strikes mk) /\
    GameEngine64.GAMMA_STRENGTH mk !! snapped = Some gamma /\
    let defended := Spec64.defended defense snapped in
    let p := Spec64.hit_probability (GameEngine64.IMPLIED_VOL mk) gamma sl spot snapped
               defended in
    GameEngine64.final_hit_chance mk sl spot snapped
      (Spec64.base_chance spot snapped defended) = Ok p /\
    hit = PrimFloat.ltb (draws (if defended then 1 else 0)%nat) p /\
    rest = if defended then (fun n => draws (S (S n))) else (fun n => draws (S n)).
Proof.
  intros Hopt H. unfold GameEngine64.simulate_slingshot_hit in H.
  destruct (if existsb (Z.eqb strike) (GameEngine64.valid_strikes mk) then _ else _)
    as [snapped | err] eqn:Hsnap; [| discriminate].
  assert (Hs : GameEngine._get_valid_strike (GameEngine64.valid_strikes mk)
                 (inject_Z strike) = Ok snapped).
  { destruct (existsb (Z.eqb strike) (GameEngine64.valid_strikes mk)) eqn:E.
    - injection Hsnap as <-. apply snap_member. apply existsb_In. exact E.
    - exact Hsnap. }
  assert (Hin : In snapped (GameEngine64.valid_strikes mk)).
  { destruct (GameEngine64.valid_strikes mk) as [| v l] eqn:Ev.
    - unfold GameEngine._get_valid_strike in Hs. simpl in Hs. discriminate.
    - destruct (snap_nearest (v :: l) (inject_Z strike)) as (k & Hk & Hkin & _);
        [discriminate |].
      rewrite Hs in Hk. injection Hk as ->. exact Hkin. }
  clear Hsnap. cbn [res_bind] in H.
  unfold Binary64.int_to_float, Binary64.in_range in H.
  destruct (PrimFloat.is_infinity (Binary64.of_Z snapped)); [discriminate |].
  cbn [res_bind] in H. unfold Binary64.truediv at 1 in H.
  destruct (PrimFloat.is_zero _); [discriminate |].
  cbn [res_bind] in H.
  set (base0 := PrimFloat.div _ _) in H.
  assert (Hdef : GameEngine64.monkey_defense defense snapped base0 draws
                 = (Spec64.base_chance spot snapped (Spec64.defended defense snapped),
                    if Spec64.defended defense snapped
                    then (fun n => draws (S n)) else draws)).
  { unfold GameEngine64.monkey_defense, Spec64.defended, Spec64.base_chance.
    fold base0. destruct defense as [l |]; [| reflexivity].
    destruct (existsb (Z.eqb snapped) l); reflexivity. }
  rewrite Hdef in H.
  destruct (GameEngine64.final_hit_chance mk sl spot snapped _) as [p | err] eqn:Hp;
    [| discriminate].
  cbn [res_bind] in H. injection H as <- _ _ <-.
  destruct (HitFacts.final_hit_chance64 _ _ _ _ _ _ Hopt Hp) as (gamma & Hg & ->).
  exists snapped, gamma.
  split; [exact Hs |]. split; [exact Hin |]. split; [exact Hg |].
  cbv zeta. split; [exact Hp |].
  destruct (Spec64.defended defense snapped); split; reflexivity.
Qed.

Lemma hit_probability_formula_witness :
  exists snapped gamma,
    GameEngine._get_valid_strike (GameEngine64.valid_strikes Demo64.market) (inject_Z 627)
    = Ok snapped /\
    In snapped (GameEngine64.valid_strikes Demo64.market) /\
    GameEngine64.GAMMA_STRENGTH Demo64.market !! snapped = Some gamma /\
    let defended := Spec64.defended None snapped in
    let p := Spec64.hit_probability (GameEngine64.IMPLIED_VOL Demo64.market) gamma
               Demo64.sling (Binary64.of_Z 628) snapped defended in
    GameEngine64.final_hit_chance Demo64.market Demo64.sling (Binary64.of_Z 628) snapped
      (Spec64.base_chance (Binary64.of_Z 628) snapped defended) = Ok p /\
    fst (fst (fst Demo64.outcome))
    = PrimFloat.ltb (Demo64.draws (if defended then 1 else 0)%nat) p /\
    snd Demo64.outcome
    = if defended then (fun n => Demo64.draws (S (S n))) else (fun n => Demo64.draws (S n)).
Proof.
  apply (hit_probability_formula Demo64.market Demo64.sling None Demo64.draws
           (Binary64.of_Z 628) 627 (fst (fst (fst Demo64.outcome)))
           (snd (fst (fst Demo64.outcome))) (snd (fst Demo64.outcome))
           (snd Demo64.outcome)).
  - left. reflexivity.
  - vm_compute. reflexivity.
Defined.

(** The rounding of the product decides the attempt of the example: in the
    reals the product [0.5 * 1.25 * 1.25 * 1.1] is the draw 0.859375
    itself; in binary64 it is the next double, and the attempt is a hit. *)
Module HitExample.
Import PrimInt63 PrimFloat.

Lemma rounding_decides_the_hit :
  GameEngine64.final_hit_chance Demo64.market Demo64.sling (Binary64.of_Z 628) 627
    (Binary64.lit 5 10)
  = Ok 0x1.b800000000001p-1%float /\
  Demo64.draws 0%nat = 0x1.b8p-1%float /\
  fst (fst (fst Demo64.outcome)) = true.
Proof. repeat split; vm_compute; reflexivity. Qed.

End HitExample.

(** ** The flight of a coconut *)

Lemma jitter_bounds (acc u : Q) :
  0 <= u <= 1 -> acc <= 1 -> 1 - (1 - acc) <= jitter acc u <= 1 + (1 - acc).
Proof. unfold jitter. intros Hu Hacc. nra. Qed.

(** C6, as amended.  An update that does not end the flight moves the
    coconut to the linear interpolation, at the advanced parameter [t],
    between its position before the update and the target, the [x] of it
    multiplied by the jitter factor of one draw (within
    [[1-(1-accuracy), 1+(1-accuracy)]] for a draw in [[0, 1]]), and the [y]
    lowered by the arc offset [100 * power * t * (1 - t)]. *)
Theorem coconut_flight_step (w : World Coconut.t) :
  let c := obj w in
  let t' := Coconut.t_ c + Coconut.speed c * power (Coconut.slingshot c) in
  (0 < Coconut.frames_remaining c - 1)%Z ->
  t' < 1 ->
  exists w',
    Coconut.update w = Ok (tt, w') /\
    Coconut.x (obj w')
    = ((1 - t') * Coconut.x c + t' * Coconut.target_x c)
      * jitter (accuracy (Coconut.slingshot c)) (rng w 0%nat) /\
    Coconut.y (obj w')
    = ((1 - t') * Coconut.y c + t' * Coconut.target_y c)
      - 100 * power (Coconut.slingshot c) * t' * (1 - t') /\
    Coconut.t_ (obj w') = t' /\
    Coconut.frames_remaining (obj w') = (Coconut.frames_remaining c - 1)%Z /\
    Coconut.alive (obj w') = Coconut.alive c /\
    (0 <= rng w 0%nat <= 1 -> accuracy (Coconut.slingshot c) <= 1 ->
     1 - (1 - accuracy (Coconut.slingshot c))
     <= jitter (accuracy (Coconut.slingshot c)) (rng w 0%nat)
     <= 1 + (1 - accuracy (Coconut.slingshot c))).
Proof.
  intros c t' Hframes Ht.
  unfold Coconut.update, bind, get. simpl. fold c.
  destruct (Coconut.frames_remaining c - 1 <=? 0)%Z eqn:E; [lia |].
  fold t'.
  destruct (Qle_bool 1 t') eqn:E1.
  { apply Qle_bool_iff in E1. lra. }
  eexists. split; [reflexivity |]. simpl.
  repeat split; try reflexivity; apply jitter_bounds; assumption.
Qed.

Lemma coconut_flight_step_witness :
  exists w',
    Coconut.update Demo.flight0 = Ok (tt, w') /\
    Coconut.x (obj w') = ((1 - (0 + (2 # 100) * (12 # 10))) * 640
                          + (0 + (2 # 100) * (12 # 10)) * 110) * jitter 1 (1 # 2) /\
    Coconut.y (obj w') = ((1 - (0 + (2 # 100) * (12 # 10))) * 0
                          + (0 + (2 # 100) * (12 # 10)) * 600)
                         - 100 * (12 # 10) * (0 + (2 # 100) * (12 # 10))
                           * (1 - (0 + (2 # 100) * (12 # 10))) /\
    Coconut.t_ (obj w') = 0 + (2 # 100) * (12 # 10) /\
    Coconut.frames_remaining (obj w') = (180 - 1)%Z /\
    Coconut.alive (obj w') = true /\
    (0 <= 1 # 2 <= 1 -> 1 <= 1 ->
     1 - (1 - 1) <= jitter 1 (1 # 2) <= 1 + (1 - 1)).
Proof.
  apply (coconut_flight_step Demo.flight0).
  - reflexivity.
  - reflexivity.
Defined.


(** C6, as stated, fails on the second update of a flight: the position is
    interpolated from where the first update left the coconut, not from the
    launch point (640, 0), whatever the jitter factor. *)
Lemma second_update_leaves_launch_line :
  Coconut.update Demo.flight0 = Ok (tt, Demo.flight1) /\
  Coconut.update Demo.flight1 = Ok (tt, Demo.flight2) /\
  Coconut.alive (obj Demo.flight2) = true /\
  forall factor,
    1 - (1 - 1) <= factor <= 1 + (1 - 1) ->
    ~ Coconut.x (obj Demo.flight2)
      == ((1 - Coconut.t_ (obj Demo.flight2)) * 640
          + Coconut.t_ (obj Demo.flight2) * 110) * factor.
Proof.
  split; [vm_compute; reflexivity |].
  split; [vm_compute; reflexivity |].
  split; [reflexivity |].
  intros factor Hf Heq.
  assert (Hx : Coconut.x (obj Demo.flight2) == 60245056 # 100000)
    by (vm_compute; reflexivity).
  assert (Ht : Coconut.t_ (obj Demo.flight2) == 48 # 1000)
    by (vm_compute; reflexivity).
  rewrite Hx, Ht in Heq. lra.
Qed.

(** ** Sorting by score *)

Section SortedDesc.
Context {A : Type} (key : A -> Q).

Local Abbreviation before := (before key).

Lemma insert_desc_perm (x : A) (l : list A) :
  Permutation (Py.insert_desc key x l) (x :: l).
Proof.
  induction l as [| y l IH]; simpl.
  - apply Permutation_refl.
  - destruct (Qle_bool (key y) (key x)).
    + apply Permutation_refl.
    + apply perm_trans with (y :: x :: l).
      * apply perm_skip. exact IH.
      * apply perm_swap.
Qed.

Lemma sorted_desc_perm (l : list A) : Permutation (Py.sorted_desc key l) l.
Proof.
  induction l as [| x l IH]; simpl.
  - apply perm_nil.
  - apply perm_trans with (x :: Py.sorted_desc key l).
    + apply insert_desc_perm.
    + apply perm_skip. exact IH.
Qed.

Lemma insert_desc_sorted (x : A) (l : list A) :
  StronglySorted before l -> StronglySorted before (Py.insert_desc key x l).
Proof.
  induction 1 as [| y l Hs IH Hy]; simpl.
  - constructor; constructor.
  - destruct (Qle_bool (key y) (key x)) eqn:E.
    + apply Qle_bool_iff in E.
      constructor; [constructor; assumption |].
      constructor; [exact E |].
      eapply Forall_impl; [exact Hy |].
      intros b Hb. unfold before in *. lra.
    + assert (Hlt : key x < key y).
      { destruct (Qlt_le_dec (key x) (key y)) as [H | H]; [exact H |].
        apply Qle_bool_iff in H. congruence. }
      constructor; [exact IH |].
      apply (Permutation_Forall (Permutation_sym (insert_desc_perm x l))).
      constructor; [unfold before; lra | exact Hy].
Qed.

Lemma sorted_desc_sorted (l : list A) : StronglySorted before (Py.sorted_desc key l).
Proof.
  induction l as [| x l IH]; simpl.
  - constructor.
  - apply insert_desc_sorted. exact IH.
Qed.

Lemma skipn_In (l : list A) (k : nat) (b : A) : In b (skipn k l) -> In b l.
Proof.
  revert k. induction l as [| y l IH]; intros k H.
  - destruct k; exact H.
  - destruct k as [| k]; [exact H |]. right. apply (IH k). exact H.
Qed.

(** In a sorted list, whatever is kept by a cut scores at least as much as
    whatever is dropped. *)
Lemma sorted_cut (l : list A) (k : nat) (a b : A) :
  StronglySorted before l ->
  In a (firstn k l) -> In b (skipn k l) -> key b <= key a.
Proof.
  intros Hs. revert k. induction Hs as [| y l Hs IH Hy]; intros k Ha Hb.
  - destruct k; destruct Ha.
  - destruct k as [| k]; simpl in *; [destruct Ha |].
    destruct Ha as [<- | Ha].
    + rewrite Forall_forall in Hy. apply Hy.
      apply list_elem_of_In. apply (skipn_In l k). exact Hb.
    + apply (IH k); assumption.
Qed.
End SortedDesc.

(** ** The order of the doubles *)

Module Binary64Order.
Import PrimFloat SpecFloat FloatOps FloatAxioms.

Lemma SFltb_rank (a b : spec_float) :
  a <> S754_nan -> b <> S754_nan ->
  (SFltb a b = true <-> Binary64.lex_lt (Binary64.rank a) (Binary64.rank b)).
Proof.
  intros Ha Hb. unfold SFltb, Binary64.lex_lt.
  destruct a as [sa | sa | | sa ma ea]; [| | congruence |];
    destruct b as [sb | sb | | sb mb eb]; try congruence;
    try destruct sa; try destruct sb; cbn [SFcompare Binary64.rank fst snd];
    try (split; [discriminate | lia]);
    try (split; [lia | reflexivity]).
  - change (Pos.compare_cont Eq ma mb) with (Pos.compare ma mb).
    destruct (Z.compare_spec ea eb) as [-> | H | H].
    + destruct (Pos.compare_spec ma mb) as [-> | H | H]; cbn [CompOpp];
        (split; [try discriminate; lia | try reflexivity; lia]).
    + split; [discriminate | lia].
    + split; [lia | reflexivity].
  - change (Pos.compare_cont Eq ma mb) with (Pos.compare ma mb).
    destruct (Z.compare_spec ea eb) as [-> | H | H].
    + destruct (Pos.compare_spec ma mb) as [-> | H | H];
        (split; [try discriminate; lia | try reflexivity; lia]).
    + split; [lia | reflexivity].
    + split; [discriminate | lia].
Qed.

Lemma is_nan_spec (x : float) : is_nan x = false <-> Prim2SF x <> S754_nan.
Proof.
  unfold is_nan. rewrite negb_false_iff, eqb_spec. unfold SFeqb.
  destruct (Prim2SF x) as [s | s | | s m e] eqn:E.
  - split; [discriminate | reflexivity].
  - destruct s; (split; [discriminate | reflexivity]).
  - split; [discriminate | congruence].
  - destruct s; cbn [SFcompare]; rewrite Z.compare_refl;
      change (Pos.compare_cont Eq m m) with (Pos.compare m m);
      rewrite Pos.compare_refl; (split; [discriminate | reflexivity]).
Qed.

Lemma ltb_nan_l (x y : float) : is_nan x = true -> (x <? y)%float = false.
Proof.
  intros H. destruct (Prim2SF x) eqn:Ex;
    try (assert (is_nan x = false) by (apply is_nan_spec; congruence); congruence).
  rewrite ltb_spec, Ex. reflexivity.
Qed.

Lemma ltb_nan_r (x y : float) : is_nan y = true -> (x <? y)%float = false.
Proof.
  intros H. destruct (Prim2SF y) eqn:Ey;
    try (assert (is_nan y = false) by (apply is_nan_spec; congruence); congruence).
  rewrite ltb_spec, Ey. unfold SFltb. destruct (Prim2SF x); reflexivity.
Qed.

(** [<] on doubles is asymmetric. *)
Lemma ltb_asym (x y : float) : (x <? y)%float = true -> (y <? x)%float = false.
Proof.
  intros H.
  destruct (is_nan x) eqn:Ex; [rewrite ltb_nan_l in H by exact Ex; discriminate |].
  destruct (is_nan y) eqn:Ey; [rewrite ltb_nan_r in H by exact Ey; discriminate |].
  apply is_nan_spec in Ex, Ey.
  rewrite ltb_spec in *.
  apply (SFltb_rank _ _ Ex Ey) in H.
  destruct (SFltb (Prim2SF y) (Prim2SF x)) eqn:E; [| reflexivity].
  apply (SFltb_rank _ _ Ey Ex) in E. unfold Binary64.lex_lt in *. lia.
Qed.

(** Among doubles that are not NaN, "not less" is transitive. *)
Lemma ltb_false_trans (x y z : float) :
  is_nan y = false ->
  (x <? y)%float = false -> (y <? z)%float = false -> (x <? z)%float = false.
Proof.
  intros Ey H1 H2.
  destruct (is_nan x) eqn:Ex; [apply ltb_nan_l; exact Ex |].
  destruct (is_nan z) eqn:Ez; [apply ltb_nan_r; exact Ez |].
  apply is_nan_spec in Ex, Ey, Ez.
  rewrite ltb_spec in *.
  destruct (SFltb (Prim2SF x) (Prim2SF z)) eqn:E; [| reflexivity].
  apply (SFltb_rank _ _ Ex Ez) in E.
  assert (N1 : ~ Binary64.lex_lt (Binary64.rank (Prim2SF x)) (Binary64.rank (Prim2SF y))).
  { intros H. apply (SFltb_rank _ _ Ex Ey) in H. congruence. }
  assert (N2 : ~ Binary64.lex_lt (Binary64.rank (Prim2SF y)) (Binary64.rank (Prim2SF z))).
  { intros H. apply (SFltb_rank _ _ Ey Ez) in H. congruence. }
  unfold Binary64.lex_lt in *. lia.
Qed.

End Binary64Order.

(** ** Sorting by a binary64 score *)

Section SortedDesc64.
Context {A : Type}.
Variable key : A -> PrimFloat.float.

Lemma insert_desc64_perm (x : A) (l : list A) :
  Permutation (Binary64.insert_desc key x l) (x :: l).
Proof.
  induction l as [| y l IH]; simpl.
  - apply Permutation_refl.
  - destruct (PrimFloat.ltb (key x) (key y)).
    + apply perm_trans with (y :: x :: l).
      * apply perm_skip. exact IH.
      * apply perm_swap.
    + apply Permutation_refl.
Qed.

Lemma sorted_desc64_perm (l : list A) : Permutation (Binary64.sorted_desc key l) l.
Proof.
  induction l as [| x l IH]; simpl.
  - apply perm_nil.
  - apply perm_trans with (x :: Binary64.sorted_desc key l).
    + apply insert_desc64_perm.
    + apply perm_skip. exact IH.
Qed.

Lemma insert_desc64_sorted (x : A) (l : list A) :
  (forall y, In y l -> PrimFloat.is_nan (key y) = false) ->
  StronglySorted (Spec64.not_below key) l ->
  StronglySorted (Spec64.not_below key) (Binary64.insert_desc key x l).
Proof.
  intros Hnan Hs. induction Hs as [| y l Hs IH Hy]; simpl.
  - constructor; constructor.
  - destruct (PrimFloat.ltb (key x) (key y)) eqn:E.
    + constructor.
      * apply IH. intros z Hz. apply Hnan. right. exact Hz.
      * apply (Permutation_Forall (Permutation_sym (insert_desc64_perm x l))).
        constructor; [| exact Hy].
        unfold Spec64.not_below. apply Binary64Order.ltb_asym. exact E.
    + constructor; [constructor; assumption |].
      constructor; [exact E |].
      eapply Forall_impl; [exact Hy |].
      intros b Hb. unfold Spec64.not_below in *.
      apply (Binary64Order.ltb_false_trans _ (key y)); [| exact E | exact Hb].
      apply Hnan. left. reflexivity.
Qed.

Lemma sorted_desc64_sorted (l : list A) :
  (forall y, In y l -> PrimFloat.is_nan (key y) = false) ->
  StronglySorted (Spec64.not_below key) (Binary64.sorted_desc key l).
Proof.
  induction l as [| x l IH]; simpl; intros Hnan.
  - constructor.
  - apply insert_desc64_sorted.
    + intros y Hy. apply Hnan. right.
      apply (Permutation_in _ (sorted_desc64_perm l)). exact Hy.
    + apply IH. intros y Hy. apply Hnan. right. exact Hy.
Qed.

(** In a sorted list, whatever a cut keeps may stand before whatever it
    drops. *)
Lemma sorted_cut64 (R : A -> A -> Prop) (l : list A) (k : nat) (a b : A) :
  StronglySorted R l ->
  In a (firstn k l) -> In b (skipn k l) -> R a b.
Proof.
  intros Hs. revert k. induction Hs as [| y l Hs IH Hy]; intros k Ha Hb.
  - destruct k; destruct Ha.
  - destruct k as [| k]; simpl in *; [destruct Ha |].
    destruct Ha as [<- | Ha].
    + rewrite Forall_forall in Hy. apply Hy.
      apply list_elem_of_In. apply (skipn_In l k). exact Hb.
    + apply (IH k); assumption.
Qed.

End SortedDesc64.

(** ** The memory store in binary64 *)

Lemma slice_to_nonneg {A} (n : Z) (l : list A) :
  (0 <= n)%Z -> Py.slice_to n l = firstn (Z.to_nat n) l.
Proof.
  intros H. unfold Py.slice_to.
  destruct (0 <=? n)%Z eqn:E; [reflexivity | lia].
Qed.

(** The scoring loop pairs every memory with its specified score, reading
    the clock once per memory, and leaves the store alone; it gets through
    only when every timestamp is a naive time. *)
Lemma score_loop64 (ms : list MemoryLogger64.Memory) (w : World MemoryLogger64.t)
    scored w' :
  mapM MemoryLogger64.score_memory ms w = Ok (scored, w') ->
  scored = Spec64.scores_at (now w) ms /\ obj w' = obj w /\
  forall m, In m ms -> exists seconds, MemoryLogger64.timestamp m = MemoryLogger64.Naive seconds.
Proof.
  revert w scored w'. induction ms as [| m ms IH]; intros w scored w' H.
  - injection H as <- <-. split; [reflexivity |]. split; [reflexivity |]. intros m [].
  - simpl in H.
    apply bind_ok in H as (y & w1 & Hy & H).
    apply bind_ok in H as (ys & w2 & Hys & H).
    injection H as <- <-.
    unfold MemoryLogger64.score_memory in Hy.
    apply bind_ok in Hy as (t_now & w0 & Hnow & Hy). injection Hnow as <- <-.
    apply bind_ok in Hy as (age & w0 & Hage & Hy). apply lift_ok in Hage as [Hage ->].
    apply bind_ok in Hy as (f & w0 & Hf & Hy). apply lift_ok in Hf as [Hf ->].
    apply bind_ok in Hy as (tenths & w0 & Ht & Hy). apply lift_ok in Ht as [Ht ->].
    injection Hy as <- <-.
    destruct (MemoryLogger64.timestamp m) as [seconds | seconds | |] eqn:Ets;
      try discriminate.
    injection Hage as <-.
    unfold Binary64.truediv in Hf.
    destruct (PrimFloat.is_zero _); [discriminate |]. injection Hf as <-.
    unfold Binary64.int_truediv, Binary64.in_range in Ht. simpl in Ht.
    destruct (PrimFloat.is_infinity _); [discriminate |]. injection Ht as <-.
    apply IH in Hys as (-> & -> & Hall).
    split.
    { simpl. unfold Spec64.score, Spec64.age_decay, Spec64.age_at. rewrite Ets.
      reflexivity. }
    split; [reflexivity |].
    intros m' [<- | Hm']; [exists seconds; exact Ets | apply Hall; exact Hm'].
Qed.

Lemma scores_at64_length clock ms : length (Spec64.scores_at clock ms) = length ms.
Proof.
  revert clock. induction ms as [| m ms IH]; intros clock; simpl; [| rewrite IH]; reflexivity.
Qed.

Lemma curate_ok64 (w w' : World MemoryLogger64.t) :
  MemoryLogger64._curate_memories w = Ok (tt, w') ->
  obj w' = MemoryLogger64.set_memories
             (map fst (Py.slice_to (MemoryLogger64.max_memories (obj w))
                         (Binary64.sorted_desc snd
                            (Spec64.scores_at (now w) (MemoryLogger64.memories (obj w))))))
             (obj w) /\
  forall m, In m (MemoryLogger64.memories (obj w)) ->
            exists seconds, MemoryLogger64.timestamp m = MemoryLogger64.Naive seconds.
Proof.
  unfold MemoryLogger64._curate_memories. intros H.
  apply bind_ok in H as (lg & w0 & Hget & H). injection Hget as <- <-.
  apply bind_ok in H as (scored & w1 & Hs & H).
  apply score_loop64 in Hs as (-> & Ho & Hall).
  injection H as <-. simpl. rewrite Ho. split; [reflexivity | exact Hall].
Qed.

Lemma add_memory_ok64 c imp (w w' : World MemoryLogger64.t) :
  MemoryLogger64.add_memory c imp w = Ok (tt, w') ->
  MemoryLogger64.max_memories (obj w') = MemoryLogger64.max_memories (obj w) /\
  ((0 <= MemoryLogger64.max_memories (obj w))%Z ->
   (Z.of_nat (length (MemoryLogger64.memories (obj w')))
    <= MemoryLogger64.max_memories (obj w))%Z).
Proof.
  unfold MemoryLogger64.add_memory, MemoryLogger64.new_memory. intros H.
  apply bind_ok in H as (m & w1 & Hm & H).
  apply bind_ok in Hm as (ts & w0 & Hts & Hm). injection Hts as <- <-.
  injection Hm as <- <-.
  apply bind_ok in H as (? & w2 & Hmod & H). injection Hmod as _ <-.
  apply bind_ok in H as (lg & w3 & Hget & H). injection Hget as <- <-.
  simpl in H.
  destruct (MemoryLogger64.max_memories (obj w) <? _)%Z eqn:E.
  - apply curate_ok64 in H as [H _]. rewrite H. simpl. split; [reflexivity |].
    intros Hmax. rewrite slice_to_nonneg by exact Hmax.
    rewrite length_map, length_firstn. lia.
  - injection H as <-. simpl. split; [reflexivity |]. intros _. lia.
Qed.

Lemma add_all_max64 calls (w w' : World MemoryLogger64.t) :
  Spec64.add_all calls w = Ok (tt, w') ->
  MemoryLogger64.max_memories (obj w') = MemoryLogger64.max_memories (obj w).
Proof.
  revert w. induction calls as [| [c imp] calls IH]; intros w H; simpl in H.
  - injection H as <-. reflexivity.
  - apply bind_ok in H as ([] & w1 & H1 & H).
    apply add_memory_ok64 in H1 as [E _]. rewrite <- E. apply IH. exact H.
Qed.

(** C3.  With a capacity that is not negative, after any sequence of
    [add_memory] calls a call that returns leaves at most [max_memories]
    memories.  A curation that returns has found a naive time in every
    timestamp; when no score is NaN it keeps the first [max_memories]
    memories of the stable ranking by decreasing score, the score being
    [importance * (1 + references/10) * age_decay] with
    [age_decay = 1 / (1 + age_seconds/86400)], evaluated in binary64 as
    the program evaluates it: the kept and the dropped memories together
    are the scored ones, and no kept memory scores less than a dropped
    one. *)
Theorem memory_bounded_and_curated :
  (forall calls c imp (w w1 w2 : World MemoryLogger64.t),
      (0 <= MemoryLogger64.max_memories (obj w))%Z ->
      Spec64.add_all calls w = Ok (tt, w1) ->
      MemoryLogger64.add_memory c imp w1 = Ok (tt, w2) ->
      (Z.of_nat (length (MemoryLogger64.memories (obj w2)))
       <= MemoryLogger64.max_memories (obj w))%Z) /\
  (forall (w w' : World MemoryLogger64.t),
      (0 <= MemoryLogger64.max_memories (obj w))%Z ->
      MemoryLogger64._curate_memories w = Ok (tt, w') ->
      let scored := Spec64.scores_at (now w) (MemoryLogger64.memories (obj w)) in
      let ranked := Binary64.sorted_desc snd scored in
      let n := Z.to_nat (MemoryLogger64.max_memories (obj w)) in
      (forall e, In e scored -> PrimFloat.is_nan (snd e) = false) ->
      (forall m, In m (MemoryLogger64.memories (obj w)) ->
         exists seconds, MemoryLogger64.timestamp m = MemoryLogger64.Naive seconds) /\
      MemoryLogger64.memories (obj w') = map fst (firstn n ranked) /\
      length (MemoryLogger64.memories (obj w'))
      = Nat.min n (length (MemoryLogger64.memories (obj w))) /\
      Permutation (firstn n ranked ++ skipn n ranked) scored /\
      StronglySorted (Spec64.not_below snd) ranked /\
      forall kept dropped,
        In kept (firstn n ranked) -> In dropped (skipn n ranked) ->
        PrimFloat.ltb (snd kept) (snd dropped) = false).
Proof.
  split.
  - intros calls c imp w w1 w2 Hmax Hcalls Hadd.
    apply add_all_max64 in Hcalls.
    apply add_memory_ok64 in Hadd as [_ Hadd].
    rewrite Hcalls in Hadd. apply Hadd. exact Hmax.
  - intros w w' Hmax H scored ranked n Hnan.
    apply curate_ok64 in H as [H Hnaive]. rewrite H. simpl.
    rewrite slice_to_nonneg by exact Hmax. fold scored ranked n.
    split; [exact Hnaive |].
    split; [reflexivity |].
    split.
    { rewrite length_map, length_firstn. unfold ranked.
      rewrite (Permutation_length (sorted_desc64_perm snd scored)).
      unfold scored. rewrite scores_at64_length. reflexivity. }
    split.
    { rewrite firstn_skipn. apply sorted_desc64_perm. }
    assert (Hsorted : StronglySorted (Spec64.not_below snd) ranked)
      by (apply sorted_desc64_sorted; exact Hnan).
    split; [exact Hsorted |].
    intros kept dropped Hk Hd.
    apply (sorted_cut64 (Spec64.not_below snd) ranked n kept dropped Hsorted Hk Hd).
Qed.

Lemma memory_bounded_and_curated_witness :
  (Z.of_nat (length (MemoryLogger64.memories (obj Demo64.after_add))) <= 1)%Z /\
  MemoryLogger64.memories (obj Demo64.after_curation)
  = map fst (firstn 1 (Binary64.sorted_desc snd
                         (Spec64.scores_at (now Demo64.store)
                            (MemoryLogger64.memories (obj Demo64.store))))).
Proof.
  split.
  - apply (proj1 memory_bounded_and_curated [] "Missed call strike 630"
             Demo64.half Demo64.store Demo64.store Demo64.after_add).
    + vm_compute. discriminate.
    + reflexivity.
    + vm_compute. reflexivity.
  - destruct (proj2 memory_bounded_and_curated Demo64.store Demo64.after_curation)
      as (_ & Hkept & _).
    + vm_compute. discriminate.
    + vm_compute. reflexivity.
    + intros e He. vm_compute in He.
      destruct He as [<- | [<- | []]]; reflexivity.
    + exact Hkept.
Defined.

Module RankingExample.
Import PrimInt63 PrimFloat.

(** The ranking is by the binary64 scores: of the two memories of the
    example, of one age, the second scores [0.5 * 2.1], which is above the
    [0.7 * 1.5] of the first although the two products are equal in the
    reals, and it is the one a curation keeps. *)
Lemma rounding_decides_the_ranking :
  map snd (Spec64.scores_at (now Demo64.store)
             (MemoryLogger64.memories (obj Demo64.store)))
  = [0x1.0ca5003510ca4p+0; 0x1.0ca5003510ca5p+0]%float /\
  map MemoryLogger64.content (MemoryLogger64.memories (obj Demo64.after_curation))
  = ["Missed call strike 635"].
Proof. split; vm_compute; reflexivity. Qed.

End RankingExample.

(** ** The memory store of the engine *)

(** With a clock that never runs behind a timestamp, scoring never divides
    by zero, so [add_memory] returns. *)
Lemma score_loop_returns (ms : list MemoryLogger.Memory) (w : World MemoryLogger.t) :
  (forall m n, In m ms -> MemoryLogger.timestamp m <= now w n) ->
  exists w', mapM MemoryLogger.score_memory ms w = Ok (scores_at (now w) ms, w').
Proof.
  revert w. induction ms as [| m ms IH]; intros w Hts.
  - eexists. reflexivity.
  - simpl. unfold bind at 1. unfold MemoryLogger.score_memory at 1.
    unfold bind at 1. unfold datetime_now at 1. cbv zeta.
    unfold bind at 1, lift, MemoryLogger.age_factor, Py.div.
    destruct (Qeq_bool (1 + (now w 0%nat - MemoryLogger.timestamp m) / 86400) 0) eqn:E.
    { apply Qeq_bool_iff in E.
      change ((now w 0%nat - MemoryLogger.timestamp m) / 86400)
        with ((now w 0%nat - MemoryLogger.timestamp m) * (1 # 86400)) in E.
      pose proof (Hts m 0%nat (or_introl eq_refl)). lra. }
    unfold ret at 1. unfold bind at 1.
    destruct (IH (mkWorld (rng w) (fun n => now w (S n)) (obj w))) as [w' Hw'].
    { intros m' n Hin. simpl. apply Hts. right. exact Hin. }
    rewrite Hw'. eexists. reflexivity.
Qed.

Lemma add_memory_returns c imp (w : World MemoryLogger.t) :
  (forall m n, In m (MemoryLogger.memories (obj w)) -> MemoryLogger.timestamp m <= now w n) ->
  (forall n, now w 0%nat <= now w n) ->
  exists w', MemoryLogger.add_memory c imp w = Ok (tt, w').
Proof.
  intros Hts Hmono.
  unfold MemoryLogger.add_memory, MemoryLogger.new_memory, bind, datetime_now, ret,
    modify, get. simpl.
  destruct (MemoryLogger.max_memories (obj w) <? _)%Z; [| eexists; reflexivity].
  unfold MemoryLogger._curate_memories, bind, get. simpl.
  edestruct (score_loop_returns
               (MemoryLogger.memories (obj w)
                ++ [MemoryLogger.mkMemory c imp (now w 0%nat) 0])
               (mkWorld (rng w) (fun n => now w (S n))
                  (MemoryLogger.set_memories
                     (MemoryLogger.memories (obj w)
                      ++ [MemoryLogger.mkMemory c imp (now w 0%nat) 0]) (obj w))))
    as [w' Hw'].
  { intros m n Hin. simpl. apply in_app_or in Hin as [Hin | [<- | []]].
    - apply Hts. exact Hin.
    - simpl. apply Hmono. }
  rewrite Hw'. eexists. reflexivity.
Qed.

(** ** Retrieval *)

Lemma match_bonus_nonneg ctx m : 0 <= MemoryLogger.match_bonus ctx m.
Proof.
  unfold MemoryLogger.match_bonus.
  repeat match goal with
         | |- context [if ?b then _ else _] => destruct b
         end; lra.
Qed.

Lemma visited_positive ctx m u : 0 < u -> visited ctx m u = referenced m.
Proof.
  intros Hu. unfold visited.
  destruct (Py.Qltb 0 (relevance ctx m u)) eqn:E; [reflexivity |].
  apply Qltb_ge in E. unfold relevance in E.
  pose proof (match_bonus_nonneg ctx m). lra.
Qed.

Lemma consider_loop ctx (ms : list MemoryLogger.Memory) (w : World MemoryLogger.t) :
  exists vs w',
    mapM (MemoryLogger.consider ctx) ms w = Ok (vs, w') /\
    map fst vs = visit_all (rng w) ctx ms /\
    obj w' = obj w /\
    forall e, In e (omap snd vs) -> In (fst e) (map fst vs).
Proof.
  revert w. induction ms as [| m ms IH]; intros w.
  - eexists _, _. split; [reflexivity |]. repeat split. intros e [].
  - destruct (IH (mkWorld (fun n => rng w (S n)) (now w) (obj w)))
      as (vs & w' & Hvs & Hfst & Hobj & Hin).
    simpl. unfold bind at 1. unfold MemoryLogger.consider at 1.
    unfold bind at 1, random at 1. cbv zeta.
    unfold visited at 1, relevance.
    destruct (Py.Qltb 0 (MemoryLogger.match_bonus ctx m + rng w 0%nat * (1 # 10))).
    + unfold ret at 1. unfold bind at 1. rewrite Hvs.
      eexists _, _. split; [reflexivity |].
      split; [simpl; rewrite Hfst; reflexivity |].
      split; [exact Hobj |].
      intros e [<- | He]; [left; reflexivity | right; apply Hin; exact He].
    + unfold ret at 1. unfold bind at 1. rewrite Hvs.
      eexists _, _. split; [reflexivity |].
      split; [simpl; rewrite Hfst; reflexivity |].
      split; [exact Hobj |].
      intros e He. right. apply Hin. exact He.
Qed.

Lemma visit_all_nth draws ctx ms i m :
  nth_error ms i = Some m ->
  nth_error (visit_all draws ctx ms) i = Some (visited ctx m (draws i)).
Proof.
  revert draws i. induction ms as [| m0 ms IH]; intros draws i H.
  - destruct i; discriminate.
  - destruct i as [| i]; simpl in *.
    + injection H as ->. reflexivity.
    + apply (IH (fun n => draws (S n))). exact H.
Qed.

Lemma visit_all_length draws ctx ms : length (visit_all draws ctx ms) = length ms.
Proof.
  revert draws. induction ms as [| m ms IH]; intros draws; simpl; [| rewrite IH]; reflexivity.
Qed.

Lemma slice_to_In {A} (n : Z) (l : list A) (x : A) : In x (Py.slice_to n l) -> In x l.
Proof.
  unfold Py.slice_to. destruct (0 <=? n)%Z; intros H.
  - rewrite <- (firstn_skipn (Z.to_nat n) l). apply in_or_app. left. exact H.
  - rewrite <- (firstn_skipn (length l - Z.to_nat (- n)) l).
    apply in_or_app. left. exact H.
Qed.

(** C7, as amended.  A retrieval always returns; it increments by exactly 1
    the references of every memory whose relevance, exploration draw
    included, is positive, whether the memory is returned or not, and leaves
    the other memories alone; when every draw is positive that is every
    memory of the store.  The memories returned are among those of the
    store after the call. *)
Theorem retrieval_references (ctx : MemoryLogger.Context) (limit : Z)
    (w : World MemoryLogger.t) :
  exists result w',
    MemoryLogger.get_relevant_memories ctx limit w = Ok (result, w') /\
    MemoryLogger.memories (obj w') = visit_all (rng w) ctx (MemoryLogger.memories (obj w)) /\
    length (MemoryLogger.memories (obj w')) = length (MemoryLogger.memories (obj w)) /\
    (forall i m,
        nth_error (MemoryLogger.memories (obj w)) i = Some m ->
        nth_error (MemoryLogger.memories (obj w')) i
        = Some (if Py.Qltb 0 (relevance ctx m (rng w i)) then referenced m else m)) /\
    ((forall i, 0 < rng w i) ->
     forall i m,
       nth_error (MemoryLogger.memories (obj w)) i = Some m ->
       nth_error (MemoryLogger.memories (obj w')) i = Some (referenced m)) /\
    (forall m, In m result -> In m (MemoryLogger.memories (obj w'))).
Proof.
  destruct (consider_loop ctx (MemoryLogger.memories (obj w)) w)
    as (vs & w1 & Hvs & Hfst & Hobj & Hin).
  unfold MemoryLogger.get_relevant_memories.
  unfold bind at 1, get at 1. unfold bind at 1. rewrite Hvs.
  unfold bind, modify, ret. simpl.
  eexists _, _. split; [reflexivity |]. simpl.
  split; [exact Hfst |].
  split; [rewrite Hfst; apply visit_all_length |].
  split.
  { intros i m Hi. rewrite Hfst. apply (visit_all_nth _ _ _ _ _ Hi). }
  split.
  { intros Hpos i m Hi. rewrite Hfst.
    rewrite (visit_all_nth _ _ _ _ _ Hi). f_equal. apply visited_positive. apply Hpos. }
  intros m Hm. apply in_map_iff in Hm as (e & <- & He).
  apply slice_to_In in He.
  apply (Permutation_in _ (sorted_desc_perm snd _)) in He.
  apply Hin. exact He.
Qed.

(** C7, as stated, fails when the exploration draw is 0.0 and nothing
    matches: the relevance is not positive and no counter moves. *)
Lemma zero_draw_leaves_references :
  MemoryLogger.get_relevant_memories Demo.no_match 5 Demo.zero_draws
  = Ok ([], Demo.after_retrieval) /\
  map MemoryLogger.references (MemoryLogger.memories (obj Demo.zero_draws)) = [0; 2; 0]%Z /\
  map MemoryLogger.references (MemoryLogger.memories (obj Demo.after_retrieval))
  = [0; 2; 0]%Z.
Proof.
  split; [vm_compute; reflexivity |]. split; vm_compute; reflexivity.
Qed.

Lemma retrieval_references_witness :
  exists result w',
    MemoryLogger.get_relevant_memories Demo.no_match 0 Demo.half_draws = Ok (result, w') /\
    forall i m,
      nth_error (MemoryLogger.memories (obj Demo.half_draws)) i = Some m ->
      nth_error (MemoryLogger.memories (obj w')) i = Some (referenced m).
Proof.
  destruct (retrieval_references Demo.no_match 0 Demo.half_draws)
    as (result & w' & Hrun & _ & _ & _ & Hall & _).
  exists result, w'. split; [exact Hrun |].
  apply Hall. intros n. reflexivity.
Defined.

(** ** The retail agent without a profile *)

Lemma max_from_spec {A} (key : A -> Q) (l : list A) (best : A) :
  In (Py.max_from key best l) (best :: l) /\
  forall x, In x (best :: l) -> key x <= key (Py.max_from key best l).
Proof.
  revert best. induction l as [| y l IH]; intros best; simpl.
  - split; [left; reflexivity |]. intros x [<- | []]. lra.
  - destruct (IH (if Py.Qltb (key best) (key y) then y else best)) as [Hin Hmax].
    split.
    + destruct Hin as [Hin | Hin]; [| right; right; exact Hin].
      destruct (Py.Qltb (key best) (key y)); [right; left | left]; exact Hin.
    + intros x Hx.
      destruct (Py.Qltb (key best) (key y)) eqn:E.
      * apply Qltb_lt in E.
        destruct Hx as [<- | [<- | Hx]].
        -- specialize (Hmax y (or_introl eq_refl)). lra.
        -- apply Hmax. left; reflexivity.
        -- apply Hmax. right; exact Hx.
      * apply Qltb_ge in E.
        destruct Hx as [<- | [<- | Hx]].
        -- apply Hmax. left; reflexivity.
        -- specialize (Hmax best (or_introl eq_refl)). lra.
        -- apply Hmax. right; exact Hx.
Qed.

Lemma od_set_keys {V} (k : Z) (v : V) (d : OD.t V) (k' : Z) :
  In k' (map fst (OD.set k v d)) <-> k' = k \/ In k' (map fst d).
Proof.
  induction d as [| [k0 v0] d IH]; simpl.
  - intuition.
  - destruct (k0 =? k)%Z eqn:E; simpl.
    + apply Z.eqb_eq in E. subst. intuition.
    + rewrite IH. intuition.
Qed.

Lemma od_set_In {V} (k : Z) (v : V) (d : OD.t V) : In (k, v) (OD.set k v d).
Proof.
  induction d as [| [k0 v0] d IH]; simpl.
  - left. reflexivity.
  - destruct (k0 =? k)%Z eqn:E.
    + apply Z.eqb_eq in E. subst. left. reflexivity.
    + right. exact IH.
Qed.

Lemma od_set_entries {V} (k : Z) (v : V) (d : OD.t V) (e : Z * V) :
  In e (OD.set k v d) -> e = (k, v) \/ In e d.
Proof.
  induction d as [| [k0 v0] d IH]; simpl.
  - intros [<- | []]. left. reflexivity.
  - destruct (k0 =? k)%Z eqn:E.
    + apply Z.eqb_eq in E. subst. intros [<- | H]; [left; reflexivity | right; right; exact H].
    + intros [<- | H]; [right; left; reflexivity |].
      destruct (IH H) as [-> | H']; [left; reflexivity | right; right; exact H'].
Qed.

Lemma od_set_NoDup {V} (k : Z) (v : V) (d : OD.t V) :
  NoDup (map fst d) -> NoDup (map fst (OD.set k v d)).
Proof.
  induction d as [| [k0 v0] d IH]; simpl; intros H.
  - constructor; [| constructor]. apply not_elem_of_nil.
  - apply NoDup_cons in H as [Hk0 Hd].
    destruct (k0 =? k)%Z eqn:E; simpl.
    + apply NoDup_cons. split; assumption.
    + apply NoDup_cons. split; [| apply IH; exact Hd].
      rewrite list_elem_of_In, od_set_keys. intros [-> | Hin].
      * rewrite Z.eqb_refl in E. discriminate.
      * apply Hk0. apply list_elem_of_In. exact Hin.
Qed.

Lemma od_get_In {V} (d : OD.t V) (e : Z * V) :
  NoDup (map fst d) -> In e d -> OD.get (fst e) d = Some (snd e).
Proof.
  induction d as [| [k0 v0] d IH]; simpl; intros Hnd Hin; [destruct Hin |].
  apply NoDup_cons in Hnd as [Hk0 Hd].
  destruct Hin as [<- | Hin]; simpl.
  - rewrite Z.eqb_refl. reflexivity.
  - destruct (k0 =? fst e)%Z eqn:E.
    + apply Z.eqb_eq in E. subst. exfalso. apply Hk0.
      apply list_elem_of_In. apply in_map. exact Hin.
    + apply IH; assumption.
Qed.

Lemma scored_by_set f k v d :
  f k = Ok v -> scored_by f d -> scored_by f (OD.set k v d).
Proof.
  intros Hf [Hnd Hval]. split; [apply od_set_NoDup; exact Hnd |].
  intros e He. apply od_set_entries in He as [-> | He]; [exact Hf | apply Hval; exact He].
Qed.

(** A scoring loop whose body never raises fills the dictionary with the
    score of every strike. *)
Lemma score_all_total (f : Z -> Res Q) (strikes : list Z) (acc : OD.t Q) :
  (forall s, In s strikes -> exists v, f s = Ok v) ->
  scored_by f acc ->
  exists d,
    score_all f strikes acc = Ok d /\
    scored_by f d /\
    (forall k, In k (map fst d) <-> In k strikes \/ In k (map fst acc)).
Proof.
  revert acc. induction strikes as [| s strikes IH]; intros acc Hf Hacc; simpl.
  - exists acc. split; [reflexivity |]. split; [exact Hacc |]. intuition.
  - destruct (Hf s (or_introl eq_refl)) as [v Hv]. rewrite Hv. simpl.
    destruct (IH (OD.set s v acc)) as (d & Hd & Hsc & Hkeys).
    + intros s' Hs'. apply Hf. right. exact Hs'.
    + apply scored_by_set; assumption.
    + exists d. split; [exact Hd |]. split; [exact Hsc |].
      intros k. rewrite Hkeys, od_set_keys. intuition.
Qed.

Lemma default_strike_score a gs strike :
  exists v, RetailAgent.strike_score a RetailAgent.default_weights gs strike = Ok v.
Proof. unfold RetailAgent.strike_score. eexists. reflexivity. Qed.

Lemma no_profile_weights pm gs :
  Profiles.get_active_profile pm "retail" = Ok None ->
  Profiles.apply_profile_to_agent pm "retail" gs = Ok ∅.
Proof. intros H. unfold Profiles.apply_profile_to_agent. rewrite H. reflexivity. Qed.

Lemma bind_eq {O A B} (m : M O A) (k : A -> M O B) w a w1 :
  m w = Ok (a, w1) -> bind m k w = k a w1.
Proof. intros H. unfold bind. rewrite H. reflexivity. Qed.

Lemma update_metrics_ok game_state (w : World RetailAgent.t) :
  RetailAgent._update_game_state_metrics game_state w
  = Ok (RetailAgent.with_metrics game_state
          (recent_rate (RetailAgent.recent_hits (obj w)))
          (inject_Z (RetailAgent.max_crowd
                       (RetailAgent.update_crowd game_state
                          (RetailAgent.crowd_size (obj w))))),
        mkWorld (rng w) (now w) (with_crowd game_state (obj w))).
Proof. reflexivity. Qed.

Lemma min2_Qmin (a b : Q) : Py.min2 a b == Qmin a b.
Proof.
  unfold Py.min2. destruct (Py.Qltb b a) eqn:H.
  - apply Qltb_lt in H. symmetry. apply Q.min_r. lra.
  - apply Qltb_ge in H. symmetry. apply Q.min_l. exact H.
Qed.

Lemma default_score_formula game_state a strike :
  exists v, default_score game_state a strike = Ok v /\
            v == spec_default_score game_state a strike.
Proof.
  unfold default_score, RetailAgent.strike_score. eexists. split; [reflexivity |].
  unfold spec_default_score. rewrite min2_Qmin.
  change (RetailAgent.target_history (with_crowd game_state a))
    with (RetailAgent.target_history a).
  ring.
Qed.

(** C5, as amended.  With no profile loaded and a strike set that is not
    empty, [select_target] does not raise: it returns a strike of the set
    together with the confidence [min(score, 1)], where [score] is the
    score of that strike under the default weights, not a fixed 0.5; it
    draws no random number and records the strike as the last target. *)
Theorem select_target_without_profile (pm : Profiles.ProfileManager)
    (game_state : GameState) (w : World RetailAgent.t) :
  Profiles.get_active_profile pm "retail" = Ok None ->
  gs_strikes game_state <> [] ->
  exists target score w',
    RetailAgent.select_target pm game_state w = Ok ((target, Py.min2 score 1), w') /\
    In target (gs_strikes game_state) /\
    score == spec_default_score game_state (obj w) target /\
    rng w' = rng w /\
    RetailAgent.last_target (obj w') = Some target.
Proof.
  intros Hnone Hne.
  set (a' := with_crowd game_state (obj w)).
  set (gs' := RetailAgent.with_metrics game_state
                (recent_rate (RetailAgent.recent_hits (obj w)))
                (inject_Z (RetailAgent.max_crowd
                             (RetailAgent.update_crowd game_state
                                (RetailAgent.crowd_size (obj w)))))).
  destruct (score_all_total
              (RetailAgent.strike_score a' RetailAgent.default_weights gs')
              (gs_strikes gs') [])
    as (d & Hd & [Hnd Hval] & Hkeys).
  { intros s _. apply default_strike_score. }
  { split; [constructor | intros e []]. }
  change (gs_strikes gs') with (gs_strikes game_state) in Hkeys.
  destruct d as [| e0 d].
  { destruct (gs_strikes game_state) as [| s l]; [congruence |].
    exfalso. apply (proj2 (Hkeys s)). left. left. reflexivity. }
  destruct (max_from_spec snd d e0) as [Hbest Hmax].
  set (best := Py.max_from snd e0 d) in *.
  assert (Hscore : forall e, In e (e0 :: d) ->
                             snd e == spec_default_score game_state (obj w) (fst e)).
  { intros e He.
    destruct (default_score_formula game_state (obj w) (fst e)) as (v & Hv & Hform).
    pose proof (Hval e He) as He'.
    change (RetailAgent.strike_score a' RetailAgent.default_weights gs' (fst e))
      with (default_score game_state (obj w) (fst e)) in He'.
    rewrite Hv in He'. injection He' as <-. exact Hform. }
  exists (fst best), (snd best).
  unfold RetailAgent.select_target.
  rewrite (bind_eq _ _ _ _ _ (update_metrics_ok game_state w)). fold gs' a'.
  erewrite bind_eq; [| unfold lift; rewrite (no_profile_weights pm _ Hnone); reflexivity].
  cbv zeta. change (Profiles.is_empty (∅ : gmap string Q)) with true. cbv iota.
  erewrite bind_eq; [| unfold get; reflexivity]. cbn [obj].
  erewrite bind_eq; [| unfold lift; rewrite Hd; reflexivity].
  erewrite bind_eq.
  2:{ erewrite bind_eq.
      2:{ unfold RetailAgent.fomo.
          erewrite bind_eq; [| unfold lift; rewrite Hnone; reflexivity].
          reflexivity. }
      erewrite bind_eq; [| reflexivity]. fold best.
      rewrite (od_get_In (e0 :: d) best Hnd Hbest). reflexivity. }
  erewrite bind_eq; [| reflexivity].
  eexists. split; [reflexivity |]. cbn [obj rng now RetailAgent.last_target fst snd].
  split.
  { destruct (Hkeys (fst best)) as [Hk _].
    destruct Hk as [Hk | []]; [| exact Hk]. apply in_map. exact Hbest. }
  split; [apply Hscore; exact Hbest |].
  split; reflexivity.
Qed.

Lemma select_target_without_profile_witness :
  exists target score w',
    RetailAgent.select_target Demo.no_profiles Demo.game_state Demo.fresh_retail
    = Ok ((target, Py.min2 score 1), w') /\
    In target [625; 630; 635]%Z /\
    score == spec_default_score Demo.game_state RetailAgent.init target /\
    rng w' = rng Demo.fresh_retail /\
    RetailAgent.last_target (obj w') = Some target.
Proof.
  apply (select_target_without_profile Demo.no_profiles Demo.game_state Demo.fresh_retail).
  - reflexivity.
  - discriminate.
Defined.

(** C5, as stated, fails on both fallbacks: on an empty strike set the call
    raises [IndexError], and without a profile the confidence is the score
    of the chosen strike, here 18/35, not 0.5. *)
Lemma select_target_fallbacks_fail :
  RetailAgent.select_target Demo.no_profiles Demo.no_strikes Demo.fresh_retail
  = Raise IndexError /\
  RetailAgent.select_target Demo.no_profiles Demo.game_state Demo.fresh_retail
  = Ok ((630%Z, 180000 # 350000), Demo.after_select) /\
  ~ (180000 # 350000 == 1 # 2).
Proof.
  split; [reflexivity |].
  split; [vm_compute; reflexivity |].
  intros H. vm_compute in H. discriminate.
Qed.

(** ** An attempt is resolved *)

Lemma In_existsb (z : Z) (l : list Z) : In z l -> existsb (Z.eqb z) l = true.
Proof.
  intros H. apply existsb_exists. exists z. split; [exact H | apply Z.eqb_refl].
Qed.

(** With the monkey's AI off, a strike of the universe that has a gamma and
    a retail memory whose clock never runs behind its timestamps, an attempt
    is always resolved. *)
Lemma simulate_returns str_float spot strike (w : World GameEngine.t) :
  GameEngine.ai_monkey (obj w) = false ->
  In strike (GameEngine.valid_strikes (obj w)) ->
  is_Some (GAMMA_STRENGTH (GameEngine.config (obj w)) !! strike) ->
  (forall m n, In m (MemoryLogger.memories (GameEngine.retail_memory (obj w))) ->
               MemoryLogger.timestamp m <= now w n) ->
  (forall n, now w 0%nat <= now w n) ->
  exists outcome w',
    GameEngine.simulate_slingshot_hit str_float spot strike w = Ok (outcome, w').
Proof.
  intros Hoff Hin [gamma Hgamma] Hts Hmono.
  unfold GameEngine.simulate_slingshot_hit.
  erewrite bind_eq; [| reflexivity].
  rewrite (In_existsb _ _ Hin).
  erewrite bind_eq; [| reflexivity]. cbv zeta.
  erewrite bind_eq.
  2:{ unfold GameEngine.monkey_defense. erewrite bind_eq; [| reflexivity].
      simpl. rewrite Hoff. reflexivity. }
  erewrite bind_eq; [| reflexivity]. cbn [obj lift].
  rewrite Hgamma.
  erewrite bind_eq; [| reflexivity].
  erewrite bind_eq; [| reflexivity].
  erewrite bind_eq; [| reflexivity].
  cbn [rng now obj].
  match goal with
  | |- context [bind (zoom _ _ (if ?h then MemoryLogger.add_memory ?c1 ?i1
                                else MemoryLogger.add_memory ?c2 ?i2)) _ ?w0] =>
      destruct (add_memory_returns (if h then c1 else c2) (if h then i1 else i2)
                  (mkWorld (rng w0) (now w0) (GameEngine.retail_memory (obj w0))))
        as [wm Hwm];
      [ intros m n Hm; apply Hts; exact Hm
      | intros n; apply Hmono
      | unfold bind at 1, zoom at 1; destruct h; rewrite Hwm; eexists _, _; reflexivity ]
  end.
Qed.

(** ** One frame of the engine *)

Lemma on_coconut_ok c m (w : World GameEngine.t) c' w' :
  GameEngine.on_coconut c m w = Ok (c', w') ->
  obj w' = obj w /\
  m (mkWorld (rng w) (now w) c) = Ok (tt, mkWorld (rng w') (now w') c').
Proof.
  unfold GameEngine.on_coconut.
  destruct (m _) as [[[] wc] | err]; [| discriminate].
  intros H. injection H as <- <-. destruct wc. split; reflexivity.
Qed.

(** An update of a coconut uses up one frame of its budget, never changes
    the outcome it carries, and leaves it alive only with budget left. *)
Lemma coconut_update_ok (wc wc' : World Coconut.t) :
  Coconut.update wc = Ok (tt, wc') ->
  Coconut.frames_remaining (obj wc') = (Coconut.frames_remaining (obj wc) - 1)%Z /\
  Coconut.strike (obj wc') = Coconut.strike (obj wc) /\
  Coconut.hit (obj wc') = Coconut.hit (obj wc) /\
  Coconut.retail_juice (obj wc') = Coconut.retail_juice (obj wc) /\
  Coconut.mm_juice (obj wc') = Coconut.mm_juice (obj wc) /\
  (Coconut.alive (obj wc') = true ->
   (0 < Coconut.frames_remaining (obj wc'))%Z /\ Coconut.alive (obj wc) = true).
Proof.
  unfold Coconut.update. intros H.
  apply bind_ok in H as (c & w0 & Hget & H). injection Hget as <- <-.
  cbv zeta in H.
  destruct (Coconut.frames_remaining (obj wc) - 1 <=? 0)%Z eqn:E.
  { injection H as <-. simpl. repeat split; discriminate. }
  apply Z.leb_gt in E.
  destruct (Qle_bool 1 _).
  { injection H as <-. simpl. repeat split; discriminate. }
  apply bind_ok in H as (f & w1 & _ & H). injection H as <-. simpl.
  repeat split; auto.
Qed.

(** Folding an outcome into the aggregates: a miss changes nothing; a hit
    adds one hit and the two shares at the snapped strike. *)
Lemma update_game_state_ok strike hit retail mm (w w' : World GameEngine.t) :
  GameEngine._update_game_state strike hit retail mm w = Ok (tt, w') ->
  rng w' = rng w /\ now w' = now w /\
  if hit then
    exists k n rj mj,
      GameEngine._get_valid_strike (GameEngine.valid_strikes (obj w)) (inject_Z strike)
      = Ok k /\
      GameEngine.tree_hits (obj w) !! k = Some n /\
      GameEngine.retail_juice (obj w) !! k = Some rj /\
      GameEngine.mm_juice (obj w) !! k = Some mj /\
      obj w' = GameEngine.set_stats
                 (<[k := (n + 1)%Z]> (GameEngine.tree_hits (obj w)))
                 (<[k := rj + retail]> (GameEngine.retail_juice (obj w)))
                 (<[k := mj + mm]> (GameEngine.mm_juice (obj w))) (obj w)
  else obj w' = obj w.
Proof.
  unfold GameEngine._update_game_state. intros H.
  apply bind_ok in H as (e & w0 & Hget & H). injection Hget as <- <-.
  apply bind_ok in H as (k & w0 & Hk & H). apply lift_ok in Hk as [Hk ->].
  destruct hit.
  - apply bind_ok in H as (hits & w0 & Hh & H). apply lift_ok in Hh as [Hh ->].
    apply bind_ok in H as (rj' & w0 & Hr & H). apply lift_ok in Hr as [Hr ->].
    apply bind_ok in H as (mj' & w0 & Hm & H). apply lift_ok in Hm as [Hm ->].
    injection H as <-. simpl. split; [reflexivity |]. split; [reflexivity |].
    unfold GameEngine.bump in *.
    destruct (GameEngine.tree_hits (obj w) !! k) as [n |] eqn:En; [| discriminate].
    destruct (GameEngine.retail_juice (obj w) !! k) as [rj |] eqn:Er; [| discriminate].
    destruct (GameEngine.mm_juice (obj w) !! k) as [mj |] eqn:Em; [| discriminate].
    injection Hh as <-. injection Hr as <-. injection Hm as <-.
    exists k, n, rj, mj. repeat split; assumption.
  - injection H as <-. repeat split.
Qed.

Lemma update_game_state_but_stats strike hit retail mm :
  keeps same_but_stats (GameEngine._update_game_state strike hit retail mm).
Proof.
  intros w [] w' H. apply update_game_state_ok in H as (_ & _ & H).
  destruct hit.
  - destruct H as (k & n & rj & mj & _ & _ & _ & _ & ->). reflexivity.
  - rewrite H. reflexivity.
Qed.

Lemma on_coconut_keeps R `{!PreOrder R} c m : keeps R (GameEngine.on_coconut c m).
Proof.
  intros w c' w' H. apply on_coconut_ok in H as [-> _]. reflexivity.
Qed.

Lemma advance_all_but_stats cs : keeps same_but_stats (GameEngine.advance_all cs).
Proof.
  induction cs as [| c cs IH]; simpl.
  - apply keeps_ret; instance.
  - apply keeps_bind; instance; [apply on_coconut_keeps; instance |].
    intros c'. destruct (Coconut.alive c').
    + apply keeps_bind; instance; [exact IH |]. intros. apply keeps_ret; instance.
    + apply keeps_bind; instance; [apply update_game_state_but_stats |].
      intros. exact IH.
Qed.

(** The survivors of a pass over the live list have each used one frame
    and still have budget left. *)
Lemma advance_all_survivors cs (w : World GameEngine.t) cs' w' :
  GameEngine.advance_all cs w = Ok (cs', w') ->
  (length cs' <= length cs)%nat /\
  forall c', In c' cs' ->
    exists c, In c cs /\
      Coconut.frames_remaining c' = (Coconut.frames_remaining c - 1)%Z /\
      (0 < Coconut.frames_remaining c')%Z /\
      Coconut.alive c' = true.
Proof.
  revert w cs' w'. induction cs as [| c cs IH]; intros w cs' w' H; simpl in H.
  - injection H as <- _. split; [reflexivity |]. intros c' [].
  - apply bind_ok in H as (c1 & w1 & Hc & H).
    apply on_coconut_ok in Hc as [_ Hc].
    apply coconut_update_ok in Hc as (Hf & _ & _ & _ & _ & Halive). simpl in Hf, Halive.
    destruct (Coconut.alive c1) eqn:E.
    + apply bind_ok in H as (rest & w2 & Hrest & H). injection H as <- _.
      apply IH in Hrest as [Hlen Hrest]. split; [simpl; lia |].
      intros c' [<- | Hin].
      * exists c. split; [left; reflexivity |].
        destruct (Halive eq_refl) as [Hpos _]. auto.
      * destruct (Hrest c' Hin) as (c0 & Hc0 & Hrest').
        exists c0. split; [right; exact Hc0 | exact Hrest'].
    + apply bind_ok in H as ([] & w2 & _ & H).
      apply IH in H as [Hlen Hrest]. split; [simpl; lia |].
      intros c' Hin. destruct (Hrest c' Hin) as (c0 & Hc0 & Hrest').
      exists c0. split; [right; exact Hc0 | exact Hrest'].
Qed.

Lemma launch_none str_float targets (w : World GameEngine.t) :
  (TRIALS (GameEngine.config (obj w)) <= GameEngine.frame (obj w))%Z ->
  GameEngine.launch_coconut str_float targets w = Ok (None, w).
Proof.
  intros H. unfold GameEngine.launch_coconut, bind, get.
  destruct (TRIALS (GameEngine.config (obj w)) <=? GameEngine.frame (obj w))%Z eqn:E;
    [reflexivity | lia].
Qed.

(** A launch that yields a coconut happens below the trial cap; the coconut
    is fresh and carries the split of its outcome. *)
Lemma launch_some str_float targets (w : World GameEngine.t) c w' :
  GameEngine.launch_coconut str_float targets w = Ok (Some c, w') ->
  (GameEngine.frame (obj w) < TRIALS (GameEngine.config (obj w)))%Z /\
  same_core (obj w) (obj w') /\
  Coconut.alive c = true /\
  Coconut.frames_remaining c = (dte (GameEngine.current_slingshot (obj w)) * 60)%Z /\
  (Coconut.retail_juice c, Coconut.mm_juice c) = juice_split_Q (Coconut.hit c).
Proof.
  intros H. pose proof (launch_coconut_core _ _ _ _ _ H) as Hcore.
  unfold GameEngine.launch_coconut in H.
  apply bind_ok in H as (e & w0 & Hget & H). injection Hget as <- <-.
  destruct (TRIALS (GameEngine.config (obj w)) <=? GameEngine.frame (obj w))%Z eqn:E;
    [discriminate |].
  apply Z.leb_gt in E. split; [exact E |]. split; [exact Hcore |].
  apply bind_ok in H as (target & w1 & _ & H).
  apply bind_ok in H as ([[hit retail] mm] & w2 & Hsim & H).
  apply simulate_returns_split in Hsim.
  apply bind_ok in H as (tree & w3 & _ & H).
  apply bind_ok in H as (speed & w4 & _ & H).
  apply bind_ok in H as (e4 & w5 & Hget & H). injection Hget as <- <-.
  injection H as <- <-. simpl.
  split; [reflexivity |]. split; [| exact Hsim].
  unfold same_core, same, core in Hcore.
  injection Hcore as _ _ _ _ _ _ _ _ _ _ _ _ _ _ Hsl _. rewrite Hsl. reflexivity.
Qed.

(** The shape of a frame that is not paused: a launch, the new coconut
    appended and counted, then one pass over the live list. *)
Lemma update_ok str_float targets (w w' : World GameEngine.t) :
  GameEngine.update str_float targets w = Ok (tt, w') ->
  GameEngine.paused (obj w) = false ->
  exists launched w1 survivors w2,
    GameEngine.launch_coconut str_float targets w = Ok (launched, w1) /\
    let e1 := match launched with
              | Some c =>
                  GameEngine.set_frame (GameEngine.frame (obj w1) + 1)
                    (GameEngine.set_coconuts (GameEngine.coconuts (obj w1) ++ [c]) (obj w1))
              | None => obj w1
              end in
    GameEngine.advance_all (GameEngine.coconuts e1) (mkWorld (rng w1) (now w1) e1)
    = Ok (survivors, w2) /\
    w' = mkWorld (rng w2) (now w2) (GameEngine.set_coconuts survivors (obj w2)).
Proof.
  unfold GameEngine.update. intros H Hp.
  apply bind_ok in H as (e & w0 & Hget & H). injection Hget as <- <-.
  rewrite Hp in H.
  apply bind_ok in H as (launched & w1 & Hl & H).
  exists launched, w1.
  apply bind_ok in H as ([] & w1' & Hm & H).
  apply bind_ok in H as (e1 & w1'' & Hget & H). injection Hget as <- <-.
  apply bind_ok in H as (survivors & w2 & Ha & H).
  injection H as <-.
  exists survivors, w2. split; [exact Hl |].
  destruct launched as [c |].
  - injection Hm as <-. simpl in *. split; [exact Ha | reflexivity].
  - injection Hm as <-. destruct w1. simpl in *. split; [exact Ha | reflexivity].
Qed.

Lemma update_paused str_float targets (w : World GameEngine.t) :
  GameEngine.paused (obj w) = true ->
  GameEngine.update str_float targets w = Ok (tt, w).
Proof.
  intros Hp. unfold GameEngine.update, bind, get. rewrite Hp. reflexivity.
Qed.

(** A frame never touches the configuration, and counts exactly the
    coconut it launches. *)
Lemma update_frame str_float targets (w w' : World GameEngine.t) :
  GameEngine.update str_float targets w = Ok (tt, w') ->
  GameEngine.config (obj w') = GameEngine.config (obj w) /\
  ((GameEngine.frame (obj w') = GameEngine.frame (obj w) /\
    (GameEngine.paused (obj w) = true \/
     exists w1, GameEngine.launch_coconut str_float targets w = Ok (None, w1))) \/
   (GameEngine.frame (obj w') = (GameEngine.frame (obj w) + 1)%Z /\
    GameEngine.paused (obj w) = false /\
    (GameEngine.frame (obj w) < TRIALS (GameEngine.config (obj w)))%Z /\
    exists c w1, GameEngine.launch_coconut str_float targets w = Ok (Some c, w1))).
Proof.
  intros H. destruct (GameEngine.paused (obj w)) eqn:Hp.
  { rewrite (update_paused _ _ _ Hp) in H. injection H as <-.
    split; [reflexivity |]. left. split; [reflexivity | left; reflexivity]. }
  destruct (update_ok _ _ _ _ H Hp) as (launched & w1 & survivors & w2 & Hl & Ha & ->).
  pose proof (launch_coconut_core _ _ _ _ _ Hl) as Hcore.
  apply advance_all_but_stats in Ha. simpl in Ha.
  unfold same_core, same, core in Hcore.
  injection Hcore as Hcfg _ _ _ _ _ Hfr _ _ _ _ _ _ _ _ _.
  unfold same_but_stats, same, but_stats in Ha.
  injection Ha as Hcfg2 _ _ _ _ _ _ Hfr2 _ _ _ _ _ _ _ _ _.
  simpl. rewrite <- Hcfg2, <- Hfr2.
  destruct launched as [c |]; simpl.
  - split; [symmetry; exact Hcfg |]. right.
    split; [rewrite Hfr; reflexivity |]. split; [reflexivity |].
    split; [apply (launch_some _ _ _ _ _ Hl) | eauto].
  - split; [symmetry; exact Hcfg |]. left.
    split; [symmetry; exact Hfr | right; eauto].
Qed.

(** ** The trial cap *)

Lemma init_frame config pm rl ml e :
  GameEngine.init config pm rl ml = Ok e ->
  GameEngine.config e = config /\ GameEngine.frame e = 0%Z /\
  GameEngine.paused e = false /\ GameEngine.coconuts e = [].
Proof.
  unfold GameEngine.init.
  destruct (Py.sorted_asc inject_Z (STRIKES config)); [discriminate |].
  destruct (SLINGSHOTS config !! DEFAULT_SLINGSHOT config); [| discriminate].
  intros H. injection H as <-. repeat split.
Qed.

Lemma switch_to_frame agent names idx (w : World GameEngine.t) b w' :
  GameEngine.switch_to agent names idx w = Ok (b, w') ->
  GameEngine.config (obj w') = GameEngine.config (obj w) /\
  GameEngine.frame (obj w') = GameEngine.frame (obj w).
Proof.
  unfold GameEngine.switch_to. intros H.
  apply bind_ok in H as (e & w0 & Hget & H). injection Hget as <- <-.
  apply bind_ok in H as (n & w0 & Hn & H). apply lift_ok in Hn as [_ ->].
  cbv zeta in H. apply bind_ok in H as ([] & w1 & Hp & H).
  injection Hp as <-. injection H as _ <-. split; reflexivity.
Qed.

(** No operation changes the trial cap, and only a frame that launches
    moves the frame counter up. *)
Lemma run_op_frame str_float targets op (w w' : World GameEngine.t) :
  run_op str_float targets op w = Ok (tt, w') ->
  TRIALS (GameEngine.config (obj w')) = TRIALS (GameEngine.config (obj w)) /\
  (GameEngine.frame (obj w') = GameEngine.frame (obj w) \/
   GameEngine.frame (obj w') = 0%Z \/
   (GameEngine.frame (obj w') = (GameEngine.frame (obj w) + 1)%Z /\
    (GameEngine.frame (obj w) < TRIALS (GameEngine.config (obj w)))%Z)).
Proof.
  destruct op; simpl; intros H.
  - apply update_frame in H as [Hcfg [[Hf _] | (Hf & _ & Hlt & _)]].
    + rewrite Hcfg. auto.
    + rewrite Hcfg. auto.
  - injection H as <-. simpl. auto.
  - injection H as <-. simpl.
    destruct (String.eqb agent_type "retail"); [simpl; auto |].
    destruct (String.eqb agent_type "monkey"); simpl; auto.
  - apply bind_ok in H as (b & w1 & H & Hret). injection Hret as <-.
    unfold GameEngine.switch_profile in H.
    apply bind_ok in H as (e & w0 & Hget & H). injection Hget as <- <-.
    destruct (_ && _).
    { apply switch_to_frame in H as [-> ->]. auto. }
    destruct (_ && _).
    { apply switch_to_frame in H as [-> ->]. auto. }
    injection H as _ <-. auto.
  - apply bind_ok in H as (b & w1 & H & Hret). injection Hret as <-.
    unfold GameEngine.switch_slingshot in H.
    apply bind_ok in H as (e & w0 & Hget & H). injection Hget as <- <-.
    destruct (SLINGSHOTS _ !! _).
    + apply bind_ok in H as ([] & w2 & Hp & H). injection Hp as <-.
      injection H as _ <-. simpl. auto.
    + injection H as _ <-. auto.
  - injection H as <-. simpl. auto.
  - injection H as <-. simpl. auto.
Qed.

Lemma updates_at_cap str_float targets n (w w' : World GameEngine.t) :
  updates str_float targets n w = Ok (tt, w') ->
  GameEngine.frame (obj w) = TRIALS (GameEngine.config (obj w)) ->
  GameEngine.frame (obj w') = GameEngine.frame (obj w) /\
  GameEngine.config (obj w') = GameEngine.config (obj w).
Proof.
  revert w. induction n as [| n IH]; intros w H Hcap; simpl in H.
  - injection H as <-. split; reflexivity.
  - apply bind_ok in H as ([] & w1 & Hu & H).
    apply update_frame in Hu as [Hcfg [[Hf _] | (_ & _ & Hlt & _)]]; [| lia].
    apply IH in H as [Hf' Hcfg']; [| congruence].
    split; congruence.
Qed.

(** C8.  With a trial cap that is not negative, every world reachable from
    a fresh engine has [0 <= frame <= TRIALS]; at [frame == TRIALS] a launch
    yields nothing and no number of further frames moves the counter; and a
    frame raises the counter by exactly 1 when it launches a coconut, and
    leaves it alone otherwise. *)
Theorem frame_within_trials str_float targets (config : GameConfig) :
  (0 <= TRIALS config)%Z ->
  (forall w, reachable str_float targets config w ->
             TRIALS (GameEngine.config (obj w)) = TRIALS config /\
             (0 <= GameEngine.frame (obj w) <= TRIALS config)%Z) /\
  (forall w, GameEngine.frame (obj w) = TRIALS (GameEngine.config (obj w)) ->
             GameEngine.launch_coconut str_float targets w = Ok (None, w) /\
             forall n w', updates str_float targets n w = Ok (tt, w') ->
                          GameEngine.frame (obj w') = GameEngine.frame (obj w)) /\
  (forall w w',
      GameEngine.update str_float targets w = Ok (tt, w') ->
      (GameEngine.frame (obj w') = GameEngine.frame (obj w) /\
       (GameEngine.paused (obj w) = true \/
        exists w1, GameEngine.launch_coconut str_float targets w = Ok (None, w1))) \/
      (GameEngine.frame (obj w') = (GameEngine.frame (obj w) + 1)%Z /\
       exists c w1, GameEngine.launch_coconut str_float targets w = Ok (Some c, w1))).
Proof.
  intros Hcap. split; [| split].
  - intros w Hreach. induction Hreach as [pm rl ml rng now e Hinit | op w w' _ IH Hop].
    + apply init_frame in Hinit as (Hcfg & Hf & _). simpl.
      rewrite Hcfg, Hf. split; [reflexivity | lia].
    + destruct IH as [Htr Hfr].
      apply run_op_frame in Hop as [Htr' Hf]. rewrite Htr'.
      split; [exact Htr |]. rewrite Htr in Hf. lia.
  - intros w Hf. split.
    + apply launch_none. lia.
    + intros n w' Hn. apply (updates_at_cap _ _ _ _ _ Hn Hf).
  - intros w w' H.
    apply update_frame in H as [_ [[Hf Hwhy] | (Hf & _ & _ & Hl)]].
    + left. split; assumption.
    + right. split; assumption.
Qed.

Lemma frame_within_trials_witness :
  TRIALS (GameEngine.config (obj Demo.after_update)) = 1%Z /\
  (0 <= GameEngine.frame (obj Demo.after_update) <= 1)%Z.
Proof.
  apply (proj1 (frame_within_trials Demo.str_float Demo.no_targets Demo.config
                  ltac:(discriminate)) Demo.after_update).
  apply (reach_step _ _ _ OpUpdate Demo.world).
  - apply (reach_init _ _ _ Demo.no_profiles [] []). reflexivity.
  - vm_compute. reflexivity.
Defined.

(** ** The one-trial scenario *)

Lemma const_map_fold {V} (v : V) (l : list Z) (acc : gmap Z V) (k : Z) :
  fold_left (fun m s => <[s := v]> m) l acc !! k
  = if decide (k ∈ l) then Some v else acc !! k.
Proof.
  revert acc. induction l as [| s l IH]; intros acc; simpl.
  - destruct (decide (k ∈ [])) as [H | _]; [| reflexivity].
    apply elem_of_nil in H. destruct H.
  - rewrite IH. destruct (decide (k ∈ l)) as [Hin | Hin].
    + destruct (decide (k ∈ s :: l)) as [_ | H]; [reflexivity |].
      exfalso. apply H. right. exact Hin.
    + destruct (decide (s = k)) as [-> | Hne].
      * destruct (decide (k ∈ k :: l)) as [_ | H]; [apply lookup_insert_eq |].
        exfalso. apply H. left.
      * destruct (decide (k ∈ s :: l)) as [H | _].
        -- apply elem_of_cons in H as [-> | H]; [congruence | contradiction].
        -- apply lookup_insert_ne. exact Hne.
Qed.

Lemma const_map_lookup {V} (v : V) (l : list Z) (k : Z) :
  In k l -> GameEngine.const_map v l !! k = Some v.
Proof.
  intros H. unfold GameEngine.const_map. rewrite const_map_fold.
  destruct (decide (k ∈ l)) as [_ | Hn]; [reflexivity |].
  exfalso. apply Hn. apply list_elem_of_In. exact H.
Qed.

Lemma launch_below_cap str_float targets (w : World GameEngine.t) launched w' :
  (GameEngine.frame (obj w) < TRIALS (GameEngine.config (obj w)))%Z ->
  GameEngine.launch_coconut str_float targets w = Ok (launched, w') ->
  exists c, launched = Some c.
Proof.
  intros Hlt H. unfold GameEngine.launch_coconut in H.
  apply bind_ok in H as (e & w0 & Hget & H). injection Hget as <- <-.
  destruct (TRIALS (GameEngine.config (obj w)) <=? GameEngine.frame (obj w))%Z eqn:E.
  { apply Z.leb_le in E. lia. }
  repeat (apply bind_ok in H as (? & ? & _ & H)).
  injection H as <- _. eauto.
Qed.

(** A frame at the trial cap launches nothing and gives every live coconut
    one step. *)
Lemma update_at_cap str_float targets (w w' : World GameEngine.t) :
  GameEngine.update str_float targets w = Ok (tt, w') ->
  GameEngine.paused (obj w) = false ->
  GameEngine.frame (obj w) = TRIALS (GameEngine.config (obj w)) ->
  GameEngine.launch_coconut str_float targets w = Ok (None, w) /\
  GameEngine.paused (obj w') = false /\
  GameEngine.frame (obj w') = GameEngine.frame (obj w) /\
  GameEngine.config (obj w') = GameEngine.config (obj w) /\
  (length (GameEngine.coconuts (obj w')) <= length (GameEngine.coconuts (obj w)))%nat /\
  forall c', In c' (GameEngine.coconuts (obj w')) ->
    exists c, In c (GameEngine.coconuts (obj w)) /\
      Coconut.frames_remaining c' = (Coconut.frames_remaining c - 1)%Z /\
      (0 < Coconut.frames_remaining c')%Z /\
      Coconut.alive c' = true.
Proof.
  intros H Hp Hcap.
  destruct (update_ok _ _ _ _ H Hp) as (launched & w1 & survivors & w2 & Hl & Ha & ->).
  rewrite launch_none in Hl by lia. injection Hl as <- <-.
  split; [apply launch_none; lia |]. simpl in Ha.
  assert (Hw : mkWorld (rng w) (now w) (obj w) = w) by (destruct w; reflexivity).
  rewrite Hw in Ha.
  pose proof (advance_all_but_stats _ _ _ _ Ha) as Hsame.
  unfold same_but_stats, same, but_stats in Hsame.
  injection Hsame as Hcfg _ _ _ _ _ _ Hfr Hpa _ _ _ _ _ _ _ _.
  apply advance_all_survivors in Ha as [Hlen Hsurv]. simpl.
  repeat split; try congruence; assumption.
Qed.

(** At the cap, [n] frames take [n] frames off the budget of whatever is
    still in flight. *)
Lemma updates_drain str_float targets n (F : Z) (w wn : World GameEngine.t) :
  updates str_float targets n w = Ok (tt, wn) ->
  GameEngine.paused (obj w) = false ->
  GameEngine.frame (obj w) = TRIALS (GameEngine.config (obj w)) ->
  (forall c, In c (GameEngine.coconuts (obj w)) ->
             (0 < Coconut.frames_remaining c <= F)%Z) ->
  forall c, In c (GameEngine.coconuts (obj wn)) ->
            (0 < Coconut.frames_remaining c <= F - Z.of_nat n)%Z.
Proof.
  revert F w. induction n as [| n IH]; intros F w H Hp Hcap Hb; simpl in H.
  - injection H as <-. intros c Hc. specialize (Hb c Hc). lia.
  - apply bind_ok in H as ([] & w1 & Hu & H).
    destruct (update_at_cap _ _ _ _ Hu Hp Hcap) as (_ & Hp1 & Hf1 & Hc1 & _ & Hs).
    intros c Hc.
    assert (Hgoal : (0 < Coconut.frames_remaining c <= (F - 1) - Z.of_nat n)%Z).
    { apply (IH (F - 1)%Z w1 H Hp1); [congruence | | exact Hc].
      intros c1 Hin. destruct (Hs c1 Hin) as (c0 & Hc0 & Hfr & Hpos & _).
      specialize (Hb c0 Hc0). lia. }
    lia.
Qed.

Lemma coconut_update_returns (w : World Coconut.t) :
  exists w', Coconut.update w = Ok (tt, w').
Proof.
  unfold Coconut.update, bind, get. simpl.
  destruct (Coconut.frames_remaining (obj w) - 1 <=? 0)%Z; [eexists; reflexivity |].
  destruct (Qle_bool 1 _); eexists; reflexivity.
Qed.

Section Scenario.
Variable str_float : Q -> string.
Variable targets : string -> Q -> list (Z * Q).
Variable config : GameConfig.
Variable e0 : GameEngine.t.
Variable c : Coconut.t.
Variable k : Z.
Hypothesis Htrials : TRIALS config = 1%Z.
Hypothesis Hvalid : GameEngine.valid_strikes e0 = [625; 630; 635]%Z.
Hypothesis Hstats0 :
  stats e0 = (GameEngine.const_map 0%Z [625; 630; 635]%Z,
              GameEngine.const_map 0 [625; 630; 635]%Z,
              GameEngine.const_map 0 [625; 630; 635]%Z).
Hypothesis Hk :
  GameEngine._get_valid_strike [625; 630; 635]%Z (inject_Z (Coconut.strike c)) = Ok k.
Hypothesis Hkin : In k [625; 630; 635]%Z.
Hypothesis Hsplit :
  (Coconut.retail_juice c, Coconut.mm_juice c) = juice_split_Q (Coconut.hit c).

(** One step of the launched coconut, in the engine. *)
Lemma scenario_advance (c' : Coconut.t) n (w : World GameEngine.t) survivors w2 :
  at_cap config (obj w) ->
  stats (obj w) = stats e0 ->
  Coconut.strike c' = Coconut.strike c ->
  Coconut.hit c' = Coconut.hit c ->
  Coconut.retail_juice c' = Coconut.retail_juice c ->
  Coconut.mm_juice c' = Coconut.mm_juice c ->
  Coconut.frames_remaining c' = (Coconut.frames_remaining c - Z.of_nat n)%Z ->
  GameEngine.advance_all [c'] w = Ok (survivors, w2) ->
  let e := GameEngine.set_coconuts survivors (obj w2) in
  at_cap config e /\
  (in_flight e0 c n e \/ landed e0 c k e).
Proof.
  intros (Hf & Hp & Hc & Hv) Hst Hstr Hhit Hret Hmm Hfr Ha e.
  pose proof (advance_all_but_stats _ _ _ _ Ha) as Hsame.
  unfold same_but_stats, same, but_stats in Hsame.
  injection Hsame as Hcfg _ _ _ _ Hval _ Hfr2 Hpa _ _ _ _ _ _ _ _.
  assert (Hcap : at_cap config e).
  { unfold at_cap, e. simpl. repeat split; congruence. }
  split; [exact Hcap |].
  simpl in Ha.
  apply bind_ok in Ha as (c1 & w3 & Hon & Ha).
  apply on_coconut_ok in Hon as [Ho3 Hcu].
  apply coconut_update_ok in Hcu as (Hfr1 & Hstr1 & Hhit1 & Hret1 & Hmm1 & Hal).
  simpl in Hfr1, Hstr1, Hhit1, Hret1, Hmm1, Hal.
  destruct (Coconut.alive c1) eqn:Ec1.
  - apply bind_ok in Ha as (rest & w4 & Hrest & Ha).
    injection Hrest as <- <-. injection Ha as <- <-.
    left. exists c1. split; [reflexivity |]. split; [exact Ec1 |].
    split; [congruence |]. split; [congruence |].
    split; [congruence |]. split; [congruence |].
    split; [lia |]. split; [apply (Hal eq_refl) |].
    unfold e, stats. simpl. rewrite Ho3. exact Hst.
  - apply bind_ok in Ha as ([] & w4 & Hfold & Ha).
    injection Ha as <- <-.
    apply update_game_state_ok in Hfold as (_ & _ & Hfold).
    rewrite Ho3 in Hfold.
    right. split; [reflexivity |].
    rewrite Hhit1, Hhit in Hfold.
    destruct (Coconut.hit c) eqn:Eh.
    + destruct Hfold as (k' & n' & rj & mj & Hk' & Hn & Hr & Hm & Hobj).
      rewrite Hv, Hstr1, Hstr, Hk in Hk'. injection Hk' as <-.
      unfold stats in Hst, Hstats0.
      injection Hst as Eth Erj Emj.
      injection Hstats0 as Eth0 Erj0 Emj0.
      rewrite Eth, Eth0, const_map_lookup in Hn by exact Hkin.
      rewrite Erj, Erj0, const_map_lookup in Hr by exact Hkin.
      rewrite Emj, Emj0, const_map_lookup in Hm by exact Hkin.
      injection Hn as <-. injection Hr as <-. injection Hm as <-.
      injection Hsplit as Er Em.
      unfold e, stats, one_hit. simpl. rewrite Hobj. simpl.
      rewrite Hret1, Hmm1, Hret, Hmm, Er, Em, Eth, Erj, Emj. reflexivity.
    + unfold e, stats. simpl. rewrite Hfold. exact Hst.
Qed.

(** A frame at the cap, on a state of the scenario. *)
Lemma scenario_frame n (w w' : World GameEngine.t) :
  at_cap config (obj w) ->
  in_flight e0 c n (obj w) \/ landed e0 c k (obj w) ->
  GameEngine.update str_float targets w = Ok (tt, w') ->
  GameEngine.launch_coconut str_float targets w = Ok (None, w) /\
  at_cap config (obj w') /\
  (in_flight e0 c (S n) (obj w') \/ landed e0 c k (obj w')).
Proof.
  intros Hcap Hstate Hupd.
  pose proof Hcap as (Hf & Hp & Hc & Hv).
  assert (Hfull : (TRIALS (GameEngine.config (obj w)) <= GameEngine.frame (obj w))%Z)
    by (rewrite Hc, Hf, Htrials; lia).
  split; [apply launch_none; exact Hfull |].
  destruct (update_ok _ _ _ _ Hupd Hp) as (launched & w1 & survivors & w2 & Hl & Ha & ->).
  rewrite launch_none in Hl by exact Hfull. injection Hl as <- <-.
  cbv zeta in Ha. cbn [obj] in *.
  assert (Hw : mkWorld (rng w) (now w) (obj w) = w) by (destruct w; reflexivity).
  rewrite Hw in Ha.
  destruct Hstate as [(c' & Hcs & Hal & Hstr & Hhit & Hret & Hmm & Hfr & Hpos & Hst)
                     | (Hcs & Hst)].
  - rewrite Hcs in Ha.
    destruct (scenario_advance c' (S n) w survivors w2 Hcap Hst Hstr Hhit Hret Hmm)
      as [Hcap' Hstate']; [lia | exact Ha |].
    split; [exact Hcap' | exact Hstate'].
  - rewrite Hcs in Ha. injection Ha as <- <-.
    split.
    + unfold at_cap. simpl. repeat split; assumption.
    + right. split; [reflexivity |]. exact Hst.
Qed.

(** A frame at the cap returns. *)
Lemma scenario_frame_returns n (w : World GameEngine.t) :
  at_cap config (obj w) ->
  in_flight e0 c n (obj w) \/ landed e0 c k (obj w) ->
  exists w', GameEngine.update str_float targets w = Ok (tt, w').
Proof.
  intros (Hf & Hp & Hc & Hv) Hstate.
  assert (Hfull : (TRIALS (GameEngine.config (obj w)) <= GameEngine.frame (obj w))%Z)
    by (rewrite Hc, Hf, Htrials; lia).
  unfold GameEngine.update, bind, get. rewrite Hp.
  rewrite (launch_none _ _ _ Hfull). unfold ret.
  destruct Hstate as [(c' & Hcs & Hal & Hstr & Hhit & Hret & Hmm & Hfr & Hpos & Hst)
                     | (Hcs & Hst)].
  2:{ rewrite Hcs. eexists. reflexivity. }
  rewrite Hcs. cbn [GameEngine.advance_all]. unfold bind.
  destruct (coconut_update_returns (mkWorld (rng w) (now w) c')) as [wc Hwc].
  unfold GameEngine.on_coconut. rewrite Hwc.
  destruct (Coconut.alive (obj wc)); [eexists; reflexivity |].
  cbn [obj rng now].
  unfold GameEngine._update_game_state, bind, get, lift. cbn [obj].
  apply coconut_update_ok in Hwc as (_ & Hstr1 & _). cbn [obj] in Hstr1.
  rewrite Hv, Hstr1, Hstr, Hk.
  destruct (Coconut.hit (obj wc)); [| eexists; reflexivity].
  unfold stats in Hst, Hstats0. injection Hst as Eth Erj Emj.
  injection Hstats0 as Eth0 Erj0 Emj0.
  unfold GameEngine.bump.
  rewrite Eth, Eth0, Erj, Erj0, Emj, Emj0, !const_map_lookup by exact Hkin.
  eexists. reflexivity.
Qed.

(** Any number of frames at the cap. *)
Lemma scenario_frames n m (w wn : World GameEngine.t) :
  at_cap config (obj w) ->
  in_flight e0 c m (obj w) \/ landed e0 c k (obj w) ->
  updates str_float targets n w = Ok (tt, wn) ->
  at_cap config (obj wn) /\
  (in_flight e0 c (m + n) (obj wn) \/ landed e0 c k (obj wn)).
Proof.
  revert m w. induction n as [| n IH]; intros m w Hcap Hstate H; simpl in H.
  - injection H as <-. rewrite Nat.add_0_r. split; assumption.
  - apply bind_ok in H as ([] & w1 & Hu & H).
    destruct (scenario_frame m w w1 Hcap Hstate Hu) as (_ & Hcap1 & Hstate1).
    replace (m + S n)%nat with (S m + n)%nat by lia.
    apply (IH (S m) w1 Hcap1 Hstate1 H).
Qed.

(** Any number of frames at the cap return. *)
Lemma scenario_frames_return n m (w : World GameEngine.t) :
  at_cap config (obj w) ->
  in_flight e0 c m (obj w) \/ landed e0 c k (obj w) ->
  exists wn, updates str_float targets n w = Ok (tt, wn).
Proof.
  revert m w. induction n as [| n IH]; intros m w Hcap Hstate; simpl.
  - exists w. reflexivity.
  - destruct (scenario_frame_returns m w Hcap Hstate) as [w1 Hu].
    destruct (scenario_frame m w w1 Hcap Hstate Hu) as (_ & Hcap1 & Hstate1).
    destruct (IH (S m) w1 Hcap1 Hstate1) as [wn Hn].
    exists wn. unfold bind. rewrite Hu. exact Hn.
Qed.

End Scenario.

(** C4, as amended.  In the scenario, a first frame that returns has
    launched exactly one coconut.  After that frame and after every later
    one, [frame == 1], a launch yields nothing, and the coconut is either
    in flight, one frame older per frame, with the aggregate maps still
    those of the fresh engine, or terminal and gone, and then the maps are
    unchanged after a miss and changed at exactly one strike, by one hit
    and the two shares, after a hit.  After at most [dte * 60 - 1] further
    frames the coconut is gone; and every one of these frames returns. *)
Theorem one_trial_scenario str_float targets config pm retail_loaded monkey_loaded
    rng0 now0 e0 w1 :
  scenario config ->
  GameEngine.init config pm retail_loaded monkey_loaded = Ok e0 ->
  GameEngine.update str_float targets (mkWorld rng0 now0 e0) = Ok (tt, w1) ->
  exists c wl k,
    GameEngine.launch_coconut str_float targets (mkWorld rng0 now0 e0) = Ok (Some c, wl) /\
    Coconut.frames_remaining c = (dte (GameEngine.current_slingshot e0) * 60)%Z /\
    GameEngine._get_valid_strike [625; 630; 635]%Z (inject_Z (Coconut.strike c)) = Ok k /\
    In k [625; 630; 635]%Z /\
    (forall n wn,
        updates str_float targets n w1 = Ok (tt, wn) ->
        GameEngine.frame (obj wn) = 1%Z /\
        GameEngine.launch_coconut str_float targets wn = Ok (None, wn) /\
        (in_flight e0 c n (obj wn) \/ landed e0 c k (obj wn))) /\
    (forall n wn,
        updates str_float targets n w1 = Ok (tt, wn) ->
        (dte (GameEngine.current_slingshot e0) * 60 - 1 <= Z.of_nat n)%Z ->
        landed e0 c k (obj wn)) /\
    (forall n, exists wn, updates str_float targets n w1 = Ok (tt, wn)).
Proof.
  intros (Hstrikes & Hspot & _ & Htrials) Hinit Hupd.
  pose proof (init_frame _ _ _ _ _ Hinit) as (Hcfg & Hf0 & Hp0 & Hc0).
  assert (Hvalid : GameEngine.valid_strikes e0 = [625; 630; 635]%Z
                   /\ stats e0 = (GameEngine.const_map 0%Z [625; 630; 635]%Z,
                                  GameEngine.const_map 0 [625; 630; 635]%Z,
                                  GameEngine.const_map 0 [625; 630; 635]%Z)).
  { unfold GameEngine.init in Hinit. rewrite Hstrikes in Hinit.
    change (Py.sorted_asc inject_Z [625; 630; 635]%Z) with [625; 630; 635]%Z in Hinit.
    cbv iota in Hinit.
    destruct (SLINGSHOTS config !! DEFAULT_SLINGSHOT config); [| discriminate].
    injection Hinit as <-. split; reflexivity. }
  destruct Hvalid as [Hvalid Hstats0].
  destruct (update_ok _ _ _ _ Hupd Hp0) as (launched & wl & survivors & w2 & Hl & Ha & Hw1).
  cbn [obj] in Hl.
  assert (Hbelow : (GameEngine.frame (obj (mkWorld rng0 now0 e0))
                     < TRIALS (GameEngine.config (obj (mkWorld rng0 now0 e0))))%Z).
  { simpl. rewrite Hcfg, Hf0, Htrials. lia. }
  destruct (launch_below_cap _ _ _ _ _ Hbelow Hl) as [c ->].
  destruct (launch_some _ _ _ _ _ Hl) as (_ & Hcore & Halive & Hframes & Hsplit).
  cbn [obj] in Hcore, Hframes.
  unfold same_core, same, core in Hcore.
  injection Hcore as Hcfg1 Hval1 Hth1 Hrj1 Hmj1 Hco1 Hfr1 Hpa1 _ _ _ _ _ _ _ _.
  destruct (snap_nearest [625; 630; 635]%Z (inject_Z (Coconut.strike c)))
    as (k & Hk & Hkin & _); [discriminate |].
  exists c, wl, k.
  split; [exact Hl |]. split; [exact Hframes |]. split; [exact Hk |].
  split; [exact Hkin |].
  cbv zeta in Ha.
  set (e1 := GameEngine.set_frame _ _) in Ha.
  assert (Hcap1 : at_cap config e1).
  { unfold at_cap, e1. simpl. rewrite <- Hfr1, Hf0, <- Hpa1, <- Hcfg1, <- Hval1.
    repeat split; assumption. }
  assert (Hst1 : stats e1 = stats e0).
  { unfold stats, e1. simpl. rewrite <- Hth1, <- Hrj1, <- Hmj1. reflexivity. }
  assert (Hcs1 : GameEngine.coconuts e1 = [c]).
  { unfold e1. simpl. rewrite <- Hco1, Hc0. reflexivity. }
  rewrite Hcs1 in Ha.
  destruct (scenario_advance config e0 c k Hstats0 Hk Hkin Hsplit c 0
              (mkWorld (rng wl) (now wl) e1) survivors w2)
    as [Hcap Hstate]; try reflexivity; try assumption.
  { simpl. lia. }
  replace (GameEngine.set_coconuts survivors (obj w2)) with (obj w1) in Hcap, Hstate
    by (rewrite Hw1; reflexivity).
  assert (Hall : forall n wn,
             updates str_float targets n w1 = Ok (tt, wn) ->
             at_cap config (obj wn) /\
             (in_flight e0 c n (obj wn) \/ landed e0 c k (obj wn))).
  { intros n wn Hn.
    apply (scenario_frames str_float targets config e0 c k Htrials Hstats0 Hk Hkin Hsplit
             n 0 w1 wn Hcap Hstate Hn). }
  split; [| split].
  - intros n wn Hn. destruct (Hall n wn Hn) as [(Hf & Hp & Hc & Hv) Hs].
    split; [exact Hf |]. split; [| exact Hs].
    apply launch_none. rewrite Hc, Hf, Htrials. lia.
  - intros n wn Hn Hlong. destruct (Hall n wn Hn) as [_ [Hfl | Hld]]; [| exact Hld].
    destruct Hfl as (c' & _ & _ & _ & _ & _ & _ & Hfr & Hpos & _). lia.
  - intros n.
    apply (scenario_frames_return str_float targets config e0 c k Htrials Hstats0 Hk Hkin
             Hsplit n 0 w1 Hcap Hstate).
Qed.

Lemma demo_scenario : scenario Demo.config.
Proof.
  split; [reflexivity |]. split; [reflexivity |]. split; [| reflexivity].
  exists (1 # 2). intros s [<- | [<- | [<- | []]]]; reflexivity.
Qed.

Lemma one_trial_scenario_witness :
  exists c wl k,
    GameEngine.launch_coconut Demo.str_float Demo.no_targets Demo.world = Ok (Some c, wl) /\
    In k [625; 630; 635]%Z /\
    GameEngine.frame (obj Demo.after_second_update) = 1%Z /\
    (in_flight Demo.engine c 1 (obj Demo.after_second_update)
     \/ landed Demo.engine c k (obj Demo.after_second_update)).
Proof.
  destruct (one_trial_scenario Demo.str_float Demo.no_targets Demo.config
              Demo.no_profiles [] [] (rng Demo.world) (now Demo.world)
              Demo.engine Demo.after_update)
    as (c & wl & k & Hl & _ & _ & Hk & Hall & _ & _).
  - split; [reflexivity |]. split; [reflexivity |]. split; [| reflexivity].
    exists (1 # 2). intros s [<- | [<- | [<- | []]]]; reflexivity.
  - reflexivity.
  - vm_compute. reflexivity.
  - exists c, wl, k. split; [exact Hl |]. split; [exact Hk |].
    destruct (Hall 1%nat Demo.after_second_update) as (Hf & _ & Hs).
    + vm_compute. reflexivity.
    + split; [exact Hf | exact Hs].
Defined.

(** C4, as stated, fails in the scenario with the basic slingshot: after the
    first frame the coconut, a hit, is still in flight and no strike of the
    aggregate maps has changed; after the second frame it is still in
    flight, not terminal. *)
Lemma first_frame_changes_no_aggregate :
  scenario Demo.config /\
  GameEngine.init Demo.config Demo.no_profiles [] [] = Ok Demo.engine /\
  GameEngine.update Demo.str_float Demo.no_targets Demo.world
  = Ok (tt, Demo.after_update) /\
  GameEngine.frame (obj Demo.after_update) = 1%Z /\
  stats (obj Demo.after_update) = stats Demo.engine /\
  (exists c, GameEngine.coconuts (obj Demo.after_update) = [c]
             /\ Coconut.hit c = true /\ Coconut.alive c = true) /\
  GameEngine.update Demo.str_float Demo.no_targets Demo.after_update
  = Ok (tt, Demo.after_second_update) /\
  stats (obj Demo.after_second_update) = stats Demo.engine /\
  (exists c, GameEngine.coconuts (obj Demo.after_second_update) = [c]
             /\ Coconut.alive c = true).
Proof.
  split; [exact demo_scenario |].
  split; [reflexivity |].
  split; [vm_compute; reflexivity |].
  split; [vm_compute; reflexivity |].
  split; [vm_compute; reflexivity |].
  split; [eexists; vm_compute; repeat split; reflexivity |].
  split; [vm_compute; reflexivity |].
  split; [vm_compute; reflexivity |].
  eexists; vm_compute; repeat split; reflexivity.
Qed.

(** * Part III: further properties of the code

    ** The life of a coconut *)

Lemma coconut_update_total (w : World Coconut.t) :
  exists w',
    Coconut.update w = Ok (tt, w') /\
    Coconut.frames_remaining (obj w') = (Coconut.frames_remaining (obj w) - 1)%Z /\
    cargo (obj w') = cargo (obj w) /\
    (Coconut.alive (obj w) = false -> Coconut.alive (obj w') = false) /\
    ((Coconut.frames_remaining (obj w) <= 1)%Z -> Coconut.alive (obj w') = false).
Proof.
  unfold Coconut.update, bind, get. simpl.
  destruct (Coconut.frames_remaining (obj w) - 1 <=? 0)%Z eqn:E.
  - eexists. split; [reflexivity |]. simpl. repeat split; reflexivity.
  - apply Z.leb_gt in E.
    destruct (Qle_bool 1 _).
    + eexists. split; [reflexivity |]. simpl. repeat split; reflexivity.
    + eexists. split; [reflexivity |]. simpl.
      repeat split; try reflexivity; [auto | lia].
Qed.

(** X1.  Any number of updates of a coconut returns; the frame budget goes
    down by one per update; the strike, the target, the equipment and the
    outcome decided at launch never change; a dead coconut stays dead; and
    once the updates have used the budget up the coconut is dead. *)
Theorem coconut_lifecycle (n : nat) (w : World Coconut.t) :
  exists w',
    coconut_updates n w = Ok (tt, w') /\
    Coconut.frames_remaining (obj w')
    = (Coconut.frames_remaining (obj w) - Z.of_nat n)%Z /\
    cargo (obj w') = cargo (obj w) /\
    (Coconut.alive (obj w) = false -> Coconut.alive (obj w') = false) /\
    ((0 < n)%nat -> (Coconut.frames_remaining (obj w) <= Z.of_nat n)%Z ->
     Coconut.alive (obj w') = false).
Proof.
  revert w. induction n as [| n IH]; intros w.
  - exists w. split; [reflexivity |].
    split; [simpl; lia |]. split; [reflexivity |]. split; [auto | lia].
  - destruct (coconut_update_total w) as (w1 & Hu & Hf & Hc & Hdead & Hlast).
    destruct (IH w1) as (w' & Hrun & Hf' & Hc' & Hdead' & Hlast').
    exists w'. simpl. unfold bind at 1. rewrite Hu.
    split; [exact Hrun |].
    split; [rewrite Hf', Hf; lia |].
    split; [congruence |].
    split; [auto |].
    intros _ Hbudget.
    destruct n as [| n'].
    + apply Hdead'. apply Hlast. simpl in Hbudget. lia.
    + apply Hlast'; [lia |]. rewrite Hf. lia.
Qed.

Lemma coconut_lifecycle_witness :
  exists w',
    coconut_updates 180 Demo.flight0 = Ok (tt, w') /\
    Coconut.alive (obj w') = false.
Proof.
  destruct (coconut_lifecycle 180 Demo.flight0) as (w' & Hrun & _ & _ & _ & Hdead).
  exists w'. split; [exact Hrun |].
  apply Hdead; [lia | vm_compute; discriminate].
Defined.

(** ** The hit probability is a probability *)

Lemma clamp_bounds (x : Q) : 0 <= Py.max2 0 (Py.min2 x 1) <= 1.
Proof.
  rewrite clamp_code. unfold clamp01.
  destruct (Qlt_le_dec x 0); [lra |]. destruct (Qlt_le_dec 1 x); lra.
Qed.

Lemma clamp01_mono (x y : Q) : x <= y -> clamp01 x <= clamp01 y.
Proof.
  intros H. unfold clamp01.
  destruct (Qlt_le_dec x 0), (Qlt_le_dec y 0); try lra;
    destruct (Qlt_le_dec 1 x), (Qlt_le_dec 1 y); lra.
Qed.

(** X2.  Whatever the market, the equipment and the base chance, the final
    hit chance lies in [[0, 1]]; and halving a base chance that is not
    negative, as the monkey's defense does, never makes a hit more likely. *)
Theorem final_hit_chance_is_probability cfg sling spot strike gamma base :
  0 <= GameEngine.final_hit_chance cfg sling spot strike gamma base <= 1 /\
  (0 <= base ->
   GameEngine.final_hit_chance cfg sling spot strike gamma (base * (1 # 2))
   <= GameEngine.final_hit_chance cfg sling spot strike gamma base).
Proof.
  split; [apply clamp_bounds |].
  intros Hbase. unfold GameEngine.final_hit_chance. cbv zeta.
  rewrite !clamp_code.
  set (rest := fun b : Q =>
    b * (1 - IMPLIED_VOL cfg / 100) * (1 - gamma / 10)
    * (1 / Py.max2 (1 # 10) (inject_Z (dte sling) / 30))
    * (1 + accuracy sling * (2 # 10)) * (1 + power sling * (1 # 10))
    * (if String.eqb (option_type sling) "call"
       then if Py.Qltb (inject_Z strike) spot then 11 # 10 else 9 # 10
       else if Py.Qltb spot (inject_Z strike) then 11 # 10 else 9 # 10)).
  change (clamp01 (rest (base * (1 # 2))) <= clamp01 (rest base)).
  assert (Hhalf : rest (base * (1 # 2)) == rest base * (1 # 2)).
  { unfold rest. ring. }
  destruct (Qlt_le_dec (rest base) 0) as [Hneg | Hpos].
  - assert (E : clamp01 (rest base) = 0).
    { unfold clamp01. destruct (Qlt_le_dec (rest base) 0); [reflexivity | lra]. }
    rewrite E. unfold clamp01.
    destruct (Qlt_le_dec (rest (base * (1 # 2))) 0); [lra |]. lra.
  - apply clamp01_mono. lra.
Qed.

Lemma final_hit_chance_is_probability_witness :
  GameEngine.final_hit_chance Demo.config Demo.basic 628 630 (1 # 2) ((1 # 3) * (1 # 2))
  <= GameEngine.final_hit_chance Demo.config Demo.basic 628 630 (1 # 2) (1 # 3).
Proof.
  apply (proj2 (final_hit_chance_is_probability Demo.config Demo.basic 628 630
                  (1 # 2) (1 # 3))).
  discriminate.
Defined.

(** ** The books of the engine *)

Lemma const_map_Some {V} (v x : V) (l : list Z) (k : Z) :
  GameEngine.const_map v l !! k = Some x -> In k l /\ x = v.
Proof.
  unfold GameEngine.const_map. rewrite const_map_fold.
  destruct (decide (k ∈ l)) as [Hin | _].
  - intros H. injection H as <-. split; [apply list_elem_of_In; exact Hin | reflexivity].
  - rewrite lookup_empty. discriminate.
Qed.

Lemma zeroed_balanced (e : GameEngine.t) :
  GameEngine.valid_strikes e <> [] ->
  GameEngine.tree_hits e = GameEngine.const_map 0%Z (GameEngine.valid_strikes e) ->
  GameEngine.retail_juice e = GameEngine.const_map 0 (GameEngine.valid_strikes e) ->
  GameEngine.mm_juice e = GameEngine.const_map 0 (GameEngine.valid_strikes e) ->
  balanced e.
Proof.
  intros Hne Hh Hr Hm. split; [exact Hne |]. split.
  - intros k Hk. exists 0%Z. rewrite Hh. apply const_map_lookup. exact Hk.
  - intros k n Hn. rewrite Hh in Hn. apply const_map_Some in Hn as [Hk ->].
    split; [exact Hk |]. split; [lia |].
    exists 0, 0. rewrite Hr, Hm.
    split; [apply const_map_lookup; exact Hk |].
    split; [apply const_map_lookup; exact Hk |].
    split; [lra |]. split; [lra |]. split; [reflexivity | lia].
Qed.

Lemma init_ledger config pm rl ml e :
  GameEngine.init config pm rl ml = Ok e -> ledger_ok e.
Proof.
  unfold GameEngine.init.
  destruct (Py.sorted_asc inject_Z (STRIKES config)) as [| s l] eqn:Es; [discriminate |].
  destruct (SLINGSHOTS config !! DEFAULT_SLINGSHOT config); [| discriminate].
  intros H. injection H as <-. split.
  - apply zeroed_balanced; simpl; [discriminate | reflexivity ..].
  - constructor.
Qed.

Lemma ledger_same_core e e' : same_core e e' -> ledger_ok e -> ledger_ok e'.
Proof.
  unfold same_core, same, core. intros H.
  injection H as _ Hv Hh Hr Hm Hc _ _ _ _ _ _ _ _ _ _.
  unfold ledger_ok, balanced. rewrite Hv, Hh, Hr, Hm, Hc. auto.
Qed.

Lemma balanced_same_stats e e' :
  GameEngine.valid_strikes e' = GameEngine.valid_strikes e ->
  stats e' = stats e -> balanced e -> balanced e'.
Proof.
  unfold stats. intros Hv H. injection H as Hh Hr Hm.
  unfold balanced. rewrite Hv, Hh, Hr, Hm. auto.
Qed.

(** Folding the outcome of a coconut that carries its split into balanced
    books returns, and leaves balanced books. *)
Lemma update_game_state_balanced strike hit retail mm (w : World GameEngine.t) :
  balanced (obj w) ->
  (retail, mm) = juice_split_Q hit ->
  exists w',
    GameEngine._update_game_state strike hit retail mm w = Ok (tt, w') /\
    balanced (obj w') /\ same_but_stats (obj w) (obj w').
Proof.
  intros (Hne & Hdom & Hbal) Hsplit.
  destruct (snap_nearest _ (inject_Z strike) Hne) as (k & Hk & Hin & _).
  destruct (Hdom k Hin) as [n Hn].
  destruct (Hbal k n Hn) as (_ & Hpos & rj & mj & Hrj & Hmj & Hr0 & Hrm & _ & _).
  unfold GameEngine._update_game_state, bind, get, lift. rewrite Hk.
  destruct hit.
  - unfold GameEngine.bump. rewrite Hn, Hrj, Hmj. unfold put.
    eexists. split; [reflexivity |]. simpl. split; [| reflexivity].
    injection Hsplit as -> ->.
    split; [exact Hne |]. split.
    + intros k' Hk'. simpl.
      destruct (decide (k = k')) as [<- | Hd].
      * exists (n + 1)%Z. apply lookup_insert_eq.
      * destruct (Hdom k' Hk') as [n' Hn']. exists n'.
        rewrite lookup_insert_ne by exact Hd. exact Hn'.
    + intros k' n'. simpl.
      destruct (decide (k = k')) as [<- | Hd].
      * rewrite !lookup_insert_eq. intros H. injection H as <-.
        split; [exact Hin |]. split; [lia |].
        eexists _, _. split; [reflexivity |]. split; [reflexivity |].
        unfold juice_split_Q, juice_split. cbn [fst snd].
        split; [lra |]. split; [lra |]. split; [lia |]. intros _. lra.
      * rewrite !lookup_insert_ne by exact Hd. apply Hbal.
  - unfold ret. exists w. split; [reflexivity |].
    split; [split; [exact Hne | split; assumption] | reflexivity].
Qed.

Lemma set_dead_cargo c f t' : cargo (Coconut.set_dead c f t') = cargo c.
Proof. reflexivity. Qed.

Lemma coconut_update_cargo (w : World Coconut.t) :
  exists w', Coconut.update w = Ok (tt, w') /\ cargo (obj w') = cargo (obj w).
Proof.
  unfold Coconut.update, bind, get. simpl.
  destruct (Coconut.frames_remaining (obj w) - 1 <=? 0)%Z.
  - eexists. split; reflexivity.
  - destruct (Qle_bool 1 _); eexists; split; reflexivity.
Qed.

Lemma carries_split_cargo c c' : cargo c' = cargo c -> carries_split c -> carries_split c'.
Proof.
  unfold cargo, carries_split. intros H. injection H as _ _ _ _ _ Hh Hr Hm _ _.
  rewrite Hh, Hr, Hm. auto.
Qed.

(** One pass over coconuts that carry their split, on balanced books:
    the pass returns, the books stay balanced, the survivors still carry
    their split. *)
Lemma advance_all_balanced cs (w : World GameEngine.t) :
  balanced (obj w) -> Forall carries_split cs ->
  exists cs' w',
    GameEngine.advance_all cs w = Ok (cs', w') /\
    balanced (obj w') /\ Forall carries_split cs' /\
    same_but_stats (obj w) (obj w').
Proof.
  revert w. induction cs as [| c cs IH]; intros w Hb Hcs.
  - exists [], w. split; [reflexivity |]. split; [exact Hb |].
    split; [constructor | reflexivity].
  - inversion Hcs as [| ? ? Hc Hrest]; subst.
    destruct (coconut_update_cargo (mkWorld (rng w) (now w) c)) as (wc & Hu & Hcargo).
    simpl in Hcargo.
    assert (Hon : GameEngine.on_coconut c Coconut.update w
                  = Ok (obj wc, mkWorld (rng wc) (now wc) (obj w))).
    { unfold GameEngine.on_coconut. rewrite Hu. reflexivity. }
    pose proof (carries_split_cargo _ _ Hcargo Hc) as Hc'.
    simpl. unfold bind at 1. rewrite Hon.
    destruct (Coconut.alive (obj wc)).
    + destruct (IH (mkWorld (rng wc) (now wc) (obj w)) Hb Hrest)
        as (cs' & w' & Hrun & Hb' & Hcs' & Hsame).
      exists (obj wc :: cs'), w'. unfold bind. rewrite Hrun.
      split; [reflexivity |]. split; [exact Hb' |].
      split; [constructor; assumption | exact Hsame].
    + destruct (update_game_state_balanced (Coconut.strike (obj wc)) (Coconut.hit (obj wc))
                  (Coconut.retail_juice (obj wc)) (Coconut.mm_juice (obj wc))
                  (mkWorld (rng wc) (now wc) (obj w)) Hb Hc')
        as (w1 & Hfold & Hb1 & Hs1).
      destruct (IH w1 Hb1 Hrest) as (cs' & w' & Hrun & Hb' & Hcs' & Hsame).
      exists cs', w'. unfold bind. rewrite Hfold.
      split; [exact Hrun |]. split; [exact Hb' |]. split; [exact Hcs' |].
      simpl in Hs1. etransitivity; eassumption.
Qed.

(** A frame that is not paused, written out. *)
Lemma update_unfold str_float targets (w : World GameEngine.t) :
  GameEngine.paused (obj w) = false ->
  GameEngine.update str_float targets w
  = match GameEngine.launch_coconut str_float targets w with
    | Raise err => Raise err
    | Ok (launched, w1) =>
        let e1 := match launched with
                  | Some c =>
                      GameEngine.set_frame (GameEngine.frame (obj w1) + 1)
                        (GameEngine.set_coconuts (GameEngine.coconuts (obj w1) ++ [c]) (obj w1))
                  | None => obj w1
                  end in
        match GameEngine.advance_all (GameEngine.coconuts e1)
                (mkWorld (rng w1) (now w1) e1) with
        | Raise err => Raise err
        | Ok (survivors, w2) =>
            Ok (tt, mkWorld (rng w2) (now w2) (GameEngine.set_coconuts survivors (obj w2)))
        end
    end.
Proof.
  intros Hp. unfold GameEngine.update, bind, get. rewrite Hp.
  destruct (GameEngine.launch_coconut str_float targets w) as [[[c |] w1] | err];
    [| | reflexivity].
  - reflexivity.
  - destruct w1. reflexivity.
Qed.

(** A frame on a balanced ledger: either the launch raises, and so does
    the frame, or the frame returns and leaves a balanced ledger. *)
Lemma update_ledger str_float targets (w : World GameEngine.t) :
  ledger_ok (obj w) ->
  (exists err, GameEngine.launch_coconut str_float targets w = Raise err /\
               GameEngine.paused (obj w) = false /\
               GameEngine.update str_float targets w = Raise err) \/
  (exists w', GameEngine.update str_float targets w = Ok (tt, w') /\ ledger_ok (obj w')).
Proof.
  intros Hl. destruct (GameEngine.paused (obj w)) eqn:Hp.
  { right. exists w. split; [apply update_paused; exact Hp | exact Hl]. }
  rewrite (update_unfold _ _ _ Hp).
  destruct (GameEngine.launch_coconut str_float targets w) as [[launched w1] | err] eqn:El.
  2:{ left. exists err. repeat split. }
  right.
  pose proof (launch_coconut_core _ _ _ _ _ El) as Hcore.
  destruct (ledger_same_core _ _ Hcore Hl) as [Hb1 Hc1].
  cbv zeta.
  set (e1 := match launched with Some _ => _ | None => _ end).
  assert (Hb : balanced e1).
  { apply (balanced_same_stats (obj w1)); [| | exact Hb1];
      destruct launched; reflexivity. }
  assert (Hcs : Forall carries_split (GameEngine.coconuts e1)).
  { destruct launched as [c |]; [| exact Hc1].
    apply launch_some in El as (_ & _ & _ & _ & Hsplit).
    simpl. apply Forall_app. split; [exact Hc1 |].
    constructor; [exact Hsplit | constructor]. }
  destruct (advance_all_balanced _ (mkWorld (rng w1) (now w1) e1) Hb Hcs)
    as (cs' & w' & Hrun & Hb' & Hcs' & Hsame).
  rewrite Hrun. eexists. split; [reflexivity |]. simpl.
  split; [| exact Hcs'].
  apply (balanced_same_stats (obj w')); [reflexivity | reflexivity | exact Hb'].
Qed.

Lemma switch_to_ledger agent names idx (w : World GameEngine.t) b w' :
  GameEngine.switch_to agent names idx w = Ok (b, w') ->
  ledger_ok (obj w) -> ledger_ok (obj w').
Proof.
  unfold GameEngine.switch_to. intros H.
  apply bind_ok in H as (e & w0 & Hget & H). injection Hget as <- <-.
  apply bind_ok in H as (n & w0 & Hn & H). apply lift_ok in Hn as [_ ->].
  cbv zeta in H. apply bind_ok in H as ([] & w1 & Hp & H).
  injection Hp as <-. injection H as _ <-. auto.
Qed.

Lemma run_op_ledger str_float targets op (w w' : World GameEngine.t) :
  run_op str_float targets op w = Ok (tt, w') ->
  ledger_ok (obj w) -> ledger_ok (obj w').
Proof.
  intros H Hl. destruct op; simpl in H.
  - destruct (update_ledger str_float targets w Hl)
      as [(err & _ & _ & Hr) | (w1 & Hr & Hl1)]; [congruence |].
    rewrite Hr in H. injection H as <-. exact Hl1.
  - injection H as <-. exact Hl.
  - injection H as <-. simpl. unfold GameEngine.toggle_ai.
    destruct (String.eqb agent_type "retail"); [exact Hl |].
    destruct (String.eqb agent_type "monkey"); exact Hl.
  - apply bind_ok in H as (b & w1 & Hs & H). injection H as <-.
    unfold GameEngine.switch_profile in Hs.
    apply bind_ok in Hs as (e & w0 & Hget & Hs). injection Hget as <- <-.
    destruct (_ && _).
    + apply (switch_to_ledger _ _ _ _ _ _ Hs Hl).
    + destruct (_ && _).
      * apply (switch_to_ledger _ _ _ _ _ _ Hs Hl).
      * injection Hs as _ <-. exact Hl.
  - apply bind_ok in H as (b & w1 & Hs & H). injection H as <-.
    unfold GameEngine.switch_slingshot in Hs.
    apply bind_ok in Hs as (e & w0 & Hget & Hs). injection Hget as <- <-.
    destruct (SLINGSHOTS _ !! _).
    + injection Hs as _ <-. exact Hl.
    + injection Hs as _ <-. exact Hl.
  - injection H as <-. simpl. split; [| constructor].
    apply zeroed_balanced; try reflexivity. apply Hl.
  - injection H as <-. exact Hl.
Qed.

Lemma reachable_ledger str_float targets config (w : World GameEngine.t) :
  reachable str_float targets config w -> ledger_ok (obj w).
Proof.
  intros Hreach. induction Hreach as [pm rl ml rng now e Hinit | op w w' _ IH Hop].
  - apply (init_ledger _ _ _ _ _ Hinit).
  - apply (run_op_ledger _ _ _ _ _ Hop IH).
Qed.

(** X3.  In every world reachable from a fresh engine the books balance:
    the hit counts are kept for exactly the strikes of the universe and none
    is negative; at every strike the retail juice is at least 0 and at most
    the market-maker juice, both are 0 where no hit was counted and
    positive where one was; and every coconut in flight carries the split
    of its own outcome. *)
Theorem ledger_invariant str_float targets config (w : World GameEngine.t) :
  reachable str_float targets config w ->
  balanced (obj w) /\ Forall carries_split (GameEngine.coconuts (obj w)).
Proof.
  intros Hreach. change (ledger_ok (obj w)).
  induction Hreach as [pm rl ml rng now e Hinit | op w w' _ IH Hop].
  - apply (init_ledger _ _ _ _ _ Hinit).
  - apply (run_op_ledger _ _ _ _ _ Hop IH).
Qed.

Lemma ledger_invariant_witness :
  balanced (obj Demo.after_update) /\
  Forall carries_split (GameEngine.coconuts (obj Demo.after_update)).
Proof.
  apply (ledger_invariant Demo.str_float Demo.no_targets Demo.config).
  apply (reach_step _ _ _ OpUpdate Demo.world).
  - apply (reach_init _ _ _ Demo.no_profiles [] []). reflexivity.
  - vm_compute. reflexivity.
Defined.

(** X4.  In a reachable world a frame can only fail in its launch: either
    [update] returns, or the game is not paused and [update] raises the
    exception [launch_coconut] raised; advancing the coconuts and folding
    their outcomes into the aggregates never raises. *)
Theorem frame_fails_only_in_launch str_float targets config (w : World GameEngine.t) :
  reachable str_float targets config w ->
  (exists w', GameEngine.update str_float targets w = Ok (tt, w')) \/
  (exists err,
      GameEngine.paused (obj w) = false /\
      GameEngine.launch_coconut str_float targets w = Raise err /\
      GameEngine.update str_float targets w = Raise err).
Proof.
  intros Hreach.
  pose proof (reachable_ledger _ _ _ _ Hreach) as Hl.
  destruct (update_ledger str_float targets w Hl)
    as [(err & Hlaunch & Hp & Hr) | (w1 & Hr & _)].
  - right. exists err. repeat split; assumption.
  - left. exists w1. exact Hr.
Qed.

Lemma frame_fails_only_in_launch_witness :
  (exists w', GameEngine.update Demo.str_float Demo.no_targets Demo.after_update
              = Ok (tt, w')) \/
  (exists err,
      GameEngine.paused (obj Demo.after_update) = false /\
      GameEngine.launch_coconut Demo.str_float Demo.no_targets Demo.after_update
      = Raise err /\
      GameEngine.update Demo.str_float Demo.no_targets Demo.after_update = Raise err).
Proof.
  apply (frame_fails_only_in_launch Demo.str_float Demo.no_targets Demo.config).
  apply (reach_step _ _ _ OpUpdate Demo.world).
  - apply (reach_init _ _ _ Demo.no_profiles [] []). reflexivity.
  - vm_compute. reflexivity.
Defined.

(** ** The rolling windows of the agents *)

Lemma last_n_tail {A} (n : nat) (l : list A) : tail_of (Py.last_n n l) l.
Proof.
  unfold tail_of, Py.last_n. exists (firstn (length l - n) l).
  symmetry. apply firstn_skipn.
Qed.

Lemma last_n_length {A} (n : nat) (l : list A) :
  length (Py.last_n n l) = Nat.min n (length l).
Proof. unfold Py.last_n. rewrite length_skipn. lia. Qed.

(** Appending to a window: at most ten entries are kept, they are the most
    recent ones in their order, and the new entry is the last. *)
Lemma push_bounded_window {A} (x : A) (l : list A) :
  (length (push_bounded x l) <= 10)%nat /\
  tail_of (push_bounded x l) (l ++ [x]) /\
  (exists older, push_bounded x l = older ++ [x]) /\
  ((length l < 10)%nat -> push_bounded x l = l ++ [x]).
Proof.
  unfold push_bounded. cbv zeta.
  destruct (10 <? length (l ++ [x]))%nat eqn:E.
  - apply Nat.ltb_lt in E. split; [rewrite last_n_length; lia |].
    split; [apply last_n_tail |]. split.
    + unfold Py.last_n. rewrite length_app in *. simpl in *.
      rewrite skipn_app.
      replace (length l + 1 - 10 - length l)%nat with 0%nat by lia.
      simpl. eexists. reflexivity.
    + rewrite length_app in E. simpl in E. lia.
  - apply Nat.ltb_ge in E. split; [exact E |].
    split; [exists []; reflexivity |]. split; [exists l; reflexivity | reflexivity].
Qed.

(** X5.  Recording an outcome never raises.  The retail agent keeps at most
    its ten most recent hit flags, the newest last; the monkey agent does
    the same with its loss flags, a loss being a defense that did not
    succeed; nothing else of either agent changes. *)
Theorem outcome_windows :
  (forall (hit : bool) (w : World RetailAgent.t),
      exists w',
        RetailAgent.record_hit hit w = Ok (tt, w') /\
        (length (RetailAgent.recent_hits (obj w')) <= 10)%nat /\
        tail_of (RetailAgent.recent_hits (obj w')) (RetailAgent.recent_hits (obj w) ++ [hit]) /\
        (exists older, RetailAgent.recent_hits (obj w') = older ++ [hit]) /\
        RetailAgent.target_history (obj w') = RetailAgent.target_history (obj w) /\
        RetailAgent.last_target (obj w') = RetailAgent.last_target (obj w) /\
        RetailAgent.crowd_size (obj w') = RetailAgent.crowd_size (obj w)) /\
  (forall (success : bool) (w : World MonkeyAgent.t),
      exists w',
        MonkeyAgent.record_defense_result success w = Ok (tt, w') /\
        (length (MonkeyAgent.recent_losses (obj w')) <= 10)%nat /\
        tail_of (MonkeyAgent.recent_losses (obj w'))
                (MonkeyAgent.recent_losses (obj w) ++ [negb success]) /\
        (exists older, MonkeyAgent.recent_losses (obj w') = older ++ [negb success]) /\
        MonkeyAgent.defense_history (obj w') = MonkeyAgent.defense_history (obj w) /\
        MonkeyAgent.last_defense (obj w') = MonkeyAgent.last_defense (obj w) /\
        MonkeyAgent.retail_clusters (obj w') = MonkeyAgent.retail_clusters (obj w)).
Proof.
  split.
  - intros hit w. eexists. split; [reflexivity |]. simpl.
    destruct (push_bounded_window hit (RetailAgent.recent_hits (obj w))) as (H1 & H2 & H3 & _).
    repeat split; assumption.
  - intros success w. eexists. split; [reflexivity |]. simpl.
    destruct (push_bounded_window (negb success) (MonkeyAgent.recent_losses (obj w)))
      as (H1 & H2 & H3 & _).
    repeat split; assumption.
Qed.

(** ** The recent rate *)

(** X6.  The success rate of the retail agent and the loss rate of the
    monkey agent lie in [[0, 1]], are 0 on an empty record, and depend on
    the last five flags only. *)
Theorem recent_rate_bounds (l : list bool) :
  0 <= recent_rate l <= 1 /\
  recent_rate [] = 0 /\
  (l <> [] -> recent_rate l = recent_rate (Py.last_n 5 l)).
Proof.
  split; [| split; [reflexivity |]].
  - destruct l as [| b l]; [simpl; lra |].
    unfold recent_rate.
    set (recent := Py.last_n 5 (b :: l)).
    assert (Hlen : (0 < length recent)%nat).
    { unfold recent. rewrite last_n_length. simpl. lia. }
    pose proof (length_filter (fun b => b = true) recent) as Hle.
    set (k := length (filter (fun b => b = true) recent)) in *.
    set (n := length recent) in *.
    assert (Hn : 0 < inject_Z (Z.of_nat n)).
    { change 0 with (inject_Z 0). rewrite <- Zlt_Qlt. lia. }
    assert (Hk : 0 <= inject_Z (Z.of_nat k)).
    { change 0 with (inject_Z 0). rewrite <- Zle_Qle. lia. }
    assert (Hkn : inject_Z (Z.of_nat k) <= inject_Z (Z.of_nat n)).
    { rewrite <- Zle_Qle. lia. }
    split.
    + apply Qle_shift_div_l; [exact Hn | lra].
    + apply Qle_shift_div_r; [exact Hn | lra].
  - intros Hne. destruct l as [| b l]; [congruence |].
    unfold recent_rate at 1.
    destruct (Py.last_n 5 (b :: l)) as [| b' l'] eqn:E.
    + exfalso. pose proof (last_n_length 5 (b :: l)) as H. rewrite E in H. simpl in H. lia.
    + unfold recent_rate.
      assert (Hidem : Py.last_n 5 (b' :: l') = b' :: l').
      { pose proof (last_n_length 5 (b :: l)) as H. rewrite E in H.
        unfold Py.last_n.
        replace (length (b' :: l') - 5)%nat with 0%nat by lia. reflexivity. }
      rewrite Hidem. reflexivity.
Qed.

Lemma recent_rate_bounds_witness :
  recent_rate [true; false; true; true; false; true; true]
  = recent_rate (Py.last_n 5 [true; false; true; true; false; true; true]).
Proof.
  apply (proj2 (proj2 (recent_rate_bounds [true; false; true; true; false; true; true]))).
  discriminate.
Defined.

(** ** Targets and predictions come from the strikes on offer *)

Lemma score_all_keys (f : Z -> Res Q) (strikes : list Z) (acc d : OD.t Q) :
  score_all f strikes acc = Ok d ->
  forall k, In k (map fst d) <-> In k strikes \/ In k (map fst acc).
Proof.
  revert acc. induction strikes as [| s strikes IH]; intros acc H k; simpl in H.
  - injection H as <-. simpl. intuition.
  - destruct (f s) as [v | err]; [| discriminate]. simpl in H.
    rewrite (IH _ H k), od_set_keys. simpl. intuition.
Qed.

Lemma od_get_key {V} (k : Z) (d : OD.t V) (v : V) :
  OD.get k d = Some v -> In k (map fst d).
Proof.
  induction d as [| [k0 v0] d IH]; simpl; [discriminate |].
  destruct (k0 =? k)%Z eqn:E.
  - apply Z.eqb_eq in E. intros _. left. exact E.
  - intros H. right. apply IH. exact H.
Qed.

Lemma od_scale_keys (k : Z) (x : Q) (d d' : OD.t Q) :
  OD.scale k x d = Ok d' ->
  forall k', In k' (map fst d') <-> In k' (map fst d).
Proof.
  unfold OD.scale. destruct (OD.get k d) as [v |] eqn:E; [| discriminate].
  intros H k'. injection H as <-. rewrite od_set_keys.
  apply od_get_key in E. split; [intros [-> | H]; assumption | auto].
Qed.

Lemma max_by_In {A} (key : A -> Q) (l : list A) (b : A) :
  Py.max_by key l = Ok b -> In b l.
Proof.
  destruct l as [| x l]; simpl; [discriminate |].
  intros H. injection H as <-. apply (max_from_spec key l x).
Qed.

Lemma choice_In {O A} (l : list A) (w : World O) x w' :
  Py.choice l w = Ok (x, w') -> In x l /\ obj w' = obj w.
Proof.
  destruct l as [| y l]; unfold Py.choice; [discriminate |].
  intros H. apply bind_ok in H as (u & w1 & Hu & H).
  injection Hu as <- <-. injection H as <- <-. split; [| reflexivity].
  set (i := Z.to_nat _).
  destruct (Nat.lt_ge_cases i (length (y :: l))) as [Hlt | Hge].
  - exact (nth_In (y :: l) y Hlt).
  - change (In (nth i (y :: l) y) (y :: l)).
    rewrite nth_overflow by exact Hge. left. reflexivity.
Qed.

Lemma fomo_keys pm strikes d (w : World RetailAgent.t) d' w' :
  RetailAgent.fomo pm strikes d w = Ok (d', w') ->
  obj w' = obj w /\ forall k, In k (map fst d') <-> In k (map fst d).
Proof.
  unfold RetailAgent.fomo. intros H.
  apply bind_ok in H as (profile & w0 & Hp & H). apply lift_ok in Hp as [_ ->].
  destruct profile as [profile |].
  - apply bind_ok in H as (u & w1 & Hu & H). injection Hu as <- <-.
    destruct (Py.Qltb _ _).
    + apply bind_ok in H as (a & w2 & Hget & H). injection Hget as <- <-.
      apply bind_ok in H as (s & w2 & Hs & H). apply lift_ok in Hs as [_ ->].
      apply lift_ok in H as [H ->]. split; [reflexivity |].
      apply (od_scale_keys _ _ _ _ H).
    + injection H as <- <-. split; [reflexivity | reflexivity].
  - injection H as <- <-. split; reflexivity.
Qed.

(** X7.  Whatever profile is active, a call of [select_target] that returns
    has picked one of the strikes on offer, reports a confidence of at most
    1, and has recorded the pick: it is the agent's last target and the
    newest entry of a target history of at most ten entries; the hit flags
    are left alone. *)
Theorem select_target_records_pick (pm : Profiles.ProfileManager)
    (game_state : GameState) (w w' : World RetailAgent.t) (target : Z) (confidence : Q) :
  RetailAgent.select_target pm game_state w = Ok ((target, confidence), w') ->
  In target (gs_strikes game_state) /\
  confidence <= 1 /\
  RetailAgent.last_target (obj w') = Some target /\
  RetailAgent.target_history (obj w')
  = push_bounded target (RetailAgent.target_history (obj w)) /\
  (length (RetailAgent.target_history (obj w')) <= 10)%nat /\
  RetailAgent.recent_hits (obj w') = RetailAgent.recent_hits (obj w).
Proof.
  unfold RetailAgent.select_target. intros H.
  rewrite (bind_eq _ _ _ _ _ (update_metrics_ok game_state w)) in H.
  apply bind_ok in H as (weights & w1 & Hw & H). apply lift_ok in Hw as [_ ->].
  cbv zeta in H.
  apply bind_ok in H as (a & w1 & Hget & H). injection Hget as <- <-.
  apply bind_ok in H as (d & w1 & Hd & H). apply lift_ok in Hd as [Hd ->].
  apply bind_ok in H as ([t c] & w2 & Hchoice & H).
  apply bind_ok in H as ([] & w3 & Hm & H).
  injection Hm as <-. injection H as <- <- <-. simpl.
  assert (Hpick : In t (gs_strikes game_state) /\ obj w2 = with_crowd game_state (obj w)).
  { change (gs_strikes (RetailAgent.with_metrics game_state _ _))
      with (gs_strikes game_state) in *.
    destruct d as [| e d].
    - apply bind_ok in Hchoice as (t' & w4 & Hc & H). injection H as <- _ <-.
      apply choice_In in Hc as [Hin Ho]. split; [exact Hin | exact Ho].
    - apply bind_ok in Hchoice as (d' & w4 & Hf & H).
      apply fomo_keys in Hf as [Ho Hkeys].
      apply bind_ok in H as (best & w5 & Hb & H). apply lift_ok in Hb as [Hb ->].
      cbv zeta in H.
      destruct (OD.get (fst best) d') as [v |] eqn:Eg; [| discriminate].
      injection H as <- _ <-. split; [| exact Ho].
      apply max_by_In in Hb.
      assert (Hk : In (fst best) (map fst d')) by (apply in_map; exact Hb).
      apply Hkeys in Hk. apply (score_all_keys _ _ _ _ Hd) in Hk as [Hk | []].
      exact Hk. }
  destruct Hpick as [Hin Ho]. rewrite Ho. simpl.
  split; [exact Hin |].
  split.
  { unfold Py.min2. destruct (Py.Qltb 1 c) eqn:E; [lra |].
    apply Qltb_ge in E. exact E. }
  split; [reflexivity |]. split; [reflexivity |].
  split; [apply push_bounded_window | reflexivity].
Qed.

Lemma select_target_records_pick_witness :
  In 630%Z (gs_strikes Demo.game_state) /\
  RetailAgent.last_target (obj Demo.after_select) = Some 630%Z.
Proof.
  destruct (select_target_records_pick Demo.no_profiles Demo.game_state
              Demo.fresh_retail Demo.after_select 630%Z (180000 # 350000))
    as (Hin & _ & Hlast & _).
  - vm_compute. reflexivity.
  - split; assumption.
Defined.

Lemma insert_asc_In {A} (key : A -> Q) (x y : A) (l : list A) :
  In y (Py.insert_asc key x l) -> y = x \/ In y l.
Proof.
  induction l as [| z l IH]; simpl.
  - intros [<- | []]. left. reflexivity.
  - destruct (Qle_bool (key x) (key z)).
    + intros [<- | H]; [left; reflexivity | right; exact H].
    + intros [<- | H]; [right; left; reflexivity |].
      destruct (IH H) as [-> | H']; [left; reflexivity | right; right; exact H'].
Qed.

Lemma sorted_asc_In {A} (key : A -> Q) (y : A) (l : list A) :
  In y (Py.sorted_asc key l) -> In y l.
Proof.
  induction l as [| x l IH]; simpl; [auto |].
  intros H. apply insert_asc_In in H as [-> | H]; [left; reflexivity | right; auto].
Qed.

Lemma firstn_sorted {A} (R : A -> A -> Prop) (n : nat) (l : list A) :
  StronglySorted R l -> StronglySorted R (firstn n l).
Proof.
  intros H. revert n. induction H as [| x l Hs IH Hx]; intros n.
  - rewrite firstn_nil. constructor.
  - destruct n as [| n]; simpl; [constructor |].
    constructor; [apply IH |].
    rewrite List.Forall_forall in *. intros y Hy. apply Hx.
    rewrite <- (firstn_skipn n l). apply in_or_app. left. exact Hy.
Qed.

Lemma slice_to_3 {A} (l : list A) : Py.slice_to 3 l = firstn 3 l.
Proof. reflexivity. Qed.

Lemma slice_to_3_length {A} (l : list A) : (length (Py.slice_to 3 l) <= 3)%nat.
Proof. rewrite slice_to_3, length_firstn. lia. Qed.

Lemma boost_recent_keys recent strikes (d d' : OD.t Q) :
  MonkeyAgent.boost_recent recent strikes d = Ok d' ->
  forall k, In k (map fst d') <-> In k (map fst d).
Proof.
  revert d. induction strikes as [| s strikes IH]; intros d H k; simpl in H.
  - injection H as <-. reflexivity.
  - destruct (existsb (Z.eqb s) recent).
    + destruct (OD.scale s (12 # 10) d) as [d1 |] eqn:E; [| discriminate]. simpl in H.
      rewrite (IH _ H k). apply (od_scale_keys _ _ _ _ E).
    + apply (IH _ H k).
Qed.

Lemma apply_modifiers_keys a profile gs (d d' : OD.t Q) :
  MonkeyAgent.apply_modifiers a profile gs d = Ok d' ->
  forall k, In k (map fst d') <-> In k (map fst d).
Proof.
  unfold MonkeyAgent.apply_modifiers. intros H k.
  destruct (if Py.Qltb _ _ then _ else _) as [d1 |] eqn:E1; [| discriminate].
  simpl in H.
  assert (H1 : In k (map fst d1) <-> In k (map fst d)).
  { destruct (Py.Qltb _ _).
    - apply (boost_recent_keys _ _ _ _ E1).
    - injection E1 as <-. reflexivity. }
  rewrite <- H1.
  destruct (Qeq_bool _ 0).
  - injection H as <-. reflexivity.
  - destruct (Py.max_by snd _) as [mc |]; [| discriminate]. simpl in H.
    apply (od_scale_keys _ _ _ _ H).
Qed.

Lemma monkey_metrics_ok game_state (w : World MonkeyAgent.t) gs' w' :
  MonkeyAgent._update_game_state_metrics game_state w = Ok (gs', w') ->
  gs_strikes gs' = gs_strikes game_state /\
  gs_spot_price gs' = gs_spot_price game_state /\
  MonkeyAgent.defense_history (obj w') = MonkeyAgent.defense_history (obj w) /\
  MonkeyAgent.recent_losses (obj w') = MonkeyAgent.recent_losses (obj w).
Proof.
  unfold MonkeyAgent._update_game_state_metrics. intros H.
  apply bind_ok in H as (a & w0 & Hget & H). injection Hget as <- <-.
  cbv zeta in H.
  apply bind_ok in H as (rc & w0 & Hrc & H). apply lift_ok in Hrc as [_ ->].
  apply bind_ok in H as ([] & w1 & Hput & H). injection Hput as <-.
  apply bind_ok in H as (top & w2 & Htop & H). apply lift_ok in Htop as [_ ->].
  injection H as <- <-. repeat split.
Qed.

Lemma sorted_scaled (T : Q) (l : list (Z * Q)) :
  0 < T ->
  StronglySorted (before snd) l ->
  StronglySorted (before snd) (map (fun e => (fst e, snd e / T)) l).
Proof.
  intros HT H. induction H as [| x l Hs IH Hx]; simpl; constructor; [exact IH |].
  rewrite List.Forall_forall in *. intros y Hy.
  apply in_map_iff in Hy as (e & <- & He). specialize (Hx e He).
  unfold before in *. simpl.
  unfold Qdiv. apply Qmult_le_compat_r; [exact Hx |].
  apply Qlt_le_weak. apply Qinv_lt_0_compat. exact HT.
Qed.

Lemma sorted_uniform (c : Q) (l : list Z) :
  StronglySorted (before snd) (map (fun s => (s, c)) l).
Proof.
  induction l as [| s l IH]; simpl; constructor; [exact IH |].
  rewrite List.Forall_forall. intros y Hy.
  apply in_map_iff in Hy as (e & <- & _). unfold before. simpl. lra.
Qed.

(** X8.  Whatever profile is active, a call of [predict_targets] that
    returns yields between one and three predictions, every predicted
    strike is one of the strikes on offer, and no prediction is more likely
    than one listed before it.  The first prediction is recorded as the
    last defense and as the newest entry of the defense history; the loss
    flags are left alone. *)
Theorem predictions_are_ranked_strikes (pm : Profiles.ProfileManager)
    (game_state : GameState) (w w' : World MonkeyAgent.t) (predictions : list (Z * Q)) :
  MonkeyAgent.predict_targets pm game_state w = Ok (predictions, w') ->
  exists first rest,
    predictions = first :: rest /\
    (length predictions <= 3)%nat /\
    (forall p, In p predictions -> In (fst p) (gs_strikes game_state)) /\
    StronglySorted (before snd) predictions /\
    MonkeyAgent.last_defense (obj w') = Some (fst first) /\
    MonkeyAgent.defense_history (obj w')
    = push_bounded (fst first) (MonkeyAgent.defense_history (obj w)) /\
    MonkeyAgent.recent_losses (obj w') = MonkeyAgent.recent_losses (obj w).
Proof.
  unfold MonkeyAgent.predict_targets. intros H.
  apply bind_ok in H as (gs' & w1 & Hmet & H).
  apply monkey_metrics_ok in Hmet as (Hstrikes & Hspot & Hhist & Hloss).
  apply bind_ok in H as (weights & w0 & Hw & H). apply lift_ok in Hw as [_ ->].
  cbv zeta in H.
  apply bind_ok in H as (a & w0 & Hget & H). injection Hget as <- <-.
  apply bind_ok in H as (d & w0 & Hd & H). apply lift_ok in Hd as [Hd ->].
  apply bind_ok in H as (profile & w0 & Hp & H). apply lift_ok in Hp as [_ ->].
  apply bind_ok in H as (d' & w2 & Hmod & H).
  assert (Hkeys : obj w2 = obj w1 /\ forall k, In k (map fst d') -> In k (gs_strikes game_state)).
  { rewrite <- Hstrikes. destruct profile as [profile |].
    - apply lift_ok in Hmod as [Hmod ->]. split; [reflexivity |].
      intros k Hk. apply (apply_modifiers_keys _ _ _ _ _ Hmod) in Hk.
      apply (score_all_keys _ _ _ _ Hd) in Hk as [Hk | []]. exact Hk.
    - injection Hmod as <- <-. split; [reflexivity |].
      intros k Hk. apply (score_all_keys _ _ _ _ Hd) in Hk as [Hk | []]. exact Hk. }
  destruct Hkeys as [Ho Hkeys].
  set (top := Py.slice_to 3 (Py.sorted_desc snd d')) in H.
  set (nearby := Py.slice_to 3 (Py.sorted_asc _ (gs_strikes gs'))) in H.
  set (total := Py.sum (map snd top)) in H.
  set (preds := if Py.Qltb 0 total then _ else _) in H.
  assert (Hpreds :
    (length preds <= 3)%nat /\
    (forall p, In p preds -> In (fst p) (gs_strikes game_state)) /\
    StronglySorted (before snd) preds).
  { unfold preds. destruct (Py.Qltb 0 total) eqn:Et.
    - apply Qltb_lt in Et.
      split; [rewrite length_map; apply slice_to_3_length |].
      split.
      { intros p Hp. apply in_map_iff in Hp as (e & <- & He). simpl.
        apply Hkeys. apply in_map. apply slice_to_In in He.
        apply (Permutation_in _ (sorted_desc_perm snd d')). exact He. }
      apply sorted_scaled; [exact Et |]. unfold top. rewrite slice_to_3.
      apply firstn_sorted. apply sorted_desc_sorted.
    - split; [rewrite length_map; apply slice_to_3_length |].
      split.
      { intros p Hp. apply in_map_iff in Hp as (s & <- & Hs). simpl.
        apply slice_to_In in Hs. apply sorted_asc_In in Hs.
        rewrite <- Hstrikes. exact Hs. }
      apply sorted_uniform. }
  destruct preds as [| first rest]; [discriminate |].
  apply bind_ok in H as ([] & w3 & Hm & H). injection Hm as <-. injection H as <- <-.
  exists first, rest. split; [reflexivity |].
  destruct Hpreds as (H1 & H2 & H3).
  split; [exact H1 |]. split; [exact H2 |]. split; [exact H3 |].
  simpl. rewrite Ho. split; [reflexivity |].
  split; [rewrite Hhist; reflexivity | exact Hloss].
Qed.

Lemma predictions_are_ranked_strikes_witness :
  exists first rest,
    fst Demo.predicted = first :: rest /\
    (length (fst Demo.predicted) <= 3)%nat /\
    StronglySorted (before snd) (fst Demo.predicted).
Proof.
  destruct (predictions_are_ranked_strikes Demo.no_profiles Demo.game_state
              Demo.fresh_monkey (snd Demo.predicted) (fst Demo.predicted))
    as (first & rest & H1 & H2 & _ & H3 & _).
  - vm_compute. reflexivity.
  - exists first, rest. repeat split; assumption.
Defined.

(** ** Profiles *)

(** X9.  A switch to a profile that is loaded for the agent type succeeds,
    and from then on that profile is the active one of the agent type; the
    loaded profiles and the active profile of every other agent type are
    left alone.  A switch to an unknown agent type or to a profile that is
    not loaded fails and changes nothing. *)
Theorem switch_profile_activates (pm : Profiles.ProfileManager)
    (agent_type profile_name : string) :
  let switched := Profiles.switch_profile pm agent_type profile_name in
  match loaded_profile pm agent_type profile_name with
  | Some profile =>
      fst switched = true /\
      Profiles.get_active_profile (snd switched) agent_type = Ok (Some profile) /\
      Profiles.loaded_profiles (snd switched) = Profiles.loaded_profiles pm /\
      forall other, other <> agent_type ->
        Profiles.active_profiles (snd switched) !! other
        = Profiles.active_profiles pm !! other
  | None => switched = (false, pm)
  end.
Proof.
  unfold loaded_profile, Profiles.switch_profile, Profiles.get_active_profile.
  destruct (Profiles.loaded_profiles pm !! agent_type) as [by_file |] eqn:El; simpl;
    [| reflexivity].
  destruct (by_file !! profile_name) as [profile |] eqn:Ep; simpl; [| reflexivity].
  rewrite El, lookup_insert_eq, Ep.
  repeat split. intros other Hne. apply lookup_insert_ne. congruence.
Qed.

Lemma switch_profile_activates_witness :
  fst (Profiles.switch_profile Demo.one_profile "monkey" "monkey_profile.json") = true /\
  Profiles.get_active_profile
    (snd (Profiles.switch_profile Demo.one_profile "monkey" "monkey_profile.json")) "monkey"
  = Ok (Some Demo.cautious).
Proof.
  pose proof (switch_profile_activates Demo.one_profile "monkey" "monkey_profile.json") as H.
  change (loaded_profile Demo.one_profile "monkey" "monkey_profile.json")
    with (Some Demo.cautious) in H.
  destruct H as (H1 & H2 & _). split; assumption.
Defined.

Lemma boost_keys k b biases (weights weights' : gmap string Q) :
  Profiles.boost k b biases weights = Ok weights' ->
  forall k', is_Some (weights' !! k') <-> is_Some (weights !! k').
Proof.
  unfold Profiles.boost.
  destruct (weights !! k) as [v |] eqn:Ek; [| discriminate].
  destruct (biases !! b) as [x |]; [| discriminate].
  intros H k'. injection H as <-.
  destruct (decide (k = k')) as [<- | Hne].
  - rewrite lookup_insert_eq, Ek. split; eauto.
  - rewrite lookup_insert_ne by exact Hne. reflexivity.
Qed.

Lemma boost_if_keys c k b biases (weights weights' : gmap string Q) :
  Profiles.boost_if c k b biases weights = Ok weights' ->
  forall k', is_Some (weights' !! k') <-> is_Some (weights !! k').
Proof.
  destruct c; simpl.
  - apply boost_keys.
  - intros H. injection H as <-. reflexivity.
Qed.

(** X10.  The weights [apply_profile_to_agent] returns: none when the agent
    type has no active profile; otherwise one weight for every behaviour
    weight of the active profile and no other. *)
Theorem applied_weights_keep_the_profile_keys (pm : Profiles.ProfileManager)
    (agent_type : string) (game_state : GameState) (weights : gmap string Q) :
  Profiles.apply_profile_to_agent pm agent_type game_state = Ok weights ->
  match Profiles.get_active_profile pm agent_type with
  | Ok None => weights = ∅
  | Ok (Some profile) =>
      forall k, is_Some (weights !! k)
                <-> is_Some (Profiles.behavior_weights profile !! k)
  | Raise _ => False
  end.
Proof.
  unfold Profiles.apply_profile_to_agent.
  destruct (Profiles.get_active_profile pm agent_type) as [[profile |] | err]; simpl;
    [| intros H; injection H as <-; reflexivity | discriminate].
  destruct (if String.eqb agent_type "retail" then _ else _) as [boosted |] eqn:Eb;
    [| discriminate].
  simpl. intros H. injection H as <-.
  assert (Hkeys : forall k, is_Some (boosted !! k)
                            <-> is_Some (Profiles.behavior_weights profile !! k)).
  { intros k. destruct (String.eqb agent_type "retail").
    - destruct (Profiles.boost_if _ "spot_distance" _ _ _) as [w1 |] eqn:E1; [| discriminate].
      simpl in Eb. rewrite (boost_if_keys _ _ _ _ _ _ Eb k).
      apply (boost_if_keys _ _ _ _ _ _ E1 k).
    - destruct (String.eqb agent_type "monkey").
      + destruct (Profiles.boost_if _ "spot_distance" _ _ _) as [w1 |] eqn:E1; [| discriminate].
        simpl in Eb. rewrite (boost_if_keys _ _ _ _ _ _ Eb k).
        apply (boost_if_keys _ _ _ _ _ _ E1 k).
      + injection Eb as <-. reflexivity. }
  destruct (Py.Qltb 0 _) eqn:Et.
  - intros k. rewrite lookup_fmap, <- Hkeys.
    destruct (boosted !! k); simpl; split; intros [? ?]; try discriminate; eauto.
  - exact Hkeys.
Qed.

Lemma applied_weights_keep_the_profile_keys_witness :
  is_Some (Demo.cautious_weights !! "hit_history") /\
  Demo.cautious_weights !! "recency" = None.
Proof.
  pose proof (applied_weights_keep_the_profile_keys Demo.one_profile "monkey"
                Demo.game_state Demo.cautious_weights eq_refl) as H.
  change (Profiles.get_active_profile Demo.one_profile "monkey")
    with (Ok (Some Demo.cautious)) in H.
  cbv beta iota in H. split.
  - apply H. exists (3 # 10). reflexivity.
  - apply eq_None_not_Some. intros Hs. apply H in Hs.
    destruct Hs as [v Hv]. vm_compute in Hv. discriminate.
Defined.

(** ** The constructor of the engine *)

Lemma insert_asc_perm {A} (key : A -> Q) (x : A) (l : list A) :
  Permutation (Py.insert_asc key x l) (x :: l).
Proof.
  induction l as [| y l IH]; simpl; [reflexivity |].
  destruct (Qle_bool (key x) (key y)); [reflexivity |].
  rewrite IH. apply perm_swap.
Qed.

Lemma sorted_asc_perm {A} (key : A -> Q) (l : list A) :
  Permutation (Py.sorted_asc key l) l.
Proof.
  induction l as [| x l IH]; simpl; [reflexivity |].
  rewrite insert_asc_perm, IH. reflexivity.
Qed.

Lemma insert_asc_sorted (x : Z) (l : list Z) :
  StronglySorted Z.le l -> StronglySorted Z.le (Py.insert_asc inject_Z x l).
Proof.
  induction 1 as [| y l Hs IH Hy]; simpl.
  - constructor; [constructor | constructor].
  - destruct (Qle_bool (inject_Z x) (inject_Z y)) eqn:E.
    + apply Qle_bool_iff in E. rewrite <- Zle_Qle in E.
      constructor; [constructor; assumption |].
      constructor; [exact E |].
      rewrite List.Forall_forall in *. intros z Hz. specialize (Hy z Hz). lia.
    + assert (Hlt : (y < x)%Z).
      { destruct (Z.lt_ge_cases y x) as [H | H]; [exact H |].
        rewrite Zle_Qle in H. apply Qle_bool_iff in H. congruence. }
      constructor; [exact IH |].
      rewrite List.Forall_forall in *. intros z Hz.
      apply (Permutation_in _ (insert_asc_perm inject_Z x l)) in Hz.
      destruct Hz as [<- | Hz]; [lia | apply Hy; exact Hz].
Qed.

Lemma sorted_asc_sorted (l : list Z) : StronglySorted Z.le (Py.sorted_asc inject_Z l).
Proof.
  induction l as [| x l IH]; simpl; [constructor |].
  apply insert_asc_sorted. exact IH.
Qed.

Lemma tree_positions_other sx sp i (l : list Z) acc (k : Z) :
  ~ In k l -> GameEngine.tree_positions sx sp i l acc !! k = acc !! k.
Proof.
  revert i acc. induction l as [| s l IH]; intros i acc Hk; simpl; [reflexivity |].
  rewrite IH by (intros H; apply Hk; right; exact H).
  apply lookup_insert_ne. intros ->. apply Hk. left. reflexivity.
Qed.

Lemma tree_positions_covers sx sp i (l : list Z) acc (k : Z) :
  In k l -> is_Some (GameEngine.tree_positions sx sp i l acc !! k).
Proof.
  revert i acc. induction l as [| s l IH]; intros i acc Hk; simpl; [destruct Hk |].
  destruct (in_dec Z.eq_dec k l) as [Hin | Hout].
  - apply IH. exact Hin.
  - destruct Hk as [-> | Hk]; [| contradiction].
    rewrite tree_positions_other by exact Hout.
    rewrite lookup_insert_eq. eauto.
Qed.

Lemma tree_positions_nth sx sp i (l : list Z) acc (j : nat) (s : Z) :
  NoDup l -> nth_error l j = Some s ->
  GameEngine.tree_positions sx sp i l acc !! s
  = Some (sx + inject_Z (i + Z.of_nat j) * sp).
Proof.
  revert i acc j. induction l as [| x l IH]; intros i acc j Hnd Hj.
  - destruct j; discriminate.
  - apply NoDup_cons in Hnd as [Hx Hnd]. destruct j as [| j]; simpl in *.
    + injection Hj as ->. rewrite tree_positions_other.
      * rewrite lookup_insert_eq, Z.add_0_r. reflexivity.
      * intros H. apply Hx. apply list_elem_of_In. exact H.
    + rewrite (IH (i + 1)%Z _ j Hnd Hj).
      replace (i + 1 + Z.of_nat j)%Z with (i + Z.pos (Pos.of_succ_nat j))%Z by lia.
      reflexivity.
Qed.

Lemma init_layout config pm rl ml e :
  GameEngine.init config pm rl ml = Ok e -> layout_ok e.
Proof.
  intros H.
  assert (Hall : match GameEngine.init config pm rl ml with
                 | Ok e => layout_ok e
                 | Raise _ => True
                 end).
  { unfold GameEngine.init.
    destruct (Py.sorted_asc inject_Z (STRIKES config)) as [| s0 l]; [exact I |].
    destruct (SLINGSHOTS config !! DEFAULT_SLINGSHOT config); [| exact I].
    cbn [GameEngine.valid_strikes GameEngine.TREE_X layout_ok].
    split; [discriminate |]. intros k Hk. apply tree_positions_covers. exact Hk. }
  rewrite H in Hall. exact Hall.
Qed.

(** X11.  The constructor of the engine raises [ValueError] exactly on an
    empty strike list, and [KeyError] exactly when the strikes are there but
    the default slingshot is not in the catalog.  Otherwise the universe is
    the strike list sorted in increasing order, the default slingshot is the
    current one, every strike of the universe has a tree, and when no
    strike is listed twice the trees stand in strike order, the first at
    x = 50 and each next one a fixed spacing of at most 30 further right. *)
Theorem init_universe (config : GameConfig) (pm : Profiles.ProfileManager)
    (retail_loaded monkey_loaded : list MemoryLogger.Memory) :
  match GameEngine.init config pm retail_loaded monkey_loaded with
  | Ok e =>
      Permutation (GameEngine.valid_strikes e) (STRIKES config) /\
      StronglySorted Z.le (GameEngine.valid_strikes e) /\
      SLINGSHOTS config !! DEFAULT_SLINGSHOT config
      = Some (GameEngine.current_slingshot e) /\
      layout_ok e /\
      tree_spacing (WIDTH config) (length (STRIKES config)) <= 30 /\
      (NoDup (STRIKES config) ->
       forall (i : nat) (s : Z),
         nth_error (GameEngine.valid_strikes e) i = Some s ->
         GameEngine.TREE_X e !! s
         = Some (50 + inject_Z (Z.of_nat i)
                      * tree_spacing (WIDTH config) (length (STRIKES config))))
  | Raise ValueError => STRIKES config = []
  | Raise KeyError =>
      STRIKES config <> [] /\ SLINGSHOTS config !! DEFAULT_SLINGSHOT config = None
  | Raise _ => False
  end.
Proof.
  unfold GameEngine.init.
  pose proof (sorted_asc_perm inject_Z (STRIKES config)) as Hperm.
  pose proof (sorted_asc_sorted (STRIKES config)) as Hsorted.
  destruct (Py.sorted_asc inject_Z (STRIKES config)) as [| s0 l] eqn:Es.
  { apply Permutation_nil. exact Hperm. }
  assert (Hne : STRIKES config <> []).
  { intros E. rewrite E in Hperm. apply Permutation_sym, Permutation_nil in Hperm.
    discriminate. }
  destruct (SLINGSHOTS config !! DEFAULT_SLINGSHOT config) as [sling |];
    [| split; [exact Hne | reflexivity]].
  cbn [GameEngine.valid_strikes GameEngine.TREE_X GameEngine.current_slingshot layout_ok].
  split; [exact Hperm |]. split; [exact Hsorted |]. split; [reflexivity |].
  split.
  { split; [discriminate |]. intros k Hk. apply tree_positions_covers. exact Hk. }
  assert (Hlen : length (s0 :: l) = length (STRIKES config)).
  { apply Permutation_length. exact Hperm. }
  split.
  { unfold tree_spacing, Py.min2. destruct (Py.Qltb _ 30) eqn:E; [| lra].
    apply Qltb_lt in E. lra. }
  intros Hnd i s Hi.
  rewrite <- Hlen. unfold tree_spacing.
  rewrite (tree_positions_nth 50 _ 0 (s0 :: l) ∅ i s); [reflexivity | | exact Hi].
  rewrite Hperm. exact Hnd.
Qed.

Lemma init_universe_witness :
  GameEngine.TREE_X Demo.engine !! 630%Z
  = Some (50 + inject_Z (Z.of_nat 1) * tree_spacing 1280 3).
Proof.
  pose proof (init_universe Demo.config Demo.no_profiles [] []) as H.
  change (GameEngine.init Demo.config Demo.no_profiles [] []) with (Ok Demo.engine) in H.
  destruct H as (_ & _ & _ & _ & _ & Htrees).
  assert (Hnd : NoDup (STRIKES Demo.config)).
  { apply (bool_decide_unpack _). vm_compute. reflexivity. }
  apply (Htrees Hnd 1%nat 630%Z eq_refl).
Defined.

(** ** The trees of a running engine *)

Lemma run_op_layout str_float targets op (w w' : World GameEngine.t) :
  run_op str_float targets op w = Ok (tt, w') ->
  GameEngine.valid_strikes (obj w') = GameEngine.valid_strikes (obj w) /\
  GameEngine.TREE_X (obj w') = GameEngine.TREE_X (obj w) /\
  GameEngine.TREE_Y (obj w') = GameEngine.TREE_Y (obj w).
Proof.
  intros H. destruct op; simpl in H.
  - destruct (GameEngine.paused (obj w)) eqn:Hp.
    { rewrite (update_paused _ _ _ Hp) in H. injection H as <-. repeat split. }
    destruct (update_ok _ _ _ _ H Hp) as (launched & w1 & survivors & w2 & Hl & Ha & ->).
    pose proof (launch_coconut_core _ _ _ _ _ Hl) as Hcore.
    apply advance_all_but_stats in Ha. simpl in Ha.
    unfold same_core, same, core in Hcore.
    injection Hcore as _ Hv _ _ _ _ _ _ _ _ Hx Hy _ _ _ _.
    unfold same_but_stats, same, but_stats in Ha.
    injection Ha as _ _ _ _ _ Hv2 _ _ _ _ _ Hx2 Hy2 _ _ _ _.
    simpl. rewrite <- Hv2, <- Hx2, <- Hy2, Hv, Hx, Hy.
    destruct launched; repeat split.
  - injection H as <-. repeat split.
  - injection H as <-. simpl.
    destruct (String.eqb agent_type "retail"); [repeat split |].
    destruct (String.eqb agent_type "monkey"); repeat split.
  - apply bind_ok in H as (b & w1 & Hs & H). injection H as <-.
    unfold GameEngine.switch_profile in Hs.
    apply bind_ok in Hs as (e & w0 & Hget & Hs). injection Hget as <- <-.
    assert (Hto : forall agent names idx,
               GameEngine.switch_to agent names idx w = Ok (b, w1) ->
               GameEngine.valid_strikes (obj w1) = GameEngine.valid_strikes (obj w) /\
               GameEngine.TREE_X (obj w1) = GameEngine.TREE_X (obj w) /\
               GameEngine.TREE_Y (obj w1) = GameEngine.TREE_Y (obj w)).
    { intros agent names idx Hto. unfold GameEngine.switch_to in Hto.
      apply bind_ok in Hto as (e & w0 & Hget & Hto). injection Hget as <- <-.
      apply bind_ok in Hto as (n & w0 & Hn & Hto). apply lift_ok in Hn as [_ ->].
      cbv zeta in Hto. apply bind_ok in Hto as ([] & w2 & Hp & Hto).
      injection Hp as <-. injection Hto as _ <-. repeat split. }
    destruct (_ && _); [apply (Hto _ _ _ Hs) |].
    destruct (_ && _); [apply (Hto _ _ _ Hs) |].
    injection Hs as _ <-. repeat split.
  - apply bind_ok in H as (b & w1 & Hs & H). injection H as <-.
    unfold GameEngine.switch_slingshot in Hs.
    apply bind_ok in Hs as (e & w0 & Hget & Hs). injection Hget as <- <-.
    destruct (SLINGSHOTS _ !! _); injection Hs as _ <-; repeat split.
  - injection H as <-. repeat split.
  - injection H as <-. repeat split.
Qed.

(** X12.  In every world reachable from a fresh engine the position of a
    tree can be asked for any strike: [_get_tree_position] does not raise,
    changes nothing, and returns the tree of the nearest strike of the
    universe. *)
Theorem tree_position_defined str_float targets config (w : World GameEngine.t)
    (strike : Z) :
  reachable str_float targets config w ->
  exists k tree_x,
    GameEngine._get_valid_strike (GameEngine.valid_strikes (obj w)) (inject_Z strike)
    = Ok k /\
    In k (GameEngine.valid_strikes (obj w)) /\
    GameEngine.TREE_X (obj w) !! k = Some tree_x /\
    GameEngine._get_tree_position strike w
    = Ok ((tree_x, GameEngine.TREE_Y (obj w)), w).
Proof.
  intros Hreach.
  assert (Hl : layout_ok (obj w)).
  { induction Hreach as [pm rl ml rng now e Hinit | op w w' _ IH Hop].
    - apply (init_layout _ _ _ _ _ Hinit).
    - apply run_op_layout in Hop as (Hv & Hx & _).
      unfold layout_ok. rewrite Hv, Hx. exact IH. }
  destruct Hl as [Hne Htrees].
  destruct (snap_nearest _ (inject_Z strike) Hne) as (k & Hk & Hin & _).
  destruct (Htrees k Hin) as [tree_x Hx].
  exists k, tree_x. split; [exact Hk |]. split; [exact Hin |]. split; [exact Hx |].
  unfold GameEngine._get_tree_position, bind, get, lift. rewrite Hk, Hx. reflexivity.
Qed.

Lemma tree_position_defined_witness :
  exists k tree_x,
    GameEngine._get_valid_strike (GameEngine.valid_strikes (obj Demo.world)) (inject_Z 640)
    = Ok k /\
    In k (GameEngine.valid_strikes (obj Demo.world)) /\
    GameEngine.TREE_X (obj Demo.world) !! k = Some tree_x /\
    GameEngine._get_tree_position 640 Demo.world
    = Ok ((tree_x, GameEngine.TREE_Y (obj Demo.world)), Demo.world).
Proof.
  apply (tree_position_defined Demo.str_float Demo.no_targets Demo.config).
  apply (reach_init _ _ _ Demo.no_profiles [] []). reflexivity.
Defined.

(** ** When curation fails *)

Lemma score_memory_cases (m : MemoryLogger64.Memory) (w : World MemoryLogger64.t) :
  match MemoryLogger64.score_memory m w with
  | Ok (_, w') =>
      Spec64.scoreable (now w 0%nat) m /\
      w' = mkWorld (rng w) (fun n => now w (S n)) (obj w)
  | Raise err => Spec64.refused (now w 0%nat) m err
  end.
Proof.
  unfold MemoryLogger64.score_memory, bind, datetime_now, lift, ret. cbn [now rng obj].
  unfold Spec64.scoreable, Spec64.refused, MemoryLogger64.age_seconds.
  destruct (MemoryLogger64.timestamp m) as [seconds | seconds | |] eqn:Ets;
    try reflexivity.
  unfold Binary64.truediv. fold (Spec64.decay_divisor (now w 0%nat) seconds).
  destruct (PrimFloat.is_zero (Spec64.decay_divisor (now w 0%nat) seconds)) eqn:Ez.
  { left. split; reflexivity. }
  unfold Binary64.int_truediv, Binary64.in_range. cbn [Z.eqb].
  destruct (PrimFloat.is_infinity (Binary64.quotient (MemoryLogger64.references m) 10))
    eqn:Ei.
  { right. repeat split. }
  split; [| reflexivity]. exists seconds. repeat split; assumption.
Qed.

Lemma score_loop_cases (ms : list MemoryLogger64.Memory) (w : World MemoryLogger64.t) :
  match mapM MemoryLogger64.score_memory ms w with
  | Ok _ =>
      forall i m, nth_error ms i = Some m -> Spec64.scoreable (now w i) m
  | Raise err =>
      exists i m,
        nth_error ms i = Some m /\
        (forall j earlier, (j < i)%nat -> nth_error ms j = Some earlier ->
                           Spec64.scoreable (now w j) earlier) /\
        Spec64.refused (now w i) m err
  end.
Proof.
  revert w. induction ms as [| m ms IH]; intros w.
  - simpl. intros i m Hi. destruct i; discriminate.
  - simpl. unfold bind at 1.
    pose proof (score_memory_cases m w) as Hm.
    destruct (MemoryLogger64.score_memory m w) as [[y w1] | err].
    + destruct Hm as [Hm ->].
      specialize (IH (mkWorld (rng w) (fun n => now w (S n)) (obj w))).
      unfold bind.
      destruct (mapM MemoryLogger64.score_memory ms _) as [[ys w'] | err].
      * intros i m' Hi. destruct i as [| i]; simpl in Hi.
        -- injection Hi as <-. exact Hm.
        -- apply (IH i m' Hi).
      * destruct IH as (i & m' & Hi & Hbefore & Hbad).
        exists (S i), m'. split; [exact Hi |]. split; [| exact Hbad].
        intros j earlier Hj Hnth. destruct j as [| j]; simpl in Hnth.
        -- injection Hnth as <-. exact Hm.
        -- apply (Hbefore j earlier); [lia | exact Hnth].
    + exists 0%nat, m. split; [reflexivity |]. split; [| exact Hm].
      intros j earlier Hj. lia.
Qed.

Lemma day_ahead_divisor (t_now seconds : Q) :
  seconds - t_now == 86400 ->
  PrimFloat.is_zero (Spec64.decay_divisor t_now seconds) = true.
Proof.
  intros H. unfold Spec64.decay_divisor, Binary64.of_Q.
  assert (E : Qred (t_now - seconds) = Qred (- (86400))).
  { apply Qred_complete. lra. }
  rewrite E. vm_compute. reflexivity.
Qed.

(** X13.  Curation scores the memories in store order, the [i]-th one at
    the [i]-th reading of the clock, and raises at the first one it cannot
    score: [TypeError] when the timestamp is no text or carries a UTC
    offset, [ValueError] when it is text that is no ISO time,
    [ZeroDivisionError] when the divisor [1 + age/86400] of the age factor is
    zero, as it is for a memory stamped exactly one day ahead of that
    reading, and [OverflowError] when a tenth of the reference count is out
    of the range of a [float].  When every memory can be scored, curation
    returns. *)
Theorem curation_fails_at_the_first_unscoreable (w : World MemoryLogger64.t) :
  match MemoryLogger64._curate_memories w with
  | Ok _ =>
      forall i m, nth_error (MemoryLogger64.memories (obj w)) i = Some m ->
                  Spec64.scoreable (now w i) m
  | Raise err =>
      exists i m,
        nth_error (MemoryLogger64.memories (obj w)) i = Some m /\
        (forall j earlier, (j < i)%nat ->
           nth_error (MemoryLogger64.memories (obj w)) j = Some earlier ->
           Spec64.scoreable (now w j) earlier) /\
        Spec64.refused (now w i) m err
  end /\
  (forall i m seconds,
      nth_error (MemoryLogger64.memories (obj w)) i = Some m ->
      MemoryLogger64.timestamp m = MemoryLogger64.Naive seconds ->
      seconds - now w i == 86400 ->
      exists err, MemoryLogger64._curate_memories w = Raise err /\
                  ((forall j earlier, (j < i)%nat ->
                      nth_error (MemoryLogger64.memories (obj w)) j = Some earlier ->
                      Spec64.scoreable (now w j) earlier) ->
                   err = ZeroDivisionError)).
Proof.
  assert (Hcases :
    match MemoryLogger64._curate_memories w with
    | Ok _ =>
        forall i m, nth_error (MemoryLogger64.memories (obj w)) i = Some m ->
                    Spec64.scoreable (now w i) m
    | Raise err =>
        exists i m,
          nth_error (MemoryLogger64.memories (obj w)) i = Some m /\
          (forall j earlier, (j < i)%nat ->
             nth_error (MemoryLogger64.memories (obj w)) j = Some earlier ->
             Spec64.scoreable (now w j) earlier) /\
          Spec64.refused (now w i) m err
    end).
  { unfold MemoryLogger64._curate_memories, bind, get.
    pose proof (score_loop_cases (MemoryLogger64.memories (obj w)) w) as H.
    destruct (mapM MemoryLogger64.score_memory _ w) as [[ys w'] | err]; exact H. }
  split; [exact Hcases |].
  intros i m seconds Hi Hts Hday.
  pose proof (day_ahead_divisor _ _ Hday) as Hzero.
  destruct (MemoryLogger64._curate_memories w) as [r | err].
  - exfalso. destruct (Hcases i m Hi) as (s & Hs & Hnz & _).
    rewrite Hts in Hs. injection Hs as <-. congruence.
  - exists err. split; [reflexivity |]. intros Hbefore.
    destruct Hcases as (i' & m' & Hi' & Hbefore' & Hbad).
    destruct (Nat.lt_trichotomy i' i) as [Hlt | [-> | Hgt]].
    + exfalso. destruct (Hbefore i' m' Hlt Hi') as (s & Hs & Hnz & Hfin).
      unfold Spec64.refused in Hbad. rewrite Hs in Hbad.
      destruct Hbad as [[_ Hz] | (_ & _ & Hinf)]; congruence.
    + rewrite Hi in Hi'. injection Hi' as <-.
      unfold Spec64.refused in Hbad. rewrite Hts in Hbad.
      destruct Hbad as [[-> _] | (_ & Hnz & _)]; [reflexivity | congruence].
    + exfalso. destruct (Hbefore' i m Hgt Hi) as (s & Hs & Hnz & _).
      rewrite Hts in Hs. injection Hs as <-. congruence.
Qed.

Lemma curation_fails_at_the_first_unscoreable_witness :
  MemoryLogger64._curate_memories Demo64.day_ahead = Raise ZeroDivisionError.
Proof.
  destruct (proj2 (curation_fails_at_the_first_unscoreable Demo64.day_ahead) 1%nat
              (MemoryLogger64.mkMemory "Hit call strike 630 at spot 628.0"
                 (MemoryLogger64.importance
                    (nth 1 (MemoryLogger64.memories (obj Demo64.day_ahead))
                       (MemoryLogger64.mkMemory "" PrimFloat.zero MemoryLogger64.Malformed 0)))
                 (MemoryLogger64.Naive 86401) 0)
              86401)
    as (err & Hrun & Herr).
  - reflexivity.
  - reflexivity.
  - vm_compute. reflexivity.
  - rewrite Hrun. f_equal. apply Herr.
    intros j earlier Hj Hnth.
    destruct j as [| j]; [| lia]. injection Hnth as <-.
    exists 0. split; [reflexivity |]. split; vm_compute; reflexivity.
Defined.

(** ** What a retrieval returns *)

Lemma consider_entries ctx (ms : list MemoryLogger.Memory) (w : World MemoryLogger.t)
    vs w' :
  mapM (MemoryLogger.consider ctx) ms w = Ok (vs, w') ->
  forall e, In e (omap snd vs) ->
            exists i m, nth_error ms i = Some m /\
                        Py.Qltb 0 (relevance ctx m (rng w i)) = true /\
                        fst e = referenced m.
Proof.
  revert w vs w'. induction ms as [| m ms IH]; intros w vs w' H.
  - injection H as <- _. intros e [].
  - simpl in H. apply bind_ok in H as ([m1 o1] & w1 & Hc & H).
    apply bind_ok in H as (vs' & w2 & Hvs & H). injection H as <- _.
    unfold MemoryLogger.consider in Hc.
    apply bind_ok in Hc as (u & w0 & Hu & Hc). injection Hu as <- <-.
    cbv zeta in Hc.
    intros e He. simpl in He.
    destruct (Py.Qltb 0 _) eqn:E.
    + injection Hc as <- <- <-. simpl in He. destruct He as [<- | He].
      * exists 0%nat, m. split; [reflexivity |]. split; [exact E | reflexivity].
      * destruct (IH _ _ _ Hvs e He) as (i & m0 & Hi & Hp & Hr).
        exists (S i), m0. split; [exact Hi |]. split; [exact Hp | exact Hr].
    + injection Hc as <- <- <-. simpl in He.
      destruct (IH _ _ _ Hvs e He) as (i & m0 & Hi & Hp & Hr).
      exists (S i), m0. split; [exact Hi |]. split; [exact Hp | exact Hr].
Qed.

Lemma consider_positive ctx (ms : list MemoryLogger.Memory) (w : World MemoryLogger.t)
    vs w' :
  mapM (MemoryLogger.consider ctx) ms w = Ok (vs, w') ->
  forall i m, nth_error ms i = Some m ->
              Py.Qltb 0 (relevance ctx m (rng w i)) = true ->
              In (referenced m) (map fst (omap snd vs)).
Proof.
  revert w vs w'. induction ms as [| m ms IH]; intros w vs w' H i m0 Hi Hp.
  - destruct i; discriminate.
  - simpl in H. apply bind_ok in H as ([m1 o1] & w1 & Hc & H).
    apply bind_ok in H as (vs' & w2 & Hvs & H). injection H as <- _.
    unfold MemoryLogger.consider in Hc.
    apply bind_ok in Hc as (u & w0 & Hu & Hc). injection Hu as <- <-.
    cbv zeta in Hc.
    destruct i as [| i]; simpl in Hi.
    + injection Hi as ->. unfold relevance in Hp. rewrite Hp in Hc.
      injection Hc as <- <- <-. left. reflexivity.
    + destruct (Py.Qltb 0 _); injection Hc as <- <- <-; simpl;
        [right |]; apply (IH _ _ _ Hvs i m0 Hi); exact Hp.
Qed.

(** X14.  A retrieval never raises.  It returns at most [limit] memories
    when the limit is not negative, and never more than the store holds.
    Every memory returned is a memory of the store whose relevance,
    exploration draw included, was positive, with its reference count
    raised by one; and when the limit is at least the size of the store,
    every memory whose relevance was positive is returned. *)
Theorem retrieval_returns_relevant (ctx : MemoryLogger.Context) (limit : Z)
    (w : World MemoryLogger.t) :
  exists result w',
    MemoryLogger.get_relevant_memories ctx limit w = Ok (result, w') /\
    ((0 <= limit)%Z -> (Z.of_nat (length result) <= limit)%Z) /\
    (length result <= length (MemoryLogger.memories (obj w)))%nat /\
    (forall returned, In returned result ->
       exists i m, nth_error (MemoryLogger.memories (obj w)) i = Some m /\
                   Py.Qltb 0 (relevance ctx m (rng w i)) = true /\
                   returned = referenced m) /\
    ((Z.of_nat (length (MemoryLogger.memories (obj w))) <= limit)%Z ->
     forall i m, nth_error (MemoryLogger.memories (obj w)) i = Some m ->
                 Py.Qltb 0 (relevance ctx m (rng w i)) = true ->
                 In (referenced m) result).
Proof.
  destruct (consider_loop ctx (MemoryLogger.memories (obj w)) w)
    as (vs & w1 & Hvs & Hfst & Hobj & Hin).
  pose proof (consider_entries _ _ _ _ _ Hvs) as Hentries.
  pose proof (consider_positive _ _ _ _ _ Hvs) as Hpositive.
  unfold MemoryLogger.get_relevant_memories.
  unfold bind at 1, get at 1. unfold bind at 1. rewrite Hvs.
  unfold bind, modify, ret. cbv zeta.
  set (ranked := Py.sorted_desc snd (omap snd vs)).
  eexists _, _. split; [reflexivity |].
  assert (Hlen : (length ranked <= length (MemoryLogger.memories (obj w)))%nat).
  { unfold ranked. rewrite (Permutation_length (sorted_desc_perm snd _)).
    assert (Hvl : length vs = length (MemoryLogger.memories (obj w))).
    { rewrite <- (length_map fst vs), Hfst. apply visit_all_length. }
    rewrite <- Hvl. clear.
    induction vs as [| [m [e |]] vs IH]; simpl;
      [reflexivity | apply le_n_S; exact IH | apply le_S; exact IH]. }
  split.
  { intros Hlim. rewrite length_map, slice_to_nonneg by exact Hlim.
    rewrite length_firstn. lia. }
  split.
  { rewrite length_map. unfold Py.slice_to.
    destruct (0 <=? limit)%Z; rewrite length_firstn; lia. }
  split.
  { intros returned Hr. apply in_map_iff in Hr as (e & <- & He).
    apply slice_to_In in He.
    apply (Permutation_in _ (sorted_desc_perm snd _)) in He.
    apply Hentries. exact He. }
  intros Hlim i m Hi Hp.
  assert (Hall : Py.slice_to limit ranked = ranked).
  { rewrite slice_to_nonneg by lia. apply firstn_all2. lia. }
  rewrite Hall. unfold ranked.
  apply (Permutation_in _ (Permutation_map fst (Permutation_sym (sorted_desc_perm snd _)))).
  apply (Hpositive i m Hi Hp).
Qed.

Lemma retrieval_returns_relevant_witness :
  exists result w',
    MemoryLogger.get_relevant_memories Demo.no_match 2 Demo.half_draws = Ok (result, w') /\
    (Z.of_nat (length result) <= 2)%Z.
Proof.
  destruct (retrieval_returns_relevant Demo.no_match 2 Demo.half_draws)
    as (result & w' & Hrun & Hlim & _).
  exists result, w'. split; [exact Hrun |]. apply Hlim. lia.
Defined.

(** ** The strikes the market loader generates *)

Lemma int_near (x : Q) : x - 1 < inject_Z (Py.int x) /\ inject_Z (Py.int x) < x + 1.
Proof.
  destruct x as [n d]. unfold Py.int. simpl.
  pose proof (Z.quot_rem' n (Z.pos d)) as Hqr.
  pose proof (Z.rem_bound_abs n (Z.pos d) ltac:(discriminate)) as Hr.
  set (q := Z.quot n (Z.pos d)) in *. set (r := Z.rem n (Z.pos d)) in *.
  unfold Qlt, Qminus, Qplus, Qopp, inject_Z. simpl.
  rewrite !Pos.mul_1_r. split; nia.
Qed.

Lemma range_length (lo hi : Z) : length (Py.range lo hi) = Z.to_nat (hi - lo).
Proof. unfold Py.range. rewrite length_map, length_seq. reflexivity. Qed.

Lemma range_In (lo hi k : Z) : In k (Py.range lo hi) <-> (lo <= k < hi)%Z.
Proof.
  unfold Py.range. rewrite in_map_iff. split.
  - intros (i & <- & Hi). apply in_seq in Hi. lia.
  - intros Hk. exists (Z.to_nat (k - lo)). split; [lia |]. apply in_seq. lia.
Qed.

Lemma round_near (x : Q) :
  inject_Z (Py.round x) - (1 # 2) <= x /\ x <= inject_Z (Py.round x) + (1 # 2).
Proof.
  unfold Py.round. cbv zeta.
  pose proof (Qfloor_le x) as Hlo. pose proof (Qlt_floor x) as Hhi.
  rewrite inject_Z_plus in Hhi. change (inject_Z 1) with 1 in Hhi.
  destruct (Py.Qltb (x - inject_Z (Qfloor x)) (1 # 2)) eqn:E1.
  { apply Qltb_lt in E1. split; lra. }
  apply Qltb_ge in E1.
  destruct (Py.Qltb (1 # 2) (x - inject_Z (Qfloor x))) eqn:E2.
  { rewrite inject_Z_plus. change (inject_Z 1) with 1. split; lra. }
  apply Qltb_ge in E2.
  destruct (Z.even (Qfloor x)).
  - split; lra.
  - rewrite inject_Z_plus. change (inject_Z 1) with 1. split; lra.
Qed.

(** X15.  The strikes the loader generates are consecutive integers
    [lo, ..., hi], at least eleven of them.  With strike bounds at least ten
    apart in the historical data they run from one bound to the other;
    without bounds they are the 31 strikes around the rounded spot price,
    which is within one half of the spot. *)
Theorem generated_strikes_form_a_range (ld : MarketDataLoader.t) (spot_price : Q) :
  exists lo hi,
    MarketDataLoader._generate_strikes ld spot_price = Py.range lo (hi + 1) /\
    (lo + 10 <= hi)%Z /\
    (11 <= length (MarketDataLoader._generate_strikes ld spot_price))%nat /\
    (forall k, In k (MarketDataLoader._generate_strikes ld spot_price)
               <-> (lo <= k <= hi)%Z) /\
    (forall lo0 hi0,
        MarketDataLoader.min_strike ld = Some lo0 ->
        MarketDataLoader.max_strike ld = Some hi0 ->
        (lo0 + 10 <= hi0)%Z -> lo = lo0 /\ hi = hi0) /\
    (MarketDataLoader.min_strike ld = None \/ MarketDataLoader.max_strike ld = None ->
     lo = (Py.round spot_price - 15)%Z /\ hi = (Py.round spot_price + 15)%Z /\
     length (MarketDataLoader._generate_strikes ld spot_price) = 31%nat /\
     inject_Z lo + (29 # 2) <= spot_price /\ spot_price <= inject_Z hi - (29 # 2)).
Proof.
  unfold MarketDataLoader._generate_strikes. cbv zeta.
  set (bounds0 := match MarketDataLoader.min_strike ld with
                  | Some lo => _ | None => _ end).
  set (bounds := if (snd bounds0 - fst bounds0 <? 10)%Z then _ else bounds0).
  assert (Hwide : (fst bounds + 10 <= snd bounds)%Z).
  { unfold bounds. destruct (snd bounds0 - fst bounds0 <? 10)%Z eqn:E.
    - simpl. set (c := inject_Z (fst bounds0 + snd bounds0) / 2).
      destruct (int_near (c - 10)) as [_ Hlo].
      destruct (int_near (c + 10)) as [Hhi _].
      set (a := Py.int (c - 10)) in *. set (b := Py.int (c + 10)) in *.
      assert (Hab : inject_Z (a + 18) < inject_Z b).
      { rewrite inject_Z_plus. change (inject_Z 18) with 18. lra. }
      rewrite <- Zlt_Qlt in Hab. lia.
    - apply Z.ltb_ge in E. lia. }
  exists (fst bounds), (snd bounds).
  split; [reflexivity |]. split; [exact Hwide |].
  split; [rewrite range_length; lia |].
  split; [intros k; rewrite range_In; lia |].
  split.
  - intros lo0 hi0 Hlo Hhi Hw. unfold bounds, bounds0. rewrite Hlo, Hhi. simpl.
    destruct (hi0 - lo0 <? 10)%Z eqn:E; [apply Z.ltb_lt in E; lia |].
    split; reflexivity.
  - intros Hnone.
    assert (Hb0 : bounds0 = ((Py.round spot_price - 15)%Z, (Py.round spot_price + 15)%Z)).
    { unfold bounds0. destruct Hnone as [-> | Hmax]; [reflexivity |].
      rewrite Hmax. destruct (MarketDataLoader.min_strike ld); reflexivity. }
    assert (Hb : bounds = bounds0).
    { unfold bounds. rewrite Hb0. cbn [fst snd].
      destruct (Py.round spot_price + 15 - (Py.round spot_price - 15) <? 10)%Z eqn:E;
        [apply Z.ltb_lt in E; lia | reflexivity]. }
    rewrite Hb, Hb0. cbn [fst snd].
    split; [reflexivity |]. split; [reflexivity |].
    split; [rewrite range_length; lia |].
    destruct (round_near spot_price) as [H1 H2].
    unfold Z.sub. rewrite !inject_Z_plus.
    change (inject_Z (- (15))) with (- (15)). change (inject_Z 15) with 15.
    split; lra.
Qed.

Lemma generated_strikes_form_a_range_witness :
  exists lo hi,
    MarketDataLoader._generate_strikes Demo.loader 628 = Py.range lo (hi + 1) /\
    lo = 613%Z /\ hi = 643%Z.
Proof.
  destruct (generated_strikes_form_a_range Demo.loader 628)
    as (lo & hi & Hrange & _ & _ & _ & Hbounds & _).
  exists lo, hi. split; [exact Hrange |].
  apply (Hbounds 613%Z 643%Z eq_refl eq_refl). lia.
Defined.

(** ** The targets of a slingshot *)

Lemma target_at_spec ld sl base k :
  match MarketDataLoader.target_at ld sl base k with
  | Some t =>
      MarketDataLoader.strike t = k /\
      3 # 10 < MarketDataLoader.attractiveness t /\
      MarketDataLoader.attractiveness t
      == spec_attractiveness ld (MarketDataLoader.strike_bias sl) base k /\
      MarketDataLoader.t_option_type t = MarketDataLoader.option_type sl /\
      MarketDataLoader.t_dte t = MarketDataLoader.dte sl
  | None => spec_attractiveness ld (MarketDataLoader.strike_bias sl) base k <= 3 # 10
  end.
Proof.
  unfold MarketDataLoader.target_at. cbv zeta.
  set (d := Qabs (inject_Z k - (inject_Z base + MarketDataLoader.strike_bias sl))).
  assert (Hd : 0 <= d) by apply Qabs_nonneg.
  set (a := (if String.eqb _ "call" then 1 / (1 + d) else 1 / (1 + d))
            * (1 + MarketDataLoader.gamma_at ld k)).
  assert (Ha : a == spec_attractiveness ld (MarketDataLoader.strike_bias sl) base k).
  { unfold a, spec_attractiveness. fold d.
    destruct (String.eqb _ "call"); field; lra. }
  destruct (Py.Qltb (3 # 10) a) eqn:E.
  - apply Qltb_lt in E. simpl. repeat split; assumption.
  - apply Qltb_ge in E. rewrite <- Ha. exact E.
Qed.

Lemma targets_sorted ld slingshot_name spot_price targets :
  MarketDataLoader.get_slingshot_targets ld slingshot_name spot_price = Ok targets ->
  StronglySorted (before MarketDataLoader.attractiveness) targets /\
  forall t, In t targets ->
            In (MarketDataLoader.strike t) (MarketDataLoader._generate_strikes ld spot_price).
Proof.
  unfold MarketDataLoader.get_slingshot_targets.
  destruct (MarketDataLoader.slingshots ld) as [l |]; [| discriminate].
  destruct (MarketDataLoader.by_name slingshot_name l) as [sl |].
  - intros H. injection H as <-. split; [apply sorted_desc_sorted |].
    intros t Ht. apply (Permutation_in _ (sorted_desc_perm _ _)) in Ht.
    apply list_elem_of_In in Ht. apply list_elem_of_omap in Ht as (k & Hk & Hat).
    apply list_elem_of_In in Hk.
    pose proof (target_at_spec ld sl (Py.round spot_price) k) as Hspec.
    rewrite Hat in Hspec. destruct Hspec as (-> & _). exact Hk.
  - intros H. injection H as <-. split; [constructor | intros t []].
Qed.

(** X16.  For settings whose slingshot entries carry the keys the loader
    reads: [get_slingshot_targets] raises [KeyError] when the settings have
    no slingshots, and returns no target for a slingshot they do not name.
    The targets it returns are listed by decreasing attractiveness; each is
    for one of the generated strikes, has a positive attractiveness, which
    is [(1 + gamma) / (1 + |strike - (round(spot) + bias)|)] whether the
    slingshot shoots calls or puts, and carries the option type and the
    days to expiry of the slingshot. *)
Theorem slingshot_targets_well_formed (ld : MarketDataLoader.t) (slingshot_name : string)
    (spot_price : Q) :
  (MarketDataLoader.slingshots ld = None ->
   MarketDataLoader.get_slingshot_targets ld slingshot_name spot_price = Raise KeyError) /\
  (forall l, MarketDataLoader.slingshots ld = Some l ->
             MarketDataLoader.by_name slingshot_name l = None ->
             MarketDataLoader.get_slingshot_targets ld slingshot_name spot_price = Ok []) /\
  (forall targets,
      MarketDataLoader.get_slingshot_targets ld slingshot_name spot_price = Ok targets ->
      StronglySorted (before MarketDataLoader.attractiveness) targets /\
      forall t, In t targets ->
        In (MarketDataLoader.strike t)
           (MarketDataLoader._generate_strikes ld spot_price) /\
        0 < MarketDataLoader.attractiveness t /\
        exists l sl,
          MarketDataLoader.slingshots ld = Some l /\
          MarketDataLoader.by_name slingshot_name l = Some sl /\
          MarketDataLoader.attractiveness t
          == spec_attractiveness ld (MarketDataLoader.strike_bias sl)
               (Py.round spot_price) (MarketDataLoader.strike t) /\
          MarketDataLoader.t_option_type t = MarketDataLoader.option_type sl /\
          MarketDataLoader.t_dte t = MarketDataLoader.dte sl).
Proof.
  unfold MarketDataLoader.get_slingshot_targets.
  split; [intros ->; reflexivity |].
  split; [intros l -> ->; reflexivity |].
  intros targets.
  destruct (MarketDataLoader.slingshots ld) as [l |]; [| discriminate].
  destruct (MarketDataLoader.by_name slingshot_name l) as [sl |] eqn:Esl.
  2:{ intros H. injection H as <-. split; [constructor | intros t []]. }
  cbv zeta. intros H. injection H as <-.
  split; [apply sorted_desc_sorted |].
  intros t Ht.
  apply (Permutation_in _ (sorted_desc_perm _ _)) in Ht.
  apply list_elem_of_In in Ht. apply list_elem_of_omap in Ht as (k & Hk & Hat).
  apply list_elem_of_In in Hk.
  pose proof (target_at_spec ld sl (Py.round spot_price) k) as Hspec.
  rewrite Hat in Hspec. destruct Hspec as (Hs & Hgt & Heq & Ho & Hd).
  rewrite Hs. split; [exact Hk |]. split; [lra |].
  exists l, sl. repeat split; assumption.
Qed.

Lemma slingshot_targets_well_formed_witness :
  StronglySorted (before MarketDataLoader.attractiveness)
    (match MarketDataLoader.get_slingshot_targets Demo.loader "basic" 628 with
     | Ok targets => targets
     | Raise _ => []
     end).
Proof.
  pose proof (slingshot_targets_well_formed Demo.loader "basic" 628) as (_ & _ & H).
  destruct (MarketDataLoader.get_slingshot_targets Demo.loader "basic" 628)
    as [targets | err]; [| constructor].
  apply (H targets eq_refl).
Defined.

(** ** A launch aims at the best target *)

Lemma sorted_head_max {A} (key : A -> Q) (x : A) (l : list A) :
  StronglySorted (before key) (x :: l) ->
  forall y, In y (x :: l) -> key y <= key x.
Proof.
  intros H y Hy. apply StronglySorted_inv in H as [_ H].
  destruct Hy as [<- | Hy]; [lra |].
  rewrite List.Forall_forall in H. apply (H y Hy).
Qed.

(** X17.  When the retail AI is on and the loader has targets for the
    current slingshot at the configured spot, the launch aims at the first
    of them without asking the retail agent: the engine is left as it is and
    no random number is drawn; that target is one of the generated strikes
    and no target is more attractive. *)
Theorem launch_aims_at_best_target (targets : string -> Q -> list (Z * Q))
    (ld : MarketDataLoader.t) (w : World GameEngine.t)
    (best : MarketDataLoader.Target) (others : list MarketDataLoader.Target) :
  let name := sl_name (GameEngine.current_slingshot (obj w)) in
  let spot := SPOT_PRICE (GameEngine.config (obj w)) in
  GameEngine.ai_retail (obj w) = true ->
  MarketDataLoader.get_slingshot_targets ld name spot = Ok (best :: others) ->
  targets name spot = map as_pair (best :: others) ->
  GameEngine.choose_target targets w = Ok (MarketDataLoader.strike best, w) /\
  In (MarketDataLoader.strike best) (MarketDataLoader._generate_strikes ld spot) /\
  forall t, In t (best :: others) ->
            MarketDataLoader.attractiveness t <= MarketDataLoader.attractiveness best.
Proof.
  intros name spot Hai Hld Htargets.
  split.
  { unfold GameEngine.choose_target, bind, get. rewrite Hai.
    fold name spot. rewrite Htargets. reflexivity. }
  destruct (targets_sorted _ _ _ _ Hld) as [Hsorted Hin].
  split; [apply Hin; left; reflexivity |].
  apply (sorted_head_max _ _ _ Hsorted).
Qed.

Lemma launch_aims_at_best_target_witness :
  GameEngine.choose_target Demo.loader_targets Demo.world = Ok (630%Z, Demo.world).
Proof.
  pose proof (launch_aims_at_best_target Demo.loader_targets Demo.loader Demo.world
                (MarketDataLoader.mkTarget 630 (11 # 10) "call" 5)
                [ MarketDataLoader.mkTarget 629 (11 # 20) "call" 5;
                  MarketDataLoader.mkTarget 631 (11 # 20) "call" 5;
                  MarketDataLoader.mkTarget 628 (11 # 30) "call" 5;
                  MarketDataLoader.mkTarget 632 (11 # 30) "call" 5 ]) as H.
  apply H; vm_compute; reflexivity.
Defined.

(** ** Memories written to a file and read back *)

Lemma from_dict_to_dict {O} (m : MemoryLogger.Memory) (w : World O) :
  MemoryDict.from_dict (MemoryDict.to_dict m) w = Ok (m, w).
Proof. destruct m. reflexivity. Qed.

(** X18.  Reading back the dictionaries written for a list of memories
    gives the same memories, in the same order, without a look at the clock.
    A dictionary without a reference count is read as a memory that was
    never referenced; one whose timestamp counts as false is stamped with
    the clock; and reading raises, a [KeyError], exactly when the content,
    the importance or the timestamp is missing. *)
Theorem memory_file_round_trip {O} :
  (forall (ms : list MemoryLogger.Memory) (w : World O),
      MemoryDict.load (MemoryDict.dump ms) w = Ok (ms, w)) /\
  (forall (data : MemoryDict.t) (w : World O),
      match MemoryDict.from_dict data w with
      | Ok (m, w') =>
          MemoryDict.content data = Some (MemoryLogger.content m) /\
          MemoryDict.importance data = Some (MemoryLogger.importance m) /\
          MemoryLogger.references m = default 0%Z (MemoryDict.references data) /\
          match MemoryDict.timestamp data with
          | Some (Some iso) => MemoryLogger.timestamp m = iso /\ w' = w
          | Some None =>
              MemoryLogger.timestamp m = now w 0%nat /\
              w' = mkWorld (rng w) (fun n => now w (S n)) (obj w)
          | None => False
          end
      | Raise err =>
          err = KeyError /\
          (MemoryDict.content data = None \/ MemoryDict.importance data = None \/
           MemoryDict.timestamp data = None)
      end).
Proof.
  split.
  - intros ms. unfold MemoryDict.load, MemoryDict.dump.
    induction ms as [| m ms IH]; intros w; simpl; [reflexivity |].
    unfold bind at 1. rewrite from_dict_to_dict.
    unfold bind. rewrite IH. reflexivity.
  - intros [c imp ts refs] w. unfold MemoryDict.from_dict. simpl.
    destruct c as [c |]; [| split; [reflexivity | left; reflexivity]].
    destruct imp as [imp |]; [| split; [reflexivity | right; left; reflexivity]].
    destruct ts as [[iso |] |]; [| | split; [reflexivity | right; right; reflexivity]].
    + simpl. destruct w. repeat split.
    + simpl. repeat split.
Qed.

(** ** The digest of a memory store *)

Lemma filter_In_bool {A} (f : A -> bool) (x : A) (l : list A) :
  In x (List.filter f l) <-> In x l /\ f x = true.
Proof. apply filter_In. Qed.

Lemma top3_spec (group : list MemoryLogger.Memory) :
  (length (Insights.top3 group) <= 3)%nat /\
  StronglySorted
    (fun a b => (MemoryLogger.references b <= MemoryLogger.references a)%Z)
    (Insights.top3 group) /\
  (forall m, In m (Insights.top3 group) -> In m group) /\
  (forall m, In m group ->
     In m (Insights.top3 group) \/
     (length (Insights.top3 group) = 3%nat /\
      forall kept, In kept (Insights.top3 group) ->
                   (MemoryLogger.references m <= MemoryLogger.references kept)%Z)).
Proof.
  unfold Insights.top3.
  set (key := fun m => inject_Z (MemoryLogger.references m)).
  set (ranked := Py.sorted_desc key group).
  pose proof (sorted_desc_sorted key group) as Hsorted. fold ranked in Hsorted.
  pose proof (sorted_desc_perm key group) as Hperm. fold ranked in Hperm.
  change (Py.slice_to 3 ranked) with (firstn 3 ranked).
  split; [rewrite length_firstn; lia |].
  split.
  { clear Hperm. revert Hsorted. generalize 3%nat as n. intros n Hs. revert n.
    induction Hs as [| x l Hs IH Hx]; intros n.
    - rewrite firstn_nil. constructor.
    - destruct n as [| n]; simpl; [constructor |].
      constructor; [apply IH |].
      rewrite List.Forall_forall in *. intros y Hy.
      assert (Hb : before key x y).
      { apply Hx. rewrite <- (firstn_skipn n l). apply in_or_app. left. exact Hy. }
      unfold before, key in Hb. rewrite <- Zle_Qle in Hb. exact Hb. }
  split.
  { intros m Hm. apply (Permutation_in _ Hperm).
    rewrite <- (firstn_skipn 3 ranked). apply in_or_app. left. exact Hm. }
  intros m Hm. apply (Permutation_in _ (Permutation_sym Hperm)) in Hm.
  rewrite <- (firstn_skipn 3 ranked) in Hm. apply in_app_or in Hm as [Hm | Hm].
  - left. exact Hm.
  - right. split.
    + rewrite length_firstn.
      destruct (Nat.le_gt_cases 3 (length ranked)) as [H | H]; [lia |].
      rewrite skipn_all2 in Hm by lia. destruct Hm.
    + intros kept Hk.
      pose proof (sorted_cut key ranked 3 kept m Hsorted Hk Hm) as Hle.
      unfold key in Hle. rewrite <- Zle_Qle in Hle. exact Hle.
Qed.

(** X19.  The digest of an empty store is the fixed sentence.  Otherwise it
    is the header, the key learnings and the useful patterns, one per line:
    at most three memories of importance 0.8 or more, and at most three of
    importance 0.5 or more and below 0.8, each group listed by decreasing
    number of references; a memory of a group is left out only when three
    of the group with at least as many references are listed, and a memory
    of importance below 0.5 is never listed. *)
Theorem digest_lists_the_most_referenced (lg : MemoryLogger.t) :
  (MemoryLogger.memories lg = [] ->
   Insights.summarize_insights lg = "No memories collected yet."%string) /\
  (MemoryLogger.memories lg <> [] ->
   Insights.summarize_insights lg = String.concat Insights.newline (Insights.summary lg)) /\
  exists learnings patterns,
    Insights.summary lg
    = [("Agent " ++ MemoryLogger.agent_name lg ++ " Insights:")%string]
      ++ match learnings with
         | [] => []
         | _ :: _ => (Insights.newline ++ "Key Learnings:")%string
                     :: map Insights.key_learning learnings
         end
      ++ match patterns with
         | [] => []
         | _ :: _ => (Insights.newline ++ "Useful Patterns:")%string
                     :: map Insights.useful_pattern patterns
         end /\
    (length learnings <= 3)%nat /\ (length patterns <= 3)%nat /\
    StronglySorted
      (fun a b => (MemoryLogger.references b <= MemoryLogger.references a)%Z)
      learnings /\
    StronglySorted
      (fun a b => (MemoryLogger.references b <= MemoryLogger.references a)%Z)
      patterns /\
    (forall m, In m learnings ->
       In m (MemoryLogger.memories lg) /\ 8 # 10 <= MemoryLogger.importance m) /\
    (forall m, In m patterns ->
       In m (MemoryLogger.memories lg) /\
       5 # 10 <= MemoryLogger.importance m /\ MemoryLogger.importance m < 8 # 10) /\
    (forall m, In m (MemoryLogger.memories lg) -> 8 # 10 <= MemoryLogger.importance m ->
       In m learnings \/
       (length learnings = 3%nat /\
        forall kept, In kept learnings ->
                     (MemoryLogger.references m <= MemoryLogger.references kept)%Z)) /\
    (forall m, In m (MemoryLogger.memories lg) ->
       5 # 10 <= MemoryLogger.importance m -> MemoryLogger.importance m < 8 # 10 ->
       In m patterns \/
       (length patterns = 3%nat /\
        forall kept, In kept patterns ->
                     (MemoryLogger.references m <= MemoryLogger.references kept)%Z)).
Proof.
  split; [intros H; unfold Insights.summarize_insights; rewrite H; reflexivity |].
  split.
  { intros H. unfold Insights.summarize_insights.
    destruct (MemoryLogger.memories lg); [congruence | reflexivity]. }
  set (high := List.filter Insights.is_high (MemoryLogger.memories lg)).
  set (medium := List.filter Insights.is_medium (MemoryLogger.memories lg)).
  assert (Hhigh : forall m, In m high
                            <-> In m (MemoryLogger.memories lg)
                                /\ 8 # 10 <= MemoryLogger.importance m).
  { intros m. unfold high. rewrite filter_In_bool. unfold Insights.is_high.
    rewrite Qle_bool_iff. reflexivity. }
  assert (Hmedium : forall m, In m medium
                              <-> In m (MemoryLogger.memories lg)
                                  /\ 5 # 10 <= MemoryLogger.importance m
                                  /\ MemoryLogger.importance m < 8 # 10).
  { intros m. unfold medium. rewrite filter_In_bool.
    unfold Insights.is_medium, Insights.is_high.
    rewrite andb_true_iff, negb_true_iff, Qle_bool_iff.
    split.
    - intros (Hin & Hnot & Hge). split; [exact Hin |]. split; [exact Hge |].
      destruct (Qlt_le_dec (MemoryLogger.importance m) (8 # 10)) as [H | H]; [exact H |].
      apply Qle_bool_iff in H. congruence.
    - intros (Hin & Hge & Hlt). split; [exact Hin |]. split; [| exact Hge].
      destruct (Qle_bool (8 # 10) (MemoryLogger.importance m)) eqn:E; [| reflexivity].
      apply Qle_bool_iff in E. lra. }
  destruct (top3_spec high) as (Hh1 & Hh2 & Hh3 & Hh4).
  destruct (top3_spec medium) as (Hm1 & Hm2 & Hm3 & Hm4).
  exists (Insights.top3 high), (Insights.top3 medium).
  split.
  { unfold Insights.summary. cbv zeta. fold high medium. f_equal. f_equal.
    - destruct high as [| h high']; [reflexivity |].
      destruct (Insights.top3 (h :: high')) eqn:E; [| reflexivity].
      exfalso. destruct (Hh4 h (or_introl eq_refl)) as [[] | [Hlen _]].
      discriminate.
    - destruct medium as [| h medium']; [reflexivity |].
      destruct (Insights.top3 (h :: medium')) eqn:E; [| reflexivity].
      exfalso. destruct (Hm4 h (or_introl eq_refl)) as [[] | [Hlen _]].
      discriminate. }
  split; [exact Hh1 |]. split; [exact Hm1 |].
  split; [exact Hh2 |]. split; [exact Hm2 |].
  split; [intros m Hm; apply Hhigh, Hh3, Hm |].
  split; [intros m Hm; apply Hmedium, Hm3, Hm |].
  split.
  - intros m Hin Hge. apply Hh4. apply Hhigh. split; assumption.
  - intros m Hin Hge Hlt. apply Hm4. apply Hmedium. repeat split; assumption.
Qed.

Lemma digest_lists_the_most_referenced_witness :
  Insights.summarize_insights Demo.logger
  = String.concat Insights.newline (Insights.summary Demo.logger).
Proof.
  apply (proj1 (proj2 (digest_lists_the_most_referenced Demo.logger))).
  discriminate.
Defined.

(** ** The recorder *)

Section Recorder.
Context {Frame : Type}.

Lemma capture_idle (screens : list (option Frame)) (sm : SaveManager.t Frame) :
  SaveManager.recording sm = false \/
  (SaveManager.max_frames sm <= Z.of_nat (length (SaveManager.frames sm)))%Z ->
  captures screens sm = sm.
Proof.
  intros Hidle. induction screens as [| s screens IH]; simpl; [reflexivity |].
  assert (Hs : SaveManager.capture_frame s sm = sm).
  { unfold SaveManager.capture_frame.
    destruct Hidle as [-> | H]; [reflexivity |].
    destruct (_ <? _)%Z eqn:E; [apply Z.ltb_lt in E; lia |].
    rewrite andb_false_r. reflexivity. }
  rewrite Hs. exact IH.
Qed.

Lemma capture_active (screens : list (option Frame)) (sm : SaveManager.t Frame) :
  SaveManager.recording sm = true ->
  (Z.of_nat (length (SaveManager.frames sm)) < SaveManager.max_frames sm)%Z ->
  let room := Z.to_nat (SaveManager.max_frames sm
                        - Z.of_nat (length (SaveManager.frames sm))) in
  let sm' := captures screens sm in
  SaveManager.frames sm' = SaveManager.frames sm ++ firstn room (omap id screens) /\
  SaveManager.max_frames sm' = SaveManager.max_frames sm /\
  (SaveManager.recording sm' = false
   <-> Z.of_nat (length (SaveManager.frames sm')) = SaveManager.max_frames sm).
Proof.
  revert sm. induction screens as [| s screens IH]; intros sm Hrec Hlt; cbv zeta.
  - simpl. rewrite firstn_nil, app_nil_r. split; [reflexivity |].
    split; [reflexivity |]. rewrite Hrec. split; [discriminate | lia].
  - simpl.
    destruct s as [frame |].
    + assert (Hstep : SaveManager.capture_frame (Some frame) sm
                      = let sm1 := SaveManager.mkSaveManager true
                                     (SaveManager.frames sm ++ [frame])
                                     (SaveManager.max_frames sm) in
                        if (SaveManager.max_frames sm
                            - Z.of_nat (length (SaveManager.frames sm ++ [frame])) =? 0)%Z
                        then SaveManager.stop_recording sm1 else sm1).
      { unfold SaveManager.capture_frame. rewrite Hrec.
        destruct (_ <? _)%Z eqn:E; [| apply Z.ltb_ge in E; lia]. reflexivity. }
      rewrite Hstep. clear Hstep. cbv zeta.
      destruct (SaveManager.max_frames sm
                - Z.of_nat (length (SaveManager.frames sm ++ [frame])) =? 0)%Z eqn:E;
        rewrite length_app in E; simpl length in E.
      * apply Z.eqb_eq in E.
        rewrite capture_idle by (left; reflexivity). simpl.
        replace (Z.to_nat (SaveManager.max_frames sm
                           - Z.of_nat (length (SaveManager.frames sm)))) with 1%nat by lia.
        simpl. rewrite firstn_O.
        split; [reflexivity |]. split; [reflexivity |].
        rewrite length_app. simpl. split; [lia | reflexivity].
      * apply Z.eqb_neq in E.
        edestruct (IH (SaveManager.mkSaveManager true
                         (SaveManager.frames sm ++ [frame]) (SaveManager.max_frames sm)))
          as (Hf & Hm & Hr); [reflexivity | simpl; rewrite length_app; simpl; lia |].
        simpl in Hf, Hm, Hr.
        split.
        { rewrite Hf, <- app_assoc. f_equal. rewrite length_app. simpl.
          replace (Z.to_nat (SaveManager.max_frames sm
                             - Z.of_nat (length (SaveManager.frames sm))))
            with (S (Z.to_nat (SaveManager.max_frames sm
                               - Z.of_nat (length (SaveManager.frames sm) + 1))))
            by lia.
          reflexivity. }
        split; [exact Hm | exact Hr].
    + assert (Hstep : SaveManager.capture_frame None sm = sm).
      { unfold SaveManager.capture_frame. destruct (_ && _); reflexivity. }
      rewrite Hstep. apply (IH sm Hrec Hlt).
Qed.

(** X20.  From [start_recording] on, whatever the screens, the recorder
    keeps the frames of the screens that convert, in their order, up to the
    frame limit and no further; with a positive limit the recording is off
    exactly when the limit is reached, and with a limit that is not positive
    nothing is ever kept and the recording never stops by itself. *)
Theorem recording_stops_at_the_limit (screens : list (option Frame))
    (sm0 : SaveManager.t Frame) :
  let limit := SaveManager.max_frames sm0 in
  let sm := captures screens (SaveManager.start_recording sm0) in
  SaveManager.frames sm = firstn (Z.to_nat limit) (omap id screens) /\
  (Z.of_nat (length (SaveManager.frames sm)) <= Z.max 0 limit)%Z /\
  SaveManager.max_frames sm = limit /\
  ((0 < limit)%Z ->
   (SaveManager.recording sm = false
    <-> Z.of_nat (length (SaveManager.frames sm)) = limit)) /\
  ((limit <= 0)%Z -> SaveManager.recording sm = true).
Proof.
  cbv zeta.
  destruct (Z.lt_ge_cases 0 (SaveManager.max_frames sm0)) as [Hpos | Hneg].
  - destruct (capture_active screens (SaveManager.start_recording sm0))
      as (Hf & Hm & Hr); [reflexivity | simpl; lia |].
    simpl in Hf, Hm, Hr. rewrite Z.sub_0_r in Hf.
    split; [exact Hf |].
    split; [rewrite Hf, length_firstn; lia |].
    split; [exact Hm |].
    split; [intros _; exact Hr | lia].
  - rewrite capture_idle by (right; simpl; lia). simpl.
    replace (Z.to_nat (SaveManager.max_frames sm0)) with 0%nat by lia.
    split; [reflexivity |]. split; [lia |]. split; [reflexivity |].
    split; [lia | reflexivity].
Qed.

End Recorder.

Lemma recording_stops_at_the_limit_witness :
  SaveManager.recording
    (captures [Some 1%Z; None; Some 2%Z; Some 3%Z]
       (SaveManager.start_recording (SaveManager.init 2))) = false
  <-> Z.of_nat (length (SaveManager.frames
                          (captures [Some 1%Z; None; Some 2%Z; Some 3%Z]
                             (SaveManager.start_recording (SaveManager.init 2))))) = 2%Z.
Proof.
  apply (recording_stops_at_the_limit [Some 1%Z; None; Some 2%Z; Some 3%Z]
           (SaveManager.init 2)).
  reflexivity.
Defined.

(** ** The statistics of a running engine *)

Lemma statistics_balanced (e : GameEngine.t) (strikes : list Z) :
  balanced e ->
  (forall k, In k strikes -> In k (GameEngine.valid_strikes e)) ->
  exists rows,
    SaveManager.statistics e strikes = Ok rows /\
    map SaveManager.strike rows = strikes /\
    forall row, In row rows ->
      GameEngine.tree_hits e !! SaveManager.strike row = Some (SaveManager.hits row) /\
      GameEngine.retail_juice e !! SaveManager.strike row
      = Some (SaveManager.retail_juice row) /\
      GameEngine.mm_juice e !! SaveManager.strike row = Some (SaveManager.mm_juice row) /\
      SaveManager.gamma row
      = default 0 (GAMMA_STRENGTH (GameEngine.config e) !! SaveManager.strike row) /\
      (0 <= SaveManager.hits row)%Z.
Proof.
  intros (Hne & Hdom & Hbal) Hsub.
  induction strikes as [| k strikes IH].
  - exists []. split; [reflexivity |]. split; [reflexivity |]. intros row [].
  - destruct IH as (rows & Hrows & Hkeys & Hall).
    { intros k' Hk'. apply Hsub. right. exact Hk'. }
    destruct (Hdom k (Hsub k (or_introl eq_refl))) as [n Hn].
    destruct (Hbal k n Hn) as (_ & Hpos & rj & mj & Hrj & Hmj & _).
    eexists. simpl. unfold SaveManager.item. rewrite Hn, Hrj, Hmj. simpl.
    rewrite Hrows. simpl. split; [reflexivity |].
    split; [simpl; rewrite Hkeys; reflexivity |].
    intros row [<- | Hrow]; [simpl; repeat split; assumption | apply Hall; exact Hrow].
Qed.

(** X21.  In every world reachable from a fresh engine the statistics can
    be saved: building the table raises no [KeyError] and yields one row
    per strike of the universe, in its order, with the hit count, the two
    juice totals of the strike and its gamma, 0 when the configuration has
    none. *)
Theorem statistics_cover_the_universe str_float targets config (w : World GameEngine.t) :
  reachable str_float targets config w ->
  exists rows,
    SaveManager._save_statistics (obj w) = Ok rows /\
    map SaveManager.strike rows = GameEngine.valid_strikes (obj w) /\
    forall row, In row rows ->
      GameEngine.tree_hits (obj w) !! SaveManager.strike row
      = Some (SaveManager.hits row) /\
      GameEngine.retail_juice (obj w) !! SaveManager.strike row
      = Some (SaveManager.retail_juice row) /\
      GameEngine.mm_juice (obj w) !! SaveManager.strike row
      = Some (SaveManager.mm_juice row) /\
      SaveManager.gamma row
      = default 0 (GAMMA_STRENGTH (GameEngine.config (obj w)) !! SaveManager.strike row) /\
      (0 <= SaveManager.hits row)%Z.
Proof.
  intros Hreach. destruct (reachable_ledger _ _ _ _ Hreach) as [Hb _].
  destruct (statistics_balanced (obj w) (GameEngine.valid_strikes (obj w)) Hb)
    as (rows & Hrows & Hkeys & Hall); [auto |].
  exists rows. split; [exact Hrows |]. split; [exact Hkeys |].
  intros row Hrow. apply Hall. exact Hrow.
Qed.

Lemma statistics_cover_the_universe_witness :
  exists rows,
    SaveManager._save_statistics (obj Demo.after_update) = Ok rows /\
    map SaveManager.strike rows = GameEngine.valid_strikes (obj Demo.after_update).
Proof.
  destruct (statistics_cover_the_universe Demo.str_float Demo.no_targets Demo.config
              Demo.after_update) as (rows & Hrows & Hkeys & _).
  - apply (reach_step _ _ _ OpUpdate Demo.world).
    + apply (reach_init _ _ _ Demo.no_profiles [] []). reflexivity.
    + vm_compute. reflexivity.
  - exists rows. split; assumption.
Defined.

(** ** The gamma profile of a configuration *)

Lemma comprehension_cases (f : Z -> Res Q) (strikes : list Z) (acc : gmap Z Q) :
  match GammaProfile.comprehension f strikes acc with
  | Ok gamma =>
      (forall s, In s strikes -> exists v, f s = Ok v /\ gamma !! s = Some v) /\
      (forall s, ~ In s strikes -> gamma !! s = acc !! s)
  | Raise err => exists s, In s strikes /\ f s = Raise err
  end.
Proof.
  revert acc. induction strikes as [| k strikes IH]; intros acc; simpl.
  - split; [intros s [] | reflexivity].
  - destruct (f k) as [v | err] eqn:Ek; simpl.
    + specialize (IH (<[k := v]> acc)).
      destruct (GammaProfile.comprehension f strikes _) as [gamma | err].
      * destruct IH as [Hin Hout]. split.
        -- intros s Hs. destruct (in_dec Z.eq_dec s strikes) as [H | H].
           ++ apply Hin. exact H.
           ++ destruct Hs as [<- | Hs]; [| contradiction].
              exists v. split; [exact Ek |].
              rewrite (Hout k H). apply lookup_insert_eq.
        -- intros s Hs. rewrite Hout by (intros H; apply Hs; right; exact H).
           apply lookup_insert_ne. intros ->. apply Hs. left. reflexivity.
      * destruct IH as (s & Hs & Hf). exists s. split; [right; exact Hs | exact Hf].
    + exists k. split; [left; reflexivity | exact Ek].
Qed.

(** X22.  The gamma strengths a configuration fills in cover every strike
    of the configuration and nothing else.  With no gamma profile in the
    market state the strength of a strike is [0.2 + 0.02 * |strike - spot|];
    with one it is the profile's value at the strike, 0 where it has none,
    divided by the greatest value of the profile.  Filling in raises only
    when the profile is not empty, its greatest value is 0 and there is a
    strike: the division then raises [ZeroDivisionError]. *)
Theorem gamma_strength_covers_strikes (gamma_profile : gmap Z Q) (spot_price : Q)
    (strikes : list Z) :
  match GammaProfile.post_init gamma_profile spot_price strikes with
  | Ok gamma =>
      (forall s, is_Some (gamma !! s) <-> In s strikes) /\
      (GammaProfile.is_empty gamma_profile = true ->
       forall s, In s strikes ->
         gamma !! s = Some ((2 # 10) + (2 # 100) * Qabs (inject_Z s - spot_price))) /\
      (GammaProfile.is_empty gamma_profile = false ->
       exists max_gamma,
         GammaProfile.max_value gamma_profile = Ok max_gamma /\
         forall s, In s strikes ->
           ~ max_gamma == 0 /\
           gamma !! s = Some (default 0 (gamma_profile !! s) / max_gamma))
  | Raise err =>
      err = ZeroDivisionError /\
      GammaProfile.is_empty gamma_profile = false /\
      strikes <> [] /\
      exists max_gamma, GammaProfile.max_value gamma_profile = Ok max_gamma /\ max_gamma == 0
  end.
Proof.
  assert (Hcover : forall (f : Z -> Res Q) (gamma : gmap Z Q),
             (forall s, In s strikes -> exists v, f s = Ok v /\ gamma !! s = Some v) ->
             (forall s, ~ In s strikes -> gamma !! s = (∅ : gmap Z Q) !! s) ->
             forall s, is_Some (gamma !! s) <-> In s strikes).
  { intros f gamma Hin Hout s. split.
    - intros Hs. destruct (in_dec Z.eq_dec s strikes) as [H | H]; [exact H |].
      rewrite (Hout s H), lookup_empty in Hs. destruct Hs. discriminate.
    - intros Hs. destruct (Hin s Hs) as (v & _ & ->). eauto. }
  unfold GammaProfile.post_init.
  destruct (GammaProfile.is_empty gamma_profile) eqn:Eempty.
  - pose proof (comprehension_cases
                  (fun s => Ok ((2 # 10) + (2 # 100) * Qabs (inject_Z s - spot_price)))
                  strikes ∅) as H.
    destruct (GammaProfile.comprehension _ strikes ∅) as [gamma | err].
    + destruct H as [Hin Hout].
      split; [apply (Hcover _ _ Hin Hout) |]. split; [| discriminate].
      intros _ s Hs. destruct (Hin s Hs) as (v & Hv & ->). injection Hv as <-. reflexivity.
    + destruct H as (s & _ & Hs). discriminate.
  - assert (Hmax : exists max_gamma, GammaProfile.max_value gamma_profile = Ok max_gamma).
    { unfold GammaProfile.max_value, GammaProfile.is_empty in *.
      destruct (map_to_list gamma_profile) as [| e l]; [discriminate |].
      simpl. eexists. reflexivity. }
    destruct Hmax as [max_gamma Hmax]. rewrite Hmax. simpl.
    set (f := fun s => Py.div (default 0 (gamma_profile !! s)) max_gamma).
    pose proof (comprehension_cases f strikes ∅) as H.
    assert (Hf : forall s, f s = if Qeq_bool max_gamma 0 then Raise ZeroDivisionError
                                  else Ok (default 0 (gamma_profile !! s) / max_gamma)).
    { intros s. reflexivity. }
    destruct (GammaProfile.comprehension f strikes ∅) as [gamma | err].
    + destruct H as [Hin Hout].
      split; [apply (Hcover _ _ Hin Hout) |]. split; [discriminate |].
      intros _. exists max_gamma. split; [reflexivity |].
      intros s Hs. destruct (Hin s Hs) as (v & Hv & ->). rewrite Hf in Hv.
      destruct (Qeq_bool max_gamma 0) eqn:Ez; [discriminate |].
      injection Hv as <-. split; [| reflexivity].
      apply Qeq_bool_neq. exact Ez.
    + destruct H as (s & Hs & Hraise). rewrite Hf in Hraise.
      destruct (Qeq_bool max_gamma 0) eqn:Ez; [| discriminate].
      injection Hraise as <-. split; [reflexivity |]. split; [reflexivity |].
      split; [intros ->; destruct Hs |].
      exists max_gamma. split; [reflexivity |]. apply Qeq_bool_iff. exact Ez.
Qed.

Lemma gamma_strength_covers_strikes_witness :
  exists gamma,
    GammaProfile.post_init ∅ 628 [625; 630; 635]%Z = Ok gamma /\
    gamma !! 630%Z = Some ((2 # 10) + (2 # 100) * Qabs (inject_Z 630 - 628)).
Proof.
  pose proof (gamma_strength_covers_strikes ∅ 628 [625; 630; 635]%Z) as H.
  destruct (GammaProfile.post_init ∅ 628 [625; 630; 635]%Z) as [gamma | err] eqn:E;
    [| vm_compute in E; discriminate].
  exists gamma. split; [reflexivity |].
  destruct H as (_ & Hsyn & _). apply Hsyn; [reflexivity |].
  right. left. reflexivity.
Defined.

(** ** The keys of the interface *)

Lemma index_in_range {A} (l : list A) (i : Z) :
  (0 <= i < Z.of_nat (length l))%Z ->
  exists a, Py.index l i = Ok a /\ nth_error l (Z.to_nat i) = Some a.
Proof.
  intros Hi. unfold Py.index. cbv zeta.
  destruct (i <? 0)%Z eqn:E; [apply Z.ltb_lt in E; lia |]. rewrite E.
  destruct (nth_error l (Z.to_nat i)) as [a |] eqn:En; [eauto |].
  apply nth_error_None in En. lia.
Qed.

Lemma switch_profile_slingshot agent idx (w : World GameEngine.t) :
  (0 <= idx)%Z ->
  exists b w',
    GameEngine.switch_profile agent idx w = Ok (b, w') /\
    GameEngine.current_slingshot (obj w') = GameEngine.current_slingshot (obj w) /\
    GameEngine.config (obj w') = GameEngine.config (obj w).
Proof.
  intros Hidx.
  assert (Hto : forall a names,
             (idx < Z.of_nat (length names))%Z ->
             exists b w',
               GameEngine.switch_to a names idx w = Ok (b, w') /\
               GameEngine.current_slingshot (obj w')
               = GameEngine.current_slingshot (obj w) /\
               GameEngine.config (obj w') = GameEngine.config (obj w)).
  { intros a names Hlt.
    destruct (index_in_range names idx ltac:(lia)) as (name & Hname & _).
    unfold GameEngine.switch_to, bind, get, lift, put, ret. rewrite Hname.
    eexists _, _. split; [reflexivity |]. split; reflexivity. }
  unfold GameEngine.switch_profile, bind, get.
  destruct (String.eqb agent "retail"
            && (idx <? Z.of_nat (length (GameEngine.retail_profiles (obj w))))%Z) eqn:E1.
  { apply andb_true_iff in E1 as [_ E1]. apply Z.ltb_lt in E1. apply Hto. exact E1. }
  destruct (String.eqb agent "monkey"
            && (idx <? Z.of_nat (length (GameEngine.monkey_profiles (obj w))))%Z) eqn:E2.
  { apply andb_true_iff in E2 as [_ E2]. apply Z.ltb_lt in E2. apply Hto. exact E2. }
  eexists _, _. split; [reflexivity |]. split; reflexivity.
Qed.

Lemma key_in_cases (key a b c : Z) :
  GameUI.key_in key [a; b; c] = true -> key = a \/ key = b \/ key = c.
Proof.
  unfold GameUI.key_in. simpl. rewrite !orb_true_iff, !Z.eqb_eq.
  intros [H | [H | [H | H]]]; [auto | auto | auto | discriminate].
Qed.

Section Keys.
Variable slingshot_names : GameConfig -> list string.

Lemma key_down_cases (key : Z) (w : World GameUI.t) :
  exists w',
    GameUI.key_down slingshot_names key w = Ok (tt, w') /\
    (key = GameUI.K_1 ->
     GameUI.key_down slingshot_names key w
     = GameUI.on_engine (GameEngine.toggle_ai "retail") w) /\
    (key = GameUI.K_2 ->
     GameUI.key_down slingshot_names key w
     = GameUI.on_engine (GameEngine.toggle_ai "monkey") w) /\
    (GameEngine.current_slingshot (GameUI.engine (obj w'))
     <> GameEngine.current_slingshot (GameUI.engine (obj w)) ->
     key = GameUI.K_3 /\
     exists name,
       nth_error (slingshot_names (GameEngine.config (GameUI.engine (obj w)))) 2
       = Some name /\
       SLINGSHOTS (GameEngine.config (GameUI.engine (obj w))) !! name
       = Some (GameEngine.current_slingshot (GameUI.engine (obj w')))).
Proof.
  unfold GameUI.key_down.
  destruct (key =? GameUI.K_SPACE)%Z eqn:E0.
  { apply Z.eqb_eq in E0. subst key.
    eexists. split; [reflexivity |]. simpl.
    split; [discriminate |]. split; [discriminate |]. intros H. congruence. }
  destruct (key =? GameUI.K_1)%Z eqn:E1.
  { apply Z.eqb_eq in E1. subst key.
    eexists. split; [reflexivity |]. simpl.
    split; [reflexivity |]. split; [discriminate |]. intros H. congruence. }
  destruct (key =? GameUI.K_2)%Z eqn:E2.
  { apply Z.eqb_eq in E2. subst key.
    eexists. split; [reflexivity |]. simpl.
    split; [discriminate |]. split; [reflexivity |]. intros H. congruence. }
  apply Z.eqb_neq in E1, E2.
  destruct (key =? GameUI.K_r)%Z.
  { eexists. split; [reflexivity |]. simpl.
    split; [congruence |]. split; [congruence |]. intros H. congruence. }
  destruct (key =? GameUI.K_h)%Z.
  { eexists. split; [reflexivity |]. simpl.
    split; [congruence |]. split; [congruence |]. intros H. congruence. }
  destruct (key =? GameUI.K_p)%Z.
  { eexists. split; [reflexivity |]. simpl.
    split; [congruence |]. split; [congruence |]. intros H. congruence. }
  destruct (key =? GameUI.K_m)%Z.
  { eexists. split; [reflexivity |]. simpl.
    split; [congruence |]. split; [congruence |]. intros H. congruence. }
  destruct (key =? GameUI.K_s)%Z.
  { eexists. split; [reflexivity |]. simpl.
    split; [congruence |]. split; [congruence |]. intros H. congruence. }
  destruct (GameUI.key_in key [GameUI.K_F1; GameUI.K_F2; GameUI.K_F3]) eqn:EF1.
  { apply key_in_cases in EF1. cbv zeta.
    destruct (switch_profile_slingshot "retail" (key - GameUI.K_F1)
                (mkWorld (rng w) (now w) (GameUI.engine (obj w))))
      as (b & we & Hsw & Hsl & _);
      [unfold GameUI.K_F1, GameUI.K_F2, GameUI.K_F3 in *; lia |].
    unfold bind, GameUI.on_engine, zoom. rewrite Hsw. unfold ret.
    eexists. split; [reflexivity |]. simpl.
    split; [congruence |]. split; [congruence |]. intros H. simpl in Hsl. congruence. }
  destruct (GameUI.key_in key [GameUI.K_F5; GameUI.K_F6; GameUI.K_F7]) eqn:EF5.
  { apply key_in_cases in EF5. cbv zeta.
    destruct (switch_profile_slingshot "monkey" (key - GameUI.K_F5)
                (mkWorld (rng w) (now w) (GameUI.engine (obj w))))
      as (b & we & Hsw & Hsl & _);
      [unfold GameUI.K_F5, GameUI.K_F6, GameUI.K_F7 in *; lia |].
    unfold bind, GameUI.on_engine, zoom. rewrite Hsw. unfold ret.
    eexists. split; [reflexivity |]. simpl.
    split; [congruence |]. split; [congruence |]. intros H. simpl in Hsl. congruence. }
  destruct (GameUI.key_in key [GameUI.K_1; GameUI.K_2; GameUI.K_3]) eqn:E123.
  2:{ eexists. split; [reflexivity |].
      split; [congruence |]. split; [congruence |]. intros H. congruence. }
  apply key_in_cases in E123 as [-> | [-> | ->]]; [congruence | congruence |].
  unfold bind at 1, get at 1. cbv zeta.
  change (GameUI.K_3 - GameUI.K_1)%Z with 2%Z.
  set (names := slingshot_names (GameEngine.config (GameUI.engine (obj w)))).
  destruct (2 <? Z.of_nat (length names))%Z eqn:Elen.
  2:{ eexists. split; [reflexivity |].
      split; [discriminate |]. split; [discriminate |]. intros H. congruence. }
  apply Z.ltb_lt in Elen.
  destruct (index_in_range names 2 ltac:(lia)) as (name & Hname & Hnth).
  unfold bind, lift. rewrite Hname.
  unfold GameUI.on_engine, zoom, GameEngine.switch_slingshot, bind, get. simpl.
  destruct (SLINGSHOTS (GameEngine.config (GameUI.engine (obj w))) !! name)
    as [sling |] eqn:Es.
  - eexists. split; [reflexivity |]. simpl.
    split; [discriminate |]. split; [discriminate |]. intros _.
    split; [reflexivity |]. exists name. split; [exact Hnth | exact Es].
  - eexists. split; [reflexivity |]. simpl.
    split; [discriminate |]. split; [discriminate |]. intros H. congruence.
Qed.

(** X23.  A key press never raises.  The keys 1 and 2 toggle the retail and
    the monkey AI and nothing else: the test that would let them select a
    slingshot comes later in the chain and is never reached.  Whatever the
    key, the slingshot changes only on key 3, and then to the third
    slingshot of the catalog. *)
Theorem keys_one_and_two_never_select_a_slingshot (key : Z) (w : World GameUI.t) :
  exists w',
    GameUI.key_down slingshot_names key w = Ok (tt, w') /\
    (key = GameUI.K_1 ->
     GameUI.key_down slingshot_names key w
     = GameUI.on_engine (GameEngine.toggle_ai "retail") w) /\
    (key = GameUI.K_2 ->
     GameUI.key_down slingshot_names key w
     = GameUI.on_engine (GameEngine.toggle_ai "monkey") w) /\
    (GameEngine.current_slingshot (GameUI.engine (obj w'))
     <> GameEngine.current_slingshot (GameUI.engine (obj w)) ->
     key = GameUI.K_3 /\
     exists name,
       nth_error (slingshot_names (GameEngine.config (GameUI.engine (obj w)))) 2
       = Some name /\
       SLINGSHOTS (GameEngine.config (GameUI.engine (obj w))) !! name
       = Some (GameEngine.current_slingshot (GameUI.engine (obj w')))).
Proof.
  destruct (key_down_cases key w) as (w' & Hrun & H1 & H2 & Hsling).
  exists w'. split; [exact Hrun |]. split; [exact H1 |]. split; [exact H2 |].
  exact Hsling.
Qed.

(** X24.  Handling a batch of events never raises.  It answers False, that
    the game should stop, exactly when the batch holds a QUIT event, and
    then the events that follow the first QUIT are not handled at all. *)
Theorem quit_ends_the_batch (events : list GameUI.Event) (w : World GameUI.t) :
  exists running w',
    GameUI.handle_events slingshot_names events w = Ok (running, w') /\
    (running = false <-> In GameUI.QUIT events) /\
    (forall before after,
        events = before ++ GameUI.QUIT :: after ->
        ~ In GameUI.QUIT before ->
        GameUI.handle_events slingshot_names events w
        = GameUI.handle_events slingshot_names (before ++ [GameUI.QUIT]) w).
Proof.
  revert w. induction events as [| e events IH]; intros w.
  - exists true, w. split; [reflexivity |]. split.
    + split; [discriminate | intros []].
    + intros before after H. destruct before; discriminate.
  - assert (Hnext : forall m : M GameUI.t unit,
               (exists w1, m w = Ok (tt, w1)) ->
               e <> GameUI.QUIT ->
               (forall rest, GameUI.handle_events slingshot_names (e :: rest)
                             = (m ;;; GameUI.handle_events slingshot_names rest)) ->
               exists running w',
                 GameUI.handle_events slingshot_names (e :: events) w = Ok (running, w') /\
                 (running = false <-> In GameUI.QUIT (e :: events)) /\
                 (forall before after,
                     e :: events = before ++ GameUI.QUIT :: after ->
                     ~ In GameUI.QUIT before ->
                     GameUI.handle_events slingshot_names (e :: events) w
                     = GameUI.handle_events slingshot_names (before ++ [GameUI.QUIT]) w)).
    { intros m [w1 Hm] Hne Hstep.
      destruct (IH w1) as (running & w' & Hrun & Hquit & Hcut).
      exists running, w'. rewrite Hstep. unfold bind at 1. rewrite Hm.
      split; [exact Hrun |]. split.
      - rewrite Hquit. simpl. split; [auto |]. intros [H | H]; [congruence | exact H].
      - intros before after Heq Hnot.
        destruct before as [| b before]; simpl in Heq.
        + injection Heq as -> _. congruence.
        + injection Heq as <- Heq. simpl app. rewrite Hstep.
          unfold bind. rewrite Hm. apply (Hcut before after Heq).
          intros H. apply Hnot. right. exact H. }
    destruct e as [| key | x y |].
    + exists false, w. split; [reflexivity |]. split.
      * split; [intros _; left; reflexivity | reflexivity].
      * intros before after Heq Hnot. destruct before as [| b before].
        -- reflexivity.
        -- simpl in Heq. injection Heq as <- _. exfalso. apply Hnot. left. reflexivity.
    + apply (Hnext (GameUI.key_down slingshot_names key)).
      * destruct (key_down_cases key w) as (w1 & Hk & _). exists w1. exact Hk.
      * discriminate.
      * reflexivity.
    + apply (Hnext (GameUI.update_hover x y)).
      * eexists. reflexivity.
      * discriminate.
      * reflexivity.
    + apply (Hnext (ret tt)).
      * eexists. reflexivity.
      * discriminate.
      * reflexivity.
Qed.

End Keys.

Lemma keys_one_and_two_never_select_a_slingshot_witness :
  GameUI.key_down (fun _ => ["basic"; "sniper"]%string) GameUI.K_1
    (mkWorld (fun _ => 1 # 2) (fun _ => 0) (GameUI.init Demo.engine))
  = GameUI.on_engine (GameEngine.toggle_ai "retail")
      (mkWorld (fun _ => 1 # 2) (fun _ => 0) (GameUI.init Demo.engine)).
Proof.
  destruct (keys_one_and_two_never_select_a_slingshot
              (fun _ => ["basic"; "sniper"]%string) GameUI.K_1
              (mkWorld (fun _ => 1 # 2) (fun _ => 0) (GameUI.init Demo.engine)))
    as (w' & _ & H1 & _).
  apply H1. reflexivity.
Defined.

Lemma quit_ends_the_batch_witness :
  GameUI.handle_events (fun _ => ["basic"; "sniper"]%string)
    [GameUI.KEYDOWN GameUI.K_1; GameUI.QUIT; GameUI.KEYDOWN GameUI.K_SPACE]
    (mkWorld (fun _ => 1 # 2) (fun _ => 0) (GameUI.init Demo.engine))
  = GameUI.handle_events (fun _ => ["basic"; "sniper"]%string)
      ([GameUI.KEYDOWN GameUI.K_1] ++ [GameUI.QUIT])
      (mkWorld (fun _ => 1 # 2) (fun _ => 0) (GameUI.init Demo.engine)).
Proof.
  destruct (quit_ends_the_batch (fun _ => ["basic"; "sniper"]%string)
              [GameUI.KEYDOWN GameUI.K_1; GameUI.QUIT; GameUI.KEYDOWN GameUI.K_SPACE]
              (mkWorld (fun _ => 1 # 2) (fun _ => 0) (GameUI.init Demo.engine)))
    as (running & w' & _ & _ & Hcut).
  apply (Hcut [GameUI.KEYDOWN GameUI.K_1] [GameUI.KEYDOWN GameUI.K_SPACE] eq_refl).
  intros [H | []]. discriminate.
Defined.
